(** * Event aggregation of the StatsBomb API ([main.py])

    A shallow embedding of the two aggregation endpoints of [main.py],
    [get_player_stats] and [get_team_stats], and the properties of the
    per-player and per-team summaries they build.

    The event source ([sb.events]) is external: the endpoints are modelled
    from the point where the rows of the match are at hand, as functions of
    the list of rows.  Python integers are [Z], Python floats are the
    binary64 numbers of [PrimFloat], a Python [dict] with fixed keys is a
    record, and the two accumulation dictionaries are association lists in
    insertion order, as [list(d.values())] enumerates them.

    The code reads the rows without checking their types, so the model
    keeps what it dereferences untyped: a sub-object cell holds any Python
    value, and a lookup or an addition on a value of the wrong kind raises
    as it does in Python.  An actor cell holds what the loops can tell
    apart by testing and hashing it: a name, the [nan] of a row without
    actor, [None], or a container that is no key.  The [try]/[except] of
    an endpoint turns an exception of its loop into the failure
    envelope. *)

From Stdlib Require Import ZArith List String Bool Lia Permutation Sorted.
From Stdlib Require Import Floats.
Import ListNotations.

Local Open Scope string_scope.
Local Open Scope Z_scope.

Set Implicit Arguments.

(** ** Python values, exceptions and the operations the endpoints use *)

Module Py.

(** The values a column of an event row can hold. *)
#[local] Set Warnings "-register-all".
Inductive value : Type :=
| VNone
| VBool (b : bool)
| VInt (z : Z)
| VFloat (f : float)
| VStr (s : string)
| VList (l : list value)
| VDict (d : list (string * value)).

Definition mapping : Type := list (string * value).

(** The exceptions the loop bodies can raise. *)
Inductive exn : Type :=
| AttributeError
| TypeError
| OverflowError.

(** A computation that returns or raises. *)
Inductive M (A : Type) : Type :=
| Ok (a : A)
| Raise (e : exn).
Arguments Ok {A} a.
Arguments Raise {A} e.

Definition bind {A B : Type} (m : M A) (k : A -> M B) : M B :=
  match m with
  | Ok a => k a
  | Raise e => Raise e
  end.

(** The binding of [key] in a dict: [Some d[key]] when [key in d]. *)
Fixpoint find (key : string) (d : mapping) : option value :=
  match d with
  | [] => None
  | (k, v) :: d' => if String.eqb key k then Some v else find key d'
  end.

(** Resolving the attribute [o.get]: only a dict has the method, on any
    other value ([None], a number, a string, a list) the lookup raises
    [AttributeError]. *)
Definition get_method (o : value) : M mapping :=
  match o with
  | VDict d => Ok d
  | _ => Raise AttributeError
  end.

(** [d.get(key, default)]. *)
Definition get (d : mapping) (key : string) (default : value) : value :=
  match find key d with
  | Some v => v
  | None => default
  end.

(** [v == s] for a string literal [s]: only an equal [str] is. *)
Definition eq_str (v : value) (s : string) : bool :=
  match v with
  | VStr t => String.eqb t s
  | _ => false
  end.

(** [v in [s1, s2, ...]] for a list of string literals. *)
Definition in_strs (v : value) (l : list string) : bool :=
  existsb (eq_str v) l.

(** [v == True]: numbers compare by value, so [1] and [1.0] are equal to
    [True] as well. *)
Definition eq_True (v : value) : bool :=
  match v with
  | VBool b => b
  | VInt z => Z.eqb z 1
  | VFloat f => PrimFloat.eqb f 1%float
  | _ => false
  end.

(** [float(z)] as the addition of a float and an int performs it: the
    nearest binary64 number, [OverflowError] when [z] is out of range. *)
Definition float_of_int (z : Z) : M float :=
  match binary_normalize prec emax z 0 false with
  | S754_infinity _ => Raise OverflowError
  | sf => Ok (SF2Prim sf)
  end.

(** [acc + v] for a float [acc]: defined on numbers only. *)
Definition float_add (acc : float) (v : value) : M float :=
  match v with
  | VFloat f => Ok (acc + f)%float
  | VInt z => bind (float_of_int z) (fun f => Ok (acc + f)%float)
  | VBool b => Ok (acc + (if b then 1 else 0))%float
  | _ => Raise TypeError
  end.

End Py.

Import Py.

Notation "x <- m ;; k" := (Py.bind m (fun x => k))
  (at level 61, m at next level, right associativity).

(** ** Event rows *)

(** What [event.get("player")] and [event.get("team")] answer.  The actor
    columns of an event table hold names, and the float [nan] in the rows
    without actor; without the column, [event.get] answers [None].  A
    [nan] comes with the identity [obj] of the object, which is all a dict
    can find it again by.  A list or a dict stands for the values that are
    no key of a dict.  Numbers other than [nan], which are keys by their
    value across [bool], [int] and [float], are left out. *)
Inductive actor : Type :=
| ANone
| ANaN (obj : nat)
| AStr (s : string)
| AList (l : list value)
| ADict (d : mapping).

(** [bool(a)], which [not a] negates: [None], the empty string and the
    empty containers are false; [nan] is true, as every float but zero. *)
Definition truthy (a : actor) : bool :=
  match a with
  | ANone => false
  | ANaN _ => true
  | AStr s => negb (String.eqb s "")
  | AList l => match l with [] => false | _ :: _ => true end
  | ADict d => match d with [] => false | _ :: _ => true end
  end.

(** An actor as the key of a dict.  Strings are the same key when they
    are equal.  A [nan] is equal to no float, itself included, and is the
    same key only as the same object. *)
Inductive hashable : Type :=
| HNone
| HNaN (obj : nat)
| HStr (s : string).

(** [hash(a)], with the key of [a]: a [list] and a [dict] are unhashable,
    [TypeError]. *)
Definition hash (a : actor) : M hashable :=
  match a with
  | ANone => Ok HNone
  | ANaN obj => Ok (HNaN obj)
  | AStr s => Ok (HStr s)
  | AList _ | ADict _ => Raise TypeError
  end.

(** The same key. *)
Definition hashable_eqb (k k' : hashable) : bool :=
  match k, k' with
  | HNone, HNone => true
  | HNaN obj, HNaN obj' => Nat.eqb obj obj'
  | HStr s, HStr s' => String.eqb s s'
  | _, _ => false
  end.

(** The missing cells of an event table are one object, [numpy.nan]. *)
Definition numpy_nan : actor := ANaN 0.

(** A row of the event table, by the columns the two loops read.  The type
    tag is only compared with string literals: a name, or nothing for
    whatever is no string.  A sub-object column is absent from the table
    or holds a value of any shape: a dict, or the [nan] of a row without
    the sub-object. *)
Record event : Type := Event {
  ev_type : option string;
  ev_player : actor;
  ev_team : actor;
  ev_shot : option value;
  ev_pass : option value;
  ev_duel : option value;
  ev_foul_committed : option value
}.

(** [event.get(column, {})]. *)
Definition event_get (column : option value) : value :=
  match column with
  | Some v => v
  | None => VDict []
  end.

(** [event_type == s]. *)
Definition type_is (event_type : option string) (s : string) : bool :=
  match event_type with
  | Some t => String.eqb t s
  | None => false
  end.

(** ** The accumulation dictionaries *)

Section Dict.

Variable V : Type.

Definition dict : Type := list (hashable * V).

(** [d[key]] when [key in d]. *)
Fixpoint lookup (key : hashable) (d : dict) : option V :=
  match d with
  | [] => None
  | (k, v) :: d' => if hashable_eqb key k then Some v else lookup key d'
  end.

(** [key in d]. *)
Definition mem (key : hashable) (d : dict) : bool :=
  match lookup key d with
  | Some _ => true
  | None => false
  end.

(** [d[key] = v] for a key already in [d]: the entry keeps its place. *)
Fixpoint store (key : hashable) (v : V) (d : dict) : dict :=
  match d with
  | [] => []
  | (k, w) :: d' =>
      if hashable_eqb key k then (k, v) :: d'
      else (k, w) :: store key v d'
  end.

(** [d[key] = v] for a new key: the entry goes last. *)
Definition add (key : hashable) (v : V) (d : dict) : dict :=
  (d ++ [(key, v)])%list.

(** [list(d.values())]. *)
Definition values (d : dict) : list V := map snd d.

Definition keys (d : dict) : list hashable := map fst d.

End Dict.

(** The response envelope of an endpoint. *)
Inductive response (A : Type) : Type :=
| Success (data : list A)
| Failure (error : exn).
Arguments Success {A} data.
Arguments Failure {A} error.

(** ** The loop of the two endpoints

    Both endpoints run the same loop: skip a row whose actor is false,
    create the entry of an actor seen for the first time, then count the
    row on the entry.  [Loop] states it once, over the key of a row, the
    new entry and the [if]/[elif] chain; [Player.step] and [Team.step]
    below are written out from the source and shown to be its
    instances. *)

Module Loop.
Section Loop.

Variable S : Type.
Variable key : event -> M (option hashable).
Variable new : hashable -> event -> S.
Variable count : event -> S -> M S.

Definition step (d : dict S) (e : event) : M (dict S) :=
match key e with
| Raise x => Raise x
| Ok None => Ok d
| Ok (Some k) =>
  let d := if mem k d then d else add k (new k e) d in
  match lookup k d with
  | Some st => st' <- count e st ;; Ok (store k st' d)
  | None => Ok d
  end
end.

Fixpoint scan (d : dict S) (events : list event) : M (dict S) :=
match events with
| [] => Ok d
| e :: events' => d' <- step d e ;; scan d' events'
end.

(** The entry a row of key [k] is counted on, and the dictionary once the
counted entry is stored. *)
Definition entry (d : dict S) (k : hashable) (e : event) : S :=
match lookup k d with
| Some st => st
| None => new k e
end.

Definition put (k : hashable) (v : S) (d : dict S) : dict S :=
if mem k d then store k v d else add k v d.

End Loop.
End Loop.

(** ** Player statistics: [get_player_stats] *)

Module Player.

(** The dictionary the endpoint keeps per player. *)
Record stats : Type := Stats {
  name : actor;
  team : actor;
  minutes_played : Z;
  goals : Z;
  assists : Z;
  shots : Z;
  shots_on_target : Z;
  passes_completed : Z;
  passes_attempted : Z;
  tackles : Z;
  interceptions : Z;
  duels_won : Z;
  duels_lost : Z;
  yellow_cards : Z;
  red_cards : Z;
  xg : float;
  xa : float
}.

(** The entry of a player seen for the first time. *)
Definition new (player : actor) (event : event) : stats :=
  {| name := player; team := ev_team event; minutes_played := 0;
     goals := 0; assists := 0; shots := 0; shots_on_target := 0;
     passes_completed := 0; passes_attempted := 0; tackles := 0;
     interceptions := 0; duels_won := 0; duels_lost := 0;
     yellow_cards := 0; red_cards := 0; xg := 0; xa := 0 |}.

(** Assignments to one key of the entry. *)
Definition set_goals (v : Z) (s : stats) : stats :=
  Stats (name s) (team s) (minutes_played s) v (assists s) (shots s)
    (shots_on_target s) (passes_completed s) (passes_attempted s)
    (tackles s) (interceptions s) (duels_won s) (duels_lost s)
    (yellow_cards s) (red_cards s) (xg s) (xa s).
Definition set_assists (v : Z) (s : stats) : stats :=
  Stats (name s) (team s) (minutes_played s) (goals s) v (shots s)
    (shots_on_target s) (passes_completed s) (passes_attempted s)
    (tackles s) (interceptions s) (duels_won s) (duels_lost s)
    (yellow_cards s) (red_cards s) (xg s) (xa s).
Definition set_shots (v : Z) (s : stats) : stats :=
  Stats (name s) (team s) (minutes_played s) (goals s) (assists s) v
    (shots_on_target s) (passes_completed s) (passes_attempted s)
    (tackles s) (interceptions s) (duels_won s) (duels_lost s)
    (yellow_cards s) (red_cards s) (xg s) (xa s).
Definition set_shots_on_target (v : Z) (s : stats) : stats :=
  Stats (name s) (team s) (minutes_played s) (goals s) (assists s)
    (shots s) v (passes_completed s) (passes_attempted s)
    (tackles s) (interceptions s) (duels_won s) (duels_lost s)
    (yellow_cards s) (red_cards s) (xg s) (xa s).
Definition set_passes_completed (v : Z) (s : stats) : stats :=
  Stats (name s) (team s) (minutes_played s) (goals s) (assists s)
    (shots s) (shots_on_target s) v (passes_attempted s)
    (tackles s) (interceptions s) (duels_won s) (duels_lost s)
    (yellow_cards s) (red_cards s) (xg s) (xa s).
Definition set_passes_attempted (v : Z) (s : stats) : stats :=
  Stats (name s) (team s) (minutes_played s) (goals s) (assists s)
    (shots s) (shots_on_target s) (passes_completed s) v
    (tackles s) (interceptions s) (duels_won s) (duels_lost s)
    (yellow_cards s) (red_cards s) (xg s) (xa s).
Definition set_tackles (v : Z) (s : stats) : stats :=
  Stats (name s) (team s) (minutes_played s) (goals s) (assists s)
    (shots s) (shots_on_target s) (passes_completed s)
    (passes_attempted s) v (interceptions s) (duels_won s) (duels_lost s)
    (yellow_cards s) (red_cards s) (xg s) (xa s).
Definition set_interceptions (v : Z) (s : stats) : stats :=
  Stats (name s) (team s) (minutes_played s) (goals s) (assists s)
    (shots s) (shots_on_target s) (passes_completed s)
    (passes_attempted s) (tackles s) v (duels_won s) (duels_lost s)
    (yellow_cards s) (red_cards s) (xg s) (xa s).
Definition set_duels_won (v : Z) (s : stats) : stats :=
  Stats (name s) (team s) (minutes_played s) (goals s) (assists s)
    (shots s) (shots_on_target s) (passes_completed s)
    (passes_attempted s) (tackles s) (interceptions s) v (duels_lost s)
    (yellow_cards s) (red_cards s) (xg s) (xa s).
Definition set_duels_lost (v : Z) (s : stats) : stats :=
  Stats (name s) (team s) (minutes_played s) (goals s) (assists s)
    (shots s) (shots_on_target s) (passes_completed s)
    (passes_attempted s) (tackles s) (interceptions s) (duels_won s) v
    (yellow_cards s) (red_cards s) (xg s) (xa s).
Definition set_yellow_cards (v : Z) (s : stats) : stats :=
  Stats (name s) (team s) (minutes_played s) (goals s) (assists s)
    (shots s) (shots_on_target s) (passes_completed s)
    (passes_attempted s) (tackles s) (interceptions s) (duels_won s)
    (duels_lost s) v (red_cards s) (xg s) (xa s).
Definition set_red_cards (v : Z) (s : stats) : stats :=
  Stats (name s) (team s) (minutes_played s) (goals s) (assists s)
    (shots s) (shots_on_target s) (passes_completed s)
    (passes_attempted s) (tackles s) (interceptions s) (duels_won s)
    (duels_lost s) (yellow_cards s) v (xg s) (xa s).
Definition set_xg (v : float) (s : stats) : stats :=
  Stats (name s) (team s) (minutes_played s) (goals s) (assists s)
    (shots s) (shots_on_target s) (passes_completed s)
    (passes_attempted s) (tackles s) (interceptions s) (duels_won s)
    (duels_lost s) (yellow_cards s) (red_cards s) v (xa s).
Definition set_xa (v : float) (s : stats) : stats :=
  Stats (name s) (team s) (minutes_played s) (goals s) (assists s)
    (shots s) (shots_on_target s) (passes_completed s)
    (passes_attempted s) (tackles s) (interceptions s) (duels_won s)
    (duels_lost s) (yellow_cards s) (red_cards s) (xg s) v.

(** The branch of a [Shot] event, on the entry [st] of its player. *)
Definition on_shot (event : event) (st : stats) : M stats :=
  let st := set_shots (shots st + 1) st in
  shot <- get_method (event_get (ev_shot event)) ;;
  outcome <- get_method (get shot "outcome" (VDict [])) ;;
  let st :=
    if in_strs (get outcome "name" VNone) ["Goal"; "Saved"; "Post"]
    then set_shots_on_target (shots_on_target st + 1) st
    else st in
  match find "statsbomb_xg" shot with
  | Some v => x <- float_add (xg st) v ;; Ok (set_xg x st)
  | None => Ok st
  end.

(** The branch of a [Pass] event. *)
Definition on_pass (event : event) (st : stats) : M stats :=
  pass_event <- get_method (event_get (ev_pass event)) ;;
  outcome <- get_method (get pass_event "outcome" (VDict [])) ;;
  let st :=
    if negb (eq_str (get outcome "name" VNone) "Incomplete")
    then set_passes_completed (passes_completed st + 1) st
    else st in
  let st := set_passes_attempted (passes_attempted st + 1) st in
  if eq_True (get pass_event "goal_assist" VNone) then
    let st := set_assists (assists st + 1) st in
    match find "statsbomb_xg" pass_event with
    | Some v => x <- float_add (xa st) v ;; Ok (set_xa x st)
    | None => Ok st
    end
  else Ok st.

(** The branch of a [Duel] event. *)
Definition on_duel (event : event) (st : stats) : M stats :=
  duel <- get_method (event_get (ev_duel event)) ;;
  outcome <- get_method (get duel "outcome" (VDict [])) ;;
  if eq_str (get outcome "name" VNone) "Won"
  then Ok (set_duels_won (duels_won st + 1) st)
  else Ok (set_duels_lost (duels_lost st + 1) st).

(** The branch of a [Foul Committed] event. *)
Definition on_foul (event : event) (st : stats) : M stats :=
  foul <- get_method (event_get (ev_foul_committed event)) ;;
  card <- get_method (get foul "card" (VDict [])) ;;
  if eq_str (get card "name" VNone) "Yellow Card"
  then Ok (set_yellow_cards (yellow_cards st + 1) st)
  else if eq_str (get card "name" VNone) "Red Card"
  then Ok (set_red_cards (red_cards st + 1) st)
  else Ok st.

(** The [if]/[elif] chain on the event type, on the entry of the
    player. *)
Definition count (event : event) (st : stats) : M stats :=
  let event_type := ev_type event in
  if type_is event_type "Shot" then on_shot event st
  else if type_is event_type "Pass" then on_pass event st
  else if type_is event_type "Goal" then Ok (set_goals (goals st + 1) st)
  else if type_is event_type "Tackle"
  then Ok (set_tackles (tackles st + 1) st)
  else if type_is event_type "Interception"
  then Ok (set_interceptions (interceptions st + 1) st)
  else if type_is event_type "Duel" then on_duel event st
  else if type_is event_type "Foul Committed" then on_foul event st
  else Ok st.

(** The key of the row in [player_stats]: none when [not player] skips
    the row, else the key [player] is hashed to by
    [player not in player_stats], the first use of it as a key. *)
Definition key (event : event) : M (option hashable) :=
  let player := ev_player event in
  if negb (truthy player) then Ok None
  else k <- hash player ;; Ok (Some k).

(** One turn of the loop over the rows. *)
Definition step (player_stats : dict stats) (event : event)
  : M (dict stats) :=
  let player := ev_player event in
  if negb (truthy player) then Ok player_stats
  else
    k <- hash player ;;
    let player_stats :=
      if mem k player_stats then player_stats
      else add k (new player event) player_stats in
    match lookup k player_stats with
    | Some st =>
        st' <- count event st ;; Ok (store k st' player_stats)
    | None => Ok player_stats
    end.

(** The loop: the dictionary after the rows [events], from
    [player_stats]. *)
Fixpoint scan (player_stats : dict stats) (events : list event)
  : M (dict stats) :=
  match events with
  | [] => Ok player_stats
  | event :: events' =>
      player_stats' <- step player_stats event ;;
      scan player_stats' events'
  end.

(** The endpoint, from the rows of the match: an exception of the loop is
    caught and reported in the envelope. *)
Definition get_player_stats (events : list event) : response stats :=
  match scan [] events with
  | Ok player_stats => Success (values player_stats)
  | Raise e => Failure e
  end.

End Player.

(** ** Team statistics: [get_team_stats] *)

Module Team.

(** The dictionary the endpoint keeps per team. *)
Record stats : Type := Stats {
  team : actor;
  goals : Z;
  shots : Z;
  shots_on_target : Z;
  passes_completed : Z;
  passes_attempted : Z;
  tackles : Z;
  interceptions : Z;
  duels_won : Z;
  duels_lost : Z;
  corners : Z;
  fouls : Z;
  yellow_cards : Z;
  red_cards : Z;
  xg : float
}.

(** The entry of a team seen for the first time. *)
Definition new (team : actor) : stats :=
  {| team := team; goals := 0; shots := 0; shots_on_target := 0;
     passes_completed := 0; passes_attempted := 0; tackles := 0;
     interceptions := 0; duels_won := 0; duels_lost := 0; corners := 0;
     fouls := 0; yellow_cards := 0; red_cards := 0; xg := 0 |}.

(** Assignments to one key of the entry. *)
Definition set_goals (v : Z) (s : stats) : stats :=
  Stats (team s) v (shots s) (shots_on_target s) (passes_completed s)
    (passes_attempted s) (tackles s) (interceptions s) (duels_won s)
    (duels_lost s) (corners s) (fouls s) (yellow_cards s) (red_cards s)
    (xg s).
Definition set_shots (v : Z) (s : stats) : stats :=
  Stats (team s) (goals s) v (shots_on_target s) (passes_completed s)
    (passes_attempted s) (tackles s) (interceptions s) (duels_won s)
    (duels_lost s) (corners s) (fouls s) (yellow_cards s) (red_cards s)
    (xg s).
Definition set_shots_on_target (v : Z) (s : stats) : stats :=
  Stats (team s) (goals s) (shots s) v (passes_completed s)
    (passes_attempted s) (tackles s) (interceptions s) (duels_won s)
    (duels_lost s) (corners s) (fouls s) (yellow_cards s) (red_cards s)
    (xg s).
Definition set_passes_completed (v : Z) (s : stats) : stats :=
  Stats (team s) (goals s) (shots s) (shots_on_target s) v
    (passes_attempted s) (tackles s) (interceptions s) (duels_won s)
    (duels_lost s) (corners s) (fouls s) (yellow_cards s) (red_cards s)
    (xg s).
Definition set_passes_attempted (v : Z) (s : stats) : stats :=
  Stats (team s) (goals s) (shots s) (shots_on_target s)
    (passes_completed s) v (tackles s) (interceptions s) (duels_won s)
    (duels_lost s) (corners s) (fouls s) (yellow_cards s) (red_cards s)
    (xg s).
Definition set_tackles (v : Z) (s : stats) : stats :=
  Stats (team s) (goals s) (shots s) (shots_on_target s)
    (passes_completed s) (passes_attempted s) v (interceptions s)
    (duels_won s) (duels_lost s) (corners s) (fouls s) (yellow_cards s)
    (red_cards s) (xg s).
Definition set_interceptions (v : Z) (s : stats) : stats :=
  Stats (team s) (goals s) (shots s) (shots_on_target s)
    (passes_completed s) (passes_attempted s) (tackles s) v (duels_won s)
    (duels_lost s) (corners s) (fouls s) (yellow_cards s) (red_cards s)
    (xg s).
Definition set_duels_won (v : Z) (s : stats) : stats :=
  Stats (team s) (goals s) (shots s) (shots_on_target s)
    (passes_completed s) (passes_attempted s) (tackles s)
    (interceptions s) v (duels_lost s) (corners s) (fouls s)
    (yellow_cards s) (red_cards s) (xg s).
Definition set_duels_lost (v : Z) (s : stats) : stats :=
  Stats (team s) (goals s) (shots s) (shots_on_target s)
    (passes_completed s) (passes_attempted s) (tackles s)
    (interceptions s) (duels_won s) v (corners s) (fouls s)
    (yellow_cards s) (red_cards s) (xg s).
Definition set_corners (v : Z) (s : stats) : stats :=
  Stats (team s) (goals s) (shots s) (shots_on_target s)
    (passes_completed s) (passes_attempted s) (tackles s)
    (interceptions s) (duels_won s) (duels_lost s) v (fouls s)
    (yellow_cards s) (red_cards s) (xg s).
Definition set_fouls (v : Z) (s : stats) : stats :=
  Stats (team s) (goals s) (shots s) (shots_on_target s)
    (passes_completed s) (passes_attempted s) (tackles s)
    (interceptions s) (duels_won s) (duels_lost s) (corners s) v
    (yellow_cards s) (red_cards s) (xg s).
Definition set_yellow_cards (v : Z) (s : stats) : stats :=
  Stats (team s) (goals s) (shots s) (shots_on_target s)
    (passes_completed s) (passes_attempted s) (tackles s)
    (interceptions s) (duels_won s) (duels_lost s) (corners s) (fouls s) v
    (red_cards s) (xg s).
Definition set_red_cards (v : Z) (s : stats) : stats :=
  Stats (team s) (goals s) (shots s) (shots_on_target s)
    (passes_completed s) (passes_attempted s) (tackles s)
    (interceptions s) (duels_won s) (duels_lost s) (corners s) (fouls s)
    (yellow_cards s) v (xg s).
Definition set_xg (v : float) (s : stats) : stats :=
  Stats (team s) (goals s) (shots s) (shots_on_target s)
    (passes_completed s) (passes_attempted s) (tackles s)
    (interceptions s) (duels_won s) (duels_lost s) (corners s) (fouls s)
    (yellow_cards s) (red_cards s) v.

(** The branch of a [Shot] event, on the entry [st] of its team. *)
Definition on_shot (event : event) (st : stats) : M stats :=
  let st := set_shots (shots st + 1) st in
  shot <- get_method (event_get (ev_shot event)) ;;
  outcome <- get_method (get shot "outcome" (VDict [])) ;;
  let st :=
    if in_strs (get outcome "name" VNone) ["Goal"; "Saved"; "Post"]
    then set_shots_on_target (shots_on_target st + 1) st
    else st in
  match find "statsbomb_xg" shot with
  | Some v => x <- float_add (xg st) v ;; Ok (set_xg x st)
  | None => Ok st
  end.

(** The branch of a [Pass] event. *)
Definition on_pass (event : event) (st : stats) : M stats :=
  pass_event <- get_method (event_get (ev_pass event)) ;;
  outcome <- get_method (get pass_event "outcome" (VDict [])) ;;
  let st :=
    if negb (eq_str (get outcome "name" VNone) "Incomplete")
    then set_passes_completed (passes_completed st + 1) st
    else st in
  Ok (set_passes_attempted (passes_attempted st + 1) st).

(** The branch of a [Duel] event. *)
Definition on_duel (event : event) (st : stats) : M stats :=
  duel <- get_method (event_get (ev_duel event)) ;;
  outcome <- get_method (get duel "outcome" (VDict [])) ;;
  if eq_str (get outcome "name" VNone) "Won"
  then Ok (set_duels_won (duels_won st + 1) st)
  else Ok (set_duels_lost (duels_lost st + 1) st).

(** The branch of a [Foul Committed] event. *)
Definition on_foul (event : event) (st : stats) : M stats :=
  let st := set_fouls (fouls st + 1) st in
  foul <- get_method (event_get (ev_foul_committed event)) ;;
  card <- get_method (get foul "card" (VDict [])) ;;
  if eq_str (get card "name" VNone) "Yellow Card"
  then Ok (set_yellow_cards (yellow_cards st + 1) st)
  else if eq_str (get card "name" VNone) "Red Card"
  then Ok (set_red_cards (red_cards st + 1) st)
  else Ok st.

(** The [if]/[elif] chain on the event type, on the entry of the team. *)
Definition count (event : event) (st : stats) : M stats :=
  let event_type := ev_type event in
  if type_is event_type "Shot" then on_shot event st
  else if type_is event_type "Pass" then on_pass event st
  else if type_is event_type "Goal" then Ok (set_goals (goals st + 1) st)
  else if type_is event_type "Tackle"
  then Ok (set_tackles (tackles st + 1) st)
  else if type_is event_type "Interception"
  then Ok (set_interceptions (interceptions st + 1) st)
  else if type_is event_type "Duel" then on_duel event st
  else if type_is event_type "Corner"
  then Ok (set_corners (corners st + 1) st)
  else if type_is event_type "Foul Committed" then on_foul event st
  else Ok st.

(** The key of the row in [team_stats]: none when [not team] skips the
    row, else the key [team] is hashed to by [team not in team_stats]. *)
Definition key (event : event) : M (option hashable) :=
  let team := ev_team event in
  if negb (truthy team) then Ok None
  else k <- hash team ;; Ok (Some k).

(** One turn of the loop over the rows. *)
Definition step (team_stats : dict stats) (event : event)
  : M (dict stats) :=
  let team := ev_team event in
  if negb (truthy team) then Ok team_stats
  else
    k <- hash team ;;
    let team_stats :=
      if mem k team_stats then team_stats
      else add k (new team) team_stats in
    match lookup k team_stats with
    | Some st =>
        st' <- count event st ;; Ok (store k st' team_stats)
    | None => Ok team_stats
    end.

(** The loop: the dictionary after the rows [events], from [team_stats]. *)
Fixpoint scan (team_stats : dict stats) (events : list event)
  : M (dict stats) :=
  match events with
  | [] => Ok team_stats
  | event :: events' =>
      team_stats' <- step team_stats event ;;
      scan team_stats' events'
  end.

(** The endpoint, from the rows of the match. *)
Definition get_team_stats (events : list event) : response stats :=
  match scan [] events with
  | Ok team_stats => Success (values team_stats)
  | Raise e => Failure e
  end.

End Team.

(** * Vocabulary of the properties *)

Unset Implicit Arguments.

(** ** The loop, its invariants and its instances *)

(** [Player.new] and [Team.new] as functions of the key and of the row, as
    the loop takes the new entry. *)
Definition player_new (_ : hashable) (e : event) : Player.stats :=
  Player.new (ev_player e) e.

Definition team_new (_ : hashable) (e : event) : Team.stats :=
  Team.new (ev_team e).

(** Every entry of a dictionary, with its key, satisfies [P]. *)
Definition all_entries {S : Type} (P : hashable -> S -> Prop) (d : dict S)
  : Prop :=
  forall k st, lookup k d = Some st -> P k st.

(** The rows a loop passes, given the rows [ok] its chain counts without
    raising: those it skips and those it counts. *)
Definition accepts (key : event -> M (option hashable))
    (ok : event -> bool) (e : event) : bool :=
  match key e with
  | Ok None => true
  | Ok (Some _) => ok e
  | Raise _ => false
  end.

(** The loop of an endpoint over the rows ends with the dictionary [d],
    whose entries the endpoint answers. *)
Definition player_answers (events : list event) (d : dict Player.stats)
  : Prop :=
  Player.scan [] events = Ok d /\
  Player.get_player_stats events = Success (values d).

Definition team_answers (events : list event) (d : dict Team.stats)
  : Prop :=
  Team.scan [] events = Ok d /\
  Team.get_team_stats events = Success (values d).

(** Two dictionaries with the same keys and, under each key, entries
    related by [E]. *)
Definition same_entries {S : Type} (E : S -> S -> Prop) (d d' : dict S)
  : Prop :=
  forall k,
    match lookup k d, lookup k d' with
    | Some st, Some st' => E st st'
    | None, None => True
    | _, _ => False
    end.

(** ** Nested lookups *)

(** The dict of a sub-object and of its field, [{}] for what is missing. *)
Definition sub_of (column : option value) : mapping :=
  match column with
  | Some (VDict sub) => sub
  | _ => []
  end.

Definition inner_of (column : option value) (field : string) : mapping :=
  match find field (sub_of column) with
  | Some (VDict inner) => inner
  | _ => []
  end.

(** ** Branches of the chains *)

(** The types the [if]/[elif] chain of each endpoint has a branch for. *)
Definition player_rules : list string :=
  ["Shot"; "Pass"; "Goal"; "Tackle"; "Interception"; "Duel";
   "Foul Committed"].

Definition team_rules : list string :=
  ["Shot"; "Pass"; "Goal"; "Tackle"; "Interception"; "Duel"; "Corner";
   "Foul Committed"].

Definition no_rule (rules : list string) (e : event) : Prop :=
  forall s, In s rules -> ev_type e <> Some s.

(** The pass rule in the words of the specification: one more pass
    attempted, and one more completed unless the name of the outcome is
    "Incomplete". *)
Definition player_pass_counted (nm : value) (st : Player.stats)
  : Player.stats :=
  let st :=
    if eq_str nm "Incomplete" then st
    else Player.set_passes_completed (Player.passes_completed st + 1) st in
  Player.set_passes_attempted (Player.passes_attempted st + 1) st.

Definition team_pass_counted (nm : value) (st : Team.stats) : Team.stats :=
  let st :=
    if eq_str nm "Incomplete" then st
    else Team.set_passes_completed (Team.passes_completed st + 1) st in
  Team.set_passes_attempted (Team.passes_attempted st + 1) st.

(** ** Rows the loop bodies accept *)

(** The sub-object [column] is missing or a dict, and its [field] is
    missing or a dict: the lookups of the name of [field] resolve. *)
Definition shaped (column : option value) (field : string) : bool :=
  match column with
  | None => true
  | Some (VDict sub) =>
      match find field sub with
      | None | Some (VDict _) => true
      | Some _ => false
      end
  | Some _ => false
  end.

(** A value a float can be added to. *)
Definition number (v : value) : bool :=
  match v with
  | VFloat _ | VBool _ => true
  | VInt z =>
      match binary_normalize prec emax z 0 false with
      | S754_infinity _ => false
      | _ => true
      end
  | _ => false
  end.

(** The [statsbomb_xg] of the sub-object, when there is one, is a number. *)
Definition xg_number (column : option value) : bool :=
  match column with
  | Some (VDict sub) =>
      match find "statsbomb_xg" sub with
      | Some v => number v
      | None => true
      end
  | _ => true
  end.

(** The pass sub-object marks a goal assist. *)
Definition goal_assist (column : option value) : bool :=
  match column with
  | Some (VDict sub) => eq_True (get sub "goal_assist" VNone)
  | _ => false
  end.

(** The rows each chain counts without raising. *)
Definition player_shaped (e : event) : bool :=
  if type_is (ev_type e) "Shot"
  then shaped (ev_shot e) "outcome" && xg_number (ev_shot e)
  else if type_is (ev_type e) "Pass"
  then shaped (ev_pass e) "outcome" &&
       (negb (goal_assist (ev_pass e)) || xg_number (ev_pass e))
  else if type_is (ev_type e) "Duel" then shaped (ev_duel e) "outcome"
  else if type_is (ev_type e) "Foul Committed"
  then shaped (ev_foul_committed e) "card"
  else true.

Definition team_shaped (e : event) : bool :=
  if type_is (ev_type e) "Shot"
  then shaped (ev_shot e) "outcome" && xg_number (ev_shot e)
  else if type_is (ev_type e) "Pass" then shaped (ev_pass e) "outcome"
  else if type_is (ev_type e) "Duel" then shaped (ev_duel e) "outcome"
  else if type_is (ev_type e) "Foul Committed"
  then shaped (ev_foul_committed e) "card"
  else true.

(** The rows each loop passes: those it skips and those it counts. *)
Definition player_accepts : event -> bool :=
  accepts Player.key player_shaped.

Definition team_accepts : event -> bool := accepts Team.key team_shaped.

(** ** Relations between entries *)

(** The name and the counters of two player entries agree. *)
Definition player_same_counts (a b : Player.stats) : Prop :=
  Player.name a = Player.name b /\
  Player.minutes_played a = Player.minutes_played b /\
  Player.goals a = Player.goals b /\
  Player.assists a = Player.assists b /\
  Player.shots a = Player.shots b /\
  Player.shots_on_target a = Player.shots_on_target b /\
  Player.passes_completed a = Player.passes_completed b /\
  Player.passes_attempted a = Player.passes_attempted b /\
  Player.tackles a = Player.tackles b /\
  Player.interceptions a = Player.interceptions b /\
  Player.duels_won a = Player.duels_won b /\
  Player.duels_lost a = Player.duels_lost b /\
  Player.yellow_cards a = Player.yellow_cards b /\
  Player.red_cards a = Player.red_cards b.

(** The name and the counters of two team entries agree. *)
Definition team_same_counts (a b : Team.stats) : Prop :=
  Team.team a = Team.team b /\
  Team.goals a = Team.goals b /\
  Team.shots a = Team.shots b /\
  Team.shots_on_target a = Team.shots_on_target b /\
  Team.passes_completed a = Team.passes_completed b /\
  Team.passes_attempted a = Team.passes_attempted b /\
  Team.tackles a = Team.tackles b /\
  Team.interceptions a = Team.interceptions b /\
  Team.duels_won a = Team.duels_won b /\
  Team.duels_lost a = Team.duels_lost b /\
  Team.corners a = Team.corners b /\
  Team.fouls a = Team.fouls b /\
  Team.yellow_cards a = Team.yellow_cards b /\
  Team.red_cards a = Team.red_cards b.

(** The rows of [events] agree on the team of each player: the team of a
    row of player [k] is [team_of k]. *)
Definition teams_agree (team_of : hashable -> actor)
    (events : list event) : Prop :=
  Forall (fun e => forall k, Player.key e = Ok (Some k) ->
                             ev_team e = team_of k)
    events.

Definition player_same_identity (a b : Player.stats) : Prop :=
  player_same_counts a b /\ Player.team a = Player.team b.

Definition player_counters_nonneg (st : Player.stats) : Prop :=
  0 <= Player.minutes_played st /\ 0 <= Player.goals st /\
  0 <= Player.assists st /\ 0 <= Player.shots st /\
  0 <= Player.shots_on_target st /\ 0 <= Player.passes_completed st /\
  0 <= Player.passes_attempted st /\ 0 <= Player.tackles st /\
  0 <= Player.interceptions st /\ 0 <= Player.duels_won st /\
  0 <= Player.duels_lost st /\ 0 <= Player.yellow_cards st /\
  0 <= Player.red_cards st.

Definition player_counters_le (a b : Player.stats) : Prop :=
  Player.minutes_played a <= Player.minutes_played b /\
  Player.goals a <= Player.goals b /\
  Player.assists a <= Player.assists b /\
  Player.shots a <= Player.shots b /\
  Player.shots_on_target a <= Player.shots_on_target b /\
  Player.passes_completed a <= Player.passes_completed b /\
  Player.passes_attempted a <= Player.passes_attempted b /\
  Player.tackles a <= Player.tackles b /\
  Player.interceptions a <= Player.interceptions b /\
  Player.duels_won a <= Player.duels_won b /\
  Player.duels_lost a <= Player.duels_lost b /\
  Player.yellow_cards a <= Player.yellow_cards b /\
  Player.red_cards a <= Player.red_cards b.

Definition team_counters_nonneg (st : Team.stats) : Prop :=
  0 <= Team.goals st /\ 0 <= Team.shots st /\
  0 <= Team.shots_on_target st /\ 0 <= Team.passes_completed st /\
  0 <= Team.passes_attempted st /\ 0 <= Team.tackles st /\
  0 <= Team.interceptions st /\ 0 <= Team.duels_won st /\
  0 <= Team.duels_lost st /\ 0 <= Team.corners st /\ 0 <= Team.fouls st /\
  0 <= Team.yellow_cards st /\ 0 <= Team.red_cards st.

Definition team_counters_le (a b : Team.stats) : Prop :=
  Team.goals a <= Team.goals b /\ Team.shots a <= Team.shots b /\
  Team.shots_on_target a <= Team.shots_on_target b /\
  Team.passes_completed a <= Team.passes_completed b /\
  Team.passes_attempted a <= Team.passes_attempted b /\
  Team.tackles a <= Team.tackles b /\
  Team.interceptions a <= Team.interceptions b /\
  Team.duels_won a <= Team.duels_won b /\
  Team.duels_lost a <= Team.duels_lost b /\
  Team.corners a <= Team.corners b /\ Team.fouls a <= Team.fouls b /\
  Team.yellow_cards a <= Team.yellow_cards b /\
  Team.red_cards a <= Team.red_cards b.

(** The sums of an entry are non-negative (and so are numbers). *)
Definition player_sums_nonneg (st : Player.stats) : Prop :=
  (0 <=? Player.xg st)%float = true /\ (0 <=? Player.xa st)%float = true.

Definition player_sums_le (a b : Player.stats) : Prop :=
  (Player.xg a <=? Player.xg b)%float = true /\
  (Player.xa a <=? Player.xa b)%float = true.

Definition team_sums_nonneg (st : Team.stats) : Prop :=
  (0 <=? Team.xg st)%float = true.

Definition team_sums_le (a b : Team.stats) : Prop :=
  (Team.xg a <=? Team.xg b)%float = true.

(** Zeros, positive numbers and the positive infinity. *)
Definition nonneg_sf (x : spec_float) : bool :=
  match x with
  | S754_zero _ | S754_infinity false | S754_finite false _ _ => true
  | _ => false
  end.

(** The [statsbomb_xg] of the sub-object, when there is one, is a number
    not below zero: a float, an integer or a boolean. *)
Definition nonneg_xg (column : option value) : bool :=
  match column with
  | Some (VDict sub) =>
      match find "statsbomb_xg" sub with
      | Some (VFloat f) => (0 <=? f)%float
      | Some (VInt z) => 0 <=? z
      | Some (VBool _) => true
      | Some _ => false
      | None => true
      end
  | _ => true
  end.

(** The rows whose value added to a sum, if any, is non-negative. *)
Definition player_adds_nonneg (e : event) : bool :=
  if type_is (ev_type e) "Shot" then nonneg_xg (ev_shot e)
  else if type_is (ev_type e) "Pass" then nonneg_xg (ev_pass e)
  else true.

Definition team_adds_nonneg (e : event) : bool :=
  if type_is (ev_type e) "Shot" then nonneg_xg (ev_shot e) else true.

(** ** Example rows *)

#[local] Set Warnings "-inexact-float".

Definition example_events : list event :=
  [ Event (Some "Pass") (AStr "A") (AStr "X") None (Some (VDict [])) None None;
    Event (Some "Shot") (AStr "A") (AStr "X")
      (Some (VDict [("outcome", VDict [("name", VStr "Goal")]);
                    ("statsbomb_xg", VFloat 0.73)]))
      None None None;
    Event (Some "Goal") (AStr "A") (AStr "X") None None None None ].

(** A row of a type without branch: a substitution. *)
Definition substitution_event : event :=
  Event (Some "Substitution") (AStr "A") (AStr "X") None None None None.

(** Two rows of an actor without name around a pass of A for X. *)
Definition nameless_events : list event :=
  [ Event (Some "Pass") (AStr "") (AStr "") None None None None;
    Event (Some "Pass") (AStr "A") (AStr "X") None None None None;
    Event (Some "Shot") ANone ANone None None None None ].

(** A line-up row of team X, which has no player: the cell of the row is
    [nan].  A pass of A for X, a shot of X without player, and a row
    without player and without team. *)
Definition lineup_of_x : event :=
  Event (Some "Starting XI") numpy_nan (AStr "X") None None None None.

Definition pass_of_a : event :=
  Event (Some "Pass") (AStr "A") (AStr "X") None None None None.

Definition shot_of_nobody : event :=
  Event (Some "Shot") numpy_nan (AStr "X") None None None None.

Definition row_of_nobody : event :=
  Event (Some "Camera On") numpy_nan numpy_nan None None None None.

(** A duel in a table without duel column, a duel whose row has no duel
    sub-object in a table with the column (the cell is [nan]), and
    likewise a pass without pass sub-object. *)
Definition duel_no_column : event :=
  Event (Some "Duel") (AStr "A") (AStr "X") None None None None.

Definition duel_bare : event :=
  Event (Some "Duel") (AStr "A") (AStr "X") None None (Some (VFloat nan))
    None.

Definition pass_bare : event :=
  Event (Some "Pass") (AStr "A") (AStr "X") None (Some (VFloat nan)) None
    None.

(** A duel without outcome, and a duel won. *)
Definition duel_no_outcome : event :=
  Event (Some "Duel") (AStr "A") (AStr "X") None None (Some (VDict [])) None.

Definition duel_won : event :=
  Event (Some "Duel") (AStr "A") (AStr "X") None None
    (Some (VDict [("outcome", VDict [("name", VStr "Won")])])) None.

(** An incomplete pass, and an assisting pass of expected-goal value
    0.25. *)
Definition pass_incomplete : event :=
  Event (Some "Pass") (AStr "A") (AStr "X") None
    (Some (VDict [("outcome", VDict [("name", VStr "Incomplete")])]))
    None None.

Definition pass_assist : event :=
  Event (Some "Pass") (AStr "A") (AStr "X") None
    (Some (VDict [("goal_assist", VBool true);
                  ("statsbomb_xg", VFloat 0.25)]))
    None None.

(** An assisting pass whose [goal_assist] is the number 1. *)
Definition pass_assist_1 : event :=
  Event (Some "Pass") (AStr "A") (AStr "X") None
    (Some (VDict [("goal_assist", VInt 1);
                  ("statsbomb_xg", VFloat 0.25)]))
    None None.

(** A shot whose sub-object is [None], and a shot whose outcome is the
    plain string "Goal". *)
Definition null_shot : event :=
  Event (Some "Shot") (AStr "A") (AStr "X") (Some VNone) None None None.

Definition string_outcome_shot : event :=
  Event (Some "Shot") (AStr "A") (AStr "X")
    (Some (VDict [("outcome", VStr "Goal"); ("statsbomb_xg", VFloat 0.5)]))
    None None None.

(** A shot in a table without shot column, and a shot whose row has no
    shot sub-object in a table with the column: the cell is [nan]. *)
Definition shot_no_column : event :=
  Event (Some "Shot") (AStr "A") (AStr "X") None None None None.

Definition shot_bare : event :=
  Event (Some "Shot") (AStr "A") (AStr "X") (Some (VFloat nan)) None None
    None.

(** A shot of expected-goal value [x] of player A of team X. *)
Definition shot_of (x : float) : event :=
  Event (Some "Shot") (AStr "A") (AStr "X")
    (Some (VDict [("statsbomb_xg", VFloat x)])) None None None.

(** Three shots of A in two orders, and two passes of A of which only one
    names the team. *)
Definition shots_up : list event := [shot_of 0.1; shot_of 0.2; shot_of 0.3].
Definition shots_down : list event := [shot_of 0.3; shot_of 0.2; shot_of 0.1].

Definition team_late : list event :=
  [ Event (Some "Pass") (AStr "A") numpy_nan None None None None;
    Event (Some "Pass") (AStr "A") (AStr "X") None None None None ].

Definition team_early : list event :=
  [ Event (Some "Pass") (AStr "A") (AStr "X") None None None None;
    Event (Some "Pass") (AStr "A") numpy_nan None None None None ].

(** * The other functions of the repository *)

(** ** Ratings of a player: [calculate_player_stats]
    ([update_player_stats.py]) *)

Module Ratings.

(** A row of [match_player_stats] as [get_player_matches] selects it: the
    rating column holds a float or [NULL]. *)
Record match_stat : Type := MatchStat {
  match_id : Z;
  rating : option float
}.

(** The dictionary [calculate_player_stats] returns. *)
Record stats : Type := Stats {
  best_rating : float;
  worst_rating : float;
  yellow_cards : Z;
  red_cards : Z
}.

(** [match['rating'] is not None and match['rating'] > 0]. *)
Definition rated (m : match_stat) : bool :=
  match rating m with
  | Some r => (0 <? r)%float
  | None => false
  end.

(** [[match['rating'] for match in matches if ...]]. *)
Fixpoint ratings_of (matches : list match_stat) : list float :=
  match matches with
  | [] => []
  | m :: matches' =>
      match rating m with
      | Some r =>
          if (0 <? r)%float then r :: ratings_of matches'
          else ratings_of matches'
      | None => ratings_of matches'
      end
  end.

(** [max] of a non-empty list: the first item is kept until a later one is
    greater ([item > maxitem]). *)
Definition py_max (first : float) (rest : list float) : float :=
  fold_left (fun maxitem item => if (maxitem <? item)%float then item
                                 else maxitem) rest first.

(** [min] of a non-empty list: the first item is kept until a later one is
    less ([item < minitem]). *)
Definition py_min (first : float) (rest : list float) : float :=
  fold_left (fun minitem item => if (item <? minitem)%float then item
                                 else minitem) rest first.

(** The function, from the rows [get_player_matches] returns. *)
Definition calculate_player_stats (matches : list match_stat) : stats :=
  match matches with
  | [] =>
      {| best_rating := 0; worst_rating := 0; yellow_cards := 0;
         red_cards := 0 |}
  | _ =>
      let ratings := ratings_of matches in
      let best_rating :=
        match ratings with
        | first :: rest => py_max first rest
        | [] => 0%float
        end in
      let worst_rating :=
        match ratings with
        | first :: rest => py_min first rest
        | [] => 0%float
        end in
      let yellow_cards := 0 in
      let red_cards := 0 in
      {| best_rating := best_rating; worst_rating := worst_rating;
         yellow_cards := yellow_cards; red_cards := red_cards |}
  end.

End Ratings.

(** Positive numbers and the positive infinity. *)
Definition pos_sf (x : spec_float) : bool :=
  match x with
  | S754_infinity false | S754_finite false _ _ => true
  | _ => false
  end.

(** The greatest and the least item of a list of numbers: an item that no
    item exceeds, or that exceeds none. *)
Definition greatest (m : float) (l : list float) : Prop :=
  In m l /\ forall x, In x l -> (x <=? m)%float = true.

Definition least (m : float) (l : list float) : Prop :=
  In m l /\ forall x, In x l -> (m <=? x)%float = true.

(** Five matches: rated 6.5 and 8.25, unrated, rated zero and rated 7. *)
Definition rated_matches : list Ratings.match_stat :=
  [ Ratings.MatchStat 1 (Some 6.5%float); Ratings.MatchStat 2 (Some 8.25%float);
    Ratings.MatchStat 3 None; Ratings.MatchStat 4 (Some 0%float);
    Ratings.MatchStat 5 (Some 7%float) ].

(** ** The updater: [StatsBombUpdater] ([update_teams_db.py]) *)

Module Updater.

(** [Series.unique()]: the values in order of first appearance, [seen]
    being the values met so far. *)
Fixpoint unique_from (seen : list Z) (l : list Z) : list Z :=
  match l with
  | [] => []
  | x :: l' =>
      if existsb (Z.eqb x) seen then unique_from seen l'
      else x :: unique_from (x :: seen) l'
  end.

Definition unique (l : list Z) : list Z := unique_from [] l.

(** [sorted(l, reverse=True)]: the stable sort in descending order, here by
    insertion from the right, an item going before the items that are not
    greater. *)
Fixpoint insert_desc (x : Z) (l : list Z) : list Z :=
  match l with
  | [] => [x]
  | y :: l' => if x <? y then y :: insert_desc x l' else x :: l
  end.

Definition sorted_reverse (l : list Z) : list Z := fold_right insert_desc [] l.

(** [l[:n]]: the first [n] items, or all but the last [-n] when [n] is
    negative. *)
Definition slice_to (l : list Z) (n : Z) : list Z :=
  if 0 <=? n then firstn (Z.to_nat n) l
  else firstn (List.length l - Z.to_nat (- n)) l.

(** [get_recent_seasons], from the [season_id] column of the frame
    [sb.matches] answers; [None] when the call or the column lookup raises,
    which the [except] branch answers with the empty list. *)
Definition get_recent_seasons (season_id : option (list Z))
    (num_seasons : Z) : list Z :=
  match season_id with
  | Some column =>
      let seasons := unique column in
      let recent_seasons := slice_to (sorted_reverse seasons) num_seasons in
      recent_seasons
  | None => []
  end.

(** The names an instance of [StatsBombUpdater] resolves: the attributes
    [__init__] sets and the methods of the class, which has no base class
    and no [__getattr__]. *)
Definition attributes : list string :=
  ["supabase_url"; "supabase_key"; "comp_ids"; "supabase"; "__init__";
   "get_last_update_date"; "get_competitions"; "get_recent_seasons";
   "get_all_matches"; "get_match_events"; "get_match_lineups";
   "upsert_teams"; "upsert_matches"; "upsert_competition_standings";
   "upsert_competitions"; "upsert_match_player_stats"; "upsert_players";
   "process_match_data"; "update_database"].

(** [self.name]: [AttributeError] for a name the instance does not have. *)
Definition getattr (name : string) : M unit :=
  if existsb (String.eqb name) attributes then Ok tt
  else Raise AttributeError.

(** [self.comp_ids], as [__init__] leaves it. *)
Definition comp_ids : list Z := [43; 16; 9; 11; 7; 2; 12; 68; 35].

Section UpdateDatabase.

(** [update_database] calls [self.get_matches_for_teams] with
    [self.key_teams], which the class does not define: what the call would
    answer, and whether a match it answers is later than the last update,
    are left open. *)
Variable match_row : Type.
Variable get_matches_for_teams : Z -> Z -> list match_row.
Variable newer : match_row -> bool.

(** The competitions retrieved (the [competition_id] column of the frame,
    empty when none was retrieved) and, by competition, the [season_id]
    column [get_recent_seasons] reads. *)
Variable competitions : list Z.
Variable seasons : Z -> option (list Z).

(** The loops answer the matches handed to [process_match_data] so far and
    the exception that ended them, if any. *)
Fixpoint seasons_loop (comp_id : Z) (recent_seasons : list Z)
    (processed : list match_row) : list match_row * option exn :=
  match recent_seasons with
  | [] => (processed, None)
  | season_id :: recent_seasons' =>
      match getattr "get_matches_for_teams" with
      | Raise e => (processed, Some e)
      | Ok _ =>
          match getattr "key_teams" with
          | Raise e => (processed, Some e)
          | Ok _ =>
              let matches := get_matches_for_teams comp_id season_id in
              seasons_loop comp_id recent_seasons'
                (processed ++ filter newer matches)
          end
      end
  end.

Fixpoint competitions_loop (comp_ids : list Z) (processed : list match_row)
  : list match_row * option exn :=
  match comp_ids with
  | [] => (processed, None)
  | comp_id :: comp_ids' =>
      if negb (existsb (Z.eqb comp_id) competitions)
      then competitions_loop comp_ids' processed
      else
        let recent_seasons := get_recent_seasons (seasons comp_id) 2 in
        match seasons_loop comp_id recent_seasons processed with
        | (processed', None) => competitions_loop comp_ids' processed'
        | (processed', Some e) => (processed', Some e)
        end
  end.

Definition update_database : list match_row * option exn :=
  match competitions with
  | [] => ([], None)
  | _ => competitions_loop comp_ids []
  end.

End UpdateDatabase.

End Updater.

(** The [season_id] column of six matches of four seasons. *)
Definition season_column : list Z := [90; 42; 90; 106; 42; 27].

(** ** The events of a match: [get_match_events] ([main.py]) *)

Module Events.

(** The dictionary built for a row: [event.get] of each column, a missing
    sub-object being [{}]. *)
Definition processed_event (event : mapping) : mapping :=
  [ ("id", get event "id" VNone);
    ("type", get event "type" VNone);
    ("team", get event "team" VNone);
    ("player", get event "player" VNone);
    ("minute", get event "minute" VNone);
    ("second", get event "second" VNone);
    ("location", get event "location" VNone);
    ("shot", get event "shot" (VDict []));
    ("pass", get event "pass" (VDict []));
    ("carry", get event "carry" (VDict []));
    ("duel", get event "duel" (VDict []));
    ("tactics", get event "tactics" (VDict []));
    ("goalkeeper", get event "goalkeeper" (VDict []));
    ("foul_committed", get event "foul_committed" (VDict []));
    ("foul_won", get event "foul_won" (VDict []));
    ("ball_receipt", get event "ball_receipt" (VDict []));
    ("ball_recovery", get event "ball_recovery" (VDict []));
    ("interception", get event "interception" (VDict []));
    ("clearance", get event "clearance" (VDict []));
    ("dribble", get event "dribble" (VDict []));
    ("block", get event "block" (VDict []));
    ("miscontrol", get event "miscontrol" (VDict []));
    ("dispossessed", get event "dispossessed" (VDict [])) ].

(** The endpoint, from the rows of the match. *)
Definition get_match_events (events : list mapping) : response mapping :=
  Success (map processed_event events).

End Events.

(** ** Counting the rows of an actor *)

(** The key of an actor that has one, as the name of an entry has. *)
Definition key_of (a : actor) : hashable :=
  match hash a with
  | Ok k => k
  | Raise _ => HNone
  end.

(** The row is one of the actor of key [k]. *)
Definition of_actor (key : event -> M (option hashable)) (k : hashable)
    (e : event) : bool :=
  match key e with
  | Ok (Some k') => hashable_eqb k' k
  | _ => false
  end.

(** The number of rows of the actor of key [k] that satisfy [ind]. *)
Definition tally (key : event -> M (option hashable)) (k : hashable)
    (ind : event -> bool) (events : list event) : Z :=
  Z.of_nat (List.length (filter (fun e => of_actor key k e && ind e) events)).

(** The actors of the rows in order of first appearance, as the cells
    [cell] of the rows hold them, [seen] being the keys met before. *)
Fixpoint first_actors (key : event -> M (option hashable))
    (cell : event -> actor) (seen : list hashable) (events : list event)
  : list actor :=
  match events with
  | [] => []
  | e :: events' =>
      match key e with
      | Ok (Some k) =>
          if existsb (hashable_eqb k) seen
          then first_actors key cell seen events'
          else cell e :: first_actors key cell (k :: seen) events'
      | _ => first_actors key cell seen events'
      end
  end.

(** The name of the outcome of a sub-object, or of its card:
    [column.get(field, {}).get("name")] on a row the chain accepts. *)
Definition name_of (column : option value) (field : string) : value :=
  get (inner_of column field) "name" VNone.

(** The rows that add one to each counter. *)
Definition is_shot (e : event) : bool := type_is (ev_type e) "Shot".
Definition is_pass (e : event) : bool := type_is (ev_type e) "Pass".
Definition is_goal (e : event) : bool := type_is (ev_type e) "Goal".
Definition is_tackle (e : event) : bool := type_is (ev_type e) "Tackle".
Definition is_interception (e : event) : bool :=
  type_is (ev_type e) "Interception".
Definition is_duel (e : event) : bool := type_is (ev_type e) "Duel".
Definition is_corner (e : event) : bool := type_is (ev_type e) "Corner".
Definition is_foul (e : event) : bool :=
  type_is (ev_type e) "Foul Committed".

Definition is_shot_on_target (e : event) : bool :=
  is_shot e &&
  in_strs (name_of (ev_shot e) "outcome") ["Goal"; "Saved"; "Post"].

Definition is_pass_completed (e : event) : bool :=
  is_pass e && negb (eq_str (name_of (ev_pass e) "outcome") "Incomplete").

Definition is_assist (e : event) : bool :=
  is_pass e && goal_assist (ev_pass e).

Definition is_duel_won (e : event) : bool :=
  is_duel e && eq_str (name_of (ev_duel e) "outcome") "Won".

Definition is_duel_lost (e : event) : bool :=
  is_duel e && negb (eq_str (name_of (ev_duel e) "outcome") "Won").

Definition is_yellow_card (e : event) : bool :=
  is_foul e && eq_str (name_of (ev_foul_committed e) "card") "Yellow Card".

Definition is_red_card (e : event) : bool :=
  is_foul e && eq_str (name_of (ev_foul_committed e) "card") "Red Card".

(** A counter of an entry with the rows that add one to it. *)
Definition counter (S : Type) : Type := ((S -> Z) * (event -> bool))%type.

Definition player_counters : list (counter Player.stats) :=
  [(Player.goals, is_goal); (Player.assists, is_assist);
   (Player.shots, is_shot); (Player.shots_on_target, is_shot_on_target);
   (Player.passes_completed, is_pass_completed);
   (Player.passes_attempted, is_pass); (Player.tackles, is_tackle);
   (Player.interceptions, is_interception);
   (Player.duels_won, is_duel_won); (Player.duels_lost, is_duel_lost);
   (Player.yellow_cards, is_yellow_card); (Player.red_cards, is_red_card)].

Definition team_counters : list (counter Team.stats) :=
  [(Team.goals, is_goal); (Team.shots, is_shot);
   (Team.shots_on_target, is_shot_on_target);
   (Team.passes_completed, is_pass_completed);
   (Team.passes_attempted, is_pass); (Team.tackles, is_tackle);
   (Team.interceptions, is_interception);
   (Team.duels_won, is_duel_won); (Team.duels_lost, is_duel_lost);
   (Team.corners, is_corner); (Team.fouls, is_foul);
   (Team.yellow_cards, is_yellow_card); (Team.red_cards, is_red_card)].

(** A foul of B of team Y punished with a yellow card, a corner of B, and
    the rows of a passage of play. *)
Definition yellow_foul : event :=
  Event (Some "Foul Committed") (AStr "B") (AStr "Y") None None None
    (Some (VDict [("card", VDict [("name", VStr "Yellow Card")])])).

Definition corner_kick : event :=
  Event (Some "Corner") (AStr "B") (AStr "Y") None None None None.

Definition passage_of_play : list event :=
  [pass_assist; yellow_foul; duel_won; corner_kick; pass_incomplete;
   duel_no_outcome; yellow_foul].

(** Counters that bound other counters of the same entry. *)
Definition player_bounds (st : Player.stats) : Prop :=
  Player.shots_on_target st <= Player.shots st /\
  Player.assists st <= Player.passes_attempted st.

Definition team_bounds (st : Team.stats) : Prop :=
  Team.shots_on_target st <= Team.shots st /\
  Team.yellow_cards st + Team.red_cards st <= Team.fouls st.

(** ** Totals over the entries of a response *)

(** The sum of a counter over the entries. *)
Definition total {S : Type} (f : S -> Z) (data : list S) : Z :=
  fold_right (fun st n => f st + n) 0 data.

(** The row has a key: its actor cell is true and hashable.  And the
    number of rows that satisfy [ok]. *)
Definition has_actor (key : event -> M (option hashable)) (e : event)
  : bool :=
  match key e with
  | Ok (Some _) => true
  | _ => false
  end.

Definition rows (ok : event -> bool) (events : list event) : Z :=
  Z.of_nat (List.length (filter ok events)).

(** The counters both responses have, with the rows that count for them. *)
Definition shared_counters
  : list ((Player.stats -> Z) * (Team.stats -> Z) * (event -> bool)) :=
  [(Player.goals, Team.goals, is_goal);
   (Player.shots, Team.shots, is_shot);
   (Player.shots_on_target, Team.shots_on_target, is_shot_on_target);
   (Player.passes_completed, Team.passes_completed, is_pass_completed);
   (Player.passes_attempted, Team.passes_attempted, is_pass);
   (Player.tackles, Team.tackles, is_tackle);
   (Player.interceptions, Team.interceptions, is_interception);
   (Player.duels_won, Team.duels_won, is_duel_won);
   (Player.duels_lost, Team.duels_lost, is_duel_lost);
   (Player.yellow_cards, Team.yellow_cards, is_yellow_card);
   (Player.red_cards, Team.red_cards, is_red_card)].

(** ** The sums as running sums *)

(** The expected-goal value a row adds to [xg], and to [xa]. *)
Definition shot_xg (e : event) : option value :=
  if is_shot e then find "statsbomb_xg" (sub_of (ev_shot e)) else None.

Definition assist_xg (e : event) : option value :=
  if is_assist e then find "statsbomb_xg" (sub_of (ev_pass e)) else None.

(** The values the rows of the actor [k] add, in the order of the rows. *)
Fixpoint addends (key : event -> M (option hashable)) (k : hashable)
    (addend : event -> option value) (events : list event) : list value :=
  match events with
  | [] => []
  | e :: events' =>
      if of_actor key k e then
        match addend e with
        | Some v => v :: addends key k addend events'
        | None => addends key k addend events'
        end
      else addends key k addend events'
  end.

(** [acc += v] for each [v] of the list in turn. *)
Fixpoint py_sum (acc : float) (l : list value) : M float :=
  match l with
  | [] => Ok acc
  | v :: l' => acc' <- float_add acc v ;; py_sum acc' l'
  end.

(** * Properties *)

(** ** Dictionaries *)

Lemma hashable_eqb_spec k k' : reflect (k = k') (hashable_eqb k k').
Proof.
  destruct k, k'; simpl; try (right; discriminate);
    try (left; reflexivity).
  - destruct (Nat.eqb_spec obj obj0); [left | right]; congruence.
  - destruct (String.eqb_spec s s0); [left | right]; congruence.
Qed.

Lemma hashable_eqb_refl k : hashable_eqb k k = true.
Proof. destruct (hashable_eqb_spec k k); congruence. Qed.

Lemma hashable_eqb_eq k k' : hashable_eqb k k' = true <-> k = k'.
Proof.
  destruct (hashable_eqb_spec k k'); split; congruence.
Qed.

Lemma hashable_eqb_neq k k' : hashable_eqb k k' = false <-> k <> k'.
Proof.
  destruct (hashable_eqb_spec k k'); split; congruence.
Qed.

Lemma hashable_eq_dec (k k' : hashable) : {k = k'} + {k <> k'}.
Proof.
  destruct (hashable_eqb_spec k k'); [left | right]; assumption.
Qed.

Section DictFacts.

Variable V : Type.
Implicit Types (d : dict V) (k : hashable) (v : V).

Lemma lookup_store_same k v d :
  mem k d = true -> lookup k (store k v d) = Some v.
Proof.
  unfold mem. induction d as [|[k0 w] d IH]; simpl; [discriminate|].
  destruct (hashable_eqb k k0) eqn:E; simpl; rewrite E; auto.
Qed.

Lemma lookup_store_other k k' v d :
  k' <> k -> lookup k' (store k v d) = lookup k' d.
Proof.
  intros N. induction d as [|[k0 w] d IH]; simpl; [reflexivity|].
  destruct (hashable_eqb k k0) eqn:E; simpl.
  - apply hashable_eqb_eq in E. subst k0.
    apply hashable_eqb_neq in N. rewrite N. reflexivity.
  - rewrite IH. reflexivity.
Qed.

Lemma lookup_add_same k v d :
  mem k d = false -> lookup k (add k v d) = Some v.
Proof.
  unfold mem, add. induction d as [|[k0 w] d IH]; simpl.
  - rewrite hashable_eqb_refl. reflexivity.
  - destruct (hashable_eqb k k0); [discriminate|]. exact IH.
Qed.

Lemma lookup_add_other k k' v d :
  k' <> k -> lookup k' (add k v d) = lookup k' d.
Proof.
  intros N. unfold add. induction d as [|[k0 w] d IH]; simpl.
  - apply hashable_eqb_neq in N. rewrite N. reflexivity.
  - rewrite IH. reflexivity.
Qed.

Lemma store_add k v w d :
  mem k d = false -> store k v (add k w d) = add k v d.
Proof.
  unfold mem, add. induction d as [|[k0 u] d IH]; simpl.
  - rewrite hashable_eqb_refl. reflexivity.
  - destruct (hashable_eqb k k0); [discriminate|].
    intros H. rewrite (IH H). reflexivity.
Qed.

Lemma keys_store k v d : keys (store k v d) = keys d.
Proof.
  unfold keys. induction d as [|[k0 w] d IH]; simpl; [reflexivity|].
  destruct (hashable_eqb k k0); simpl; [reflexivity|].
  rewrite IH. reflexivity.
Qed.

Lemma keys_add k v d : keys (add k v d) = (keys d ++ [k])%list.
Proof. unfold keys, add. rewrite map_app. reflexivity. Qed.

Lemma mem_keys k d : mem k d = true <-> In k (keys d).
Proof.
  unfold mem, keys. induction d as [|[k0 w] d IH]; simpl.
  - split; [discriminate | tauto].
  - destruct (hashable_eqb_spec k k0) as [->|N].
    + split; auto.
    + rewrite IH. split; [auto | intros [E|H]; [congruence | exact H]].
Qed.

Lemma mem_false_keys k d : mem k d = false <-> ~ In k (keys d).
Proof.
  rewrite <- mem_keys. destruct (mem k d); split; congruence.
Qed.

Lemma lookup_In k v d : lookup k d = Some v -> In (k, v) d.
Proof.
  induction d as [|[k0 w] d IH]; simpl; [discriminate|].
  destruct (hashable_eqb_spec k k0) as [->|N].
  - intros [= ->]. auto.
  - auto.
Qed.

Lemma In_lookup k v d : NoDup (keys d) -> In (k, v) d -> lookup k d = Some v.
Proof.
  unfold keys. induction d as [|[k0 w] d IH]; simpl; [tauto|].
  intros ND [E|H]; inversion ND as [|? ? NI ND']; subst.
  - injection E as -> ->. rewrite hashable_eqb_refl. reflexivity.
  - destruct (hashable_eqb_spec k k0) as [->|N].
    + exfalso. apply NI. change k0 with (fst (k0, v)). now apply in_map.
    + auto.
Qed.

(** An entry of [values d], for a dictionary without repeated key, is
    the entry of some key. *)
Lemma values_lookup v d :
  NoDup (keys d) -> In v (values d) -> exists k, lookup k d = Some v.
Proof.
  intros ND H. unfold values in H. apply in_map_iff in H.
  destruct H as [[k w] [E H]]. simpl in E. subst w.
  exists k. now apply In_lookup.
Qed.

Lemma lookup_values k v d : lookup k d = Some v -> In v (values d).
Proof.
  intros H. apply lookup_In in H. unfold values.
  change v with (snd (k, v)). now apply in_map.
Qed.

End DictFacts.

(** ** The loop *)

Section LoopFacts.

Variable S : Type.
Variable key : event -> M (option hashable).
Variable new : hashable -> event -> S.
Variable count : event -> S -> M S.

Local Abbreviation step := (Loop.step key new count).
Local Abbreviation scan := (Loop.scan key new count).
Local Abbreviation entry := (Loop.entry new).

Implicit Types (d : dict S) (k : hashable) (e : event) (st : S).

Lemma lookup_put_same k st d : lookup k (Loop.put k st d) = Some st.
Proof.
  unfold Loop.put. destruct (mem k d) eqn:E.
  - now apply lookup_store_same.
  - now apply lookup_add_same.
Qed.

Lemma lookup_put_other k k' st d :
  k' <> k -> lookup k' (Loop.put k st d) = lookup k' d.
Proof.
  intros N. unfold Loop.put. destruct (mem k d).
  - now apply lookup_store_other.
  - now apply lookup_add_other.
Qed.

Lemma keys_put k k' st d :
  In k' (keys (Loop.put k st d)) <-> k' = k \/ In k' (keys d).
Proof.
  unfold Loop.put. destruct (mem k d) eqn:E.
  - rewrite keys_store. apply mem_keys in E.
    split; [auto | intros [->|H]; auto].
  - rewrite keys_add, in_app_iff. simpl. split.
    + intros [H|[H|[]]]; auto.
    + intros [->|H]; auto.
Qed.

Lemma NoDup_put k st d : NoDup (keys d) -> NoDup (keys (Loop.put k st d)).
Proof.
  intros ND. unfold Loop.put. destruct (mem k d) eqn:E.
  - now rewrite keys_store.
  - rewrite keys_add. apply mem_false_keys in E.
    apply NoDup_rev in ND. rewrite <- (rev_involutive (keys d ++ [k])).
    apply NoDup_rev. rewrite rev_app_distr. simpl.
    constructor; [now rewrite <- in_rev | exact ND].
Qed.

(** A turn of the loop on a row with an actor: count the row on the
    entry of the actor and store the result. *)
Lemma step_key d e k :
  key e = Ok (Some k) ->
  step d e = (st' <- count e (entry d k e) ;; Ok (Loop.put k st' d)).
Proof.
  intros K. unfold Loop.step, Loop.entry, Loop.put. rewrite K.
  destruct (mem k d) eqn:E.
  - unfold mem in E. destruct (lookup k d); [reflexivity | discriminate].
  - rewrite lookup_add_same by exact E.
    assert (L : lookup k d = None)
      by (unfold mem in E; destruct (lookup k d); [discriminate|reflexivity]).
    rewrite L. destruct (count e (new k e)); simpl; [|reflexivity].
    now rewrite store_add.
Qed.

Lemma step_no_key d e : key e = Ok None -> step d e = Ok d.
Proof. intros K. unfold Loop.step. now rewrite K. Qed.

Lemma step_bad_key d e x : key e = Raise x -> step d e = Raise x.
Proof. intros K. unfold Loop.step. now rewrite K. Qed.

Lemma step_inv d e d' :
  step d e = Ok d' ->
  (key e = Ok None /\ d' = d) \/
  (exists k st', key e = Ok (Some k) /\ count e (entry d k e) = Ok st' /\
                 d' = Loop.put k st' d).
Proof.
  destruct (key e) as [[k|]|x] eqn:K.
  - rewrite (step_key _ _ _ K).
    destruct (count e (entry d k e)) as [st'|x] eqn:C; simpl;
      [|discriminate].
    intros [= <-]. right. now exists k, st'.
  - rewrite (step_no_key _ _ K). intros [= <-]. now left.
  - rewrite (step_bad_key _ _ _ K). discriminate.
Qed.

Lemma scan_app d p q :
  scan d (p ++ q) = (d1 <- scan d p ;; scan d1 q).
Proof.
  revert d. induction p as [|e p IH]; intros d; simpl; [reflexivity|].
  destruct (step d e); simpl; [apply IH | reflexivity].
Qed.

(** Every key of the result is a key at the start or the key of a row. *)
Lemma scan_keys events : forall d d' k,
  scan d events = Ok d' -> In k (keys d') ->
  In k (keys d) \/ exists e, In e events /\ key e = Ok (Some k).
Proof.
  induction events as [|e events IH]; intros d d' k; simpl.
  - intros [= <-]. auto.
  - destruct (step d e) as [d1|x] eqn:St; simpl; [|discriminate].
    intros Sc H. destruct (IH _ _ _ Sc H) as [H1|[e' [I K]]].
    + destruct (step_inv _ _ _ St) as [[_ ->]|[k1 [st' [K [_ ->]]]]]; auto.
      apply keys_put in H1. destruct H1 as [->|H1]; auto.
      right. exists e. auto.
    + right. exists e'. auto.
Qed.

Lemma scan_NoDup events : forall d d',
  NoDup (keys d) -> scan d events = Ok d' -> NoDup (keys d').
Proof.
  induction events as [|e events IH]; intros d d' ND; simpl.
  - now intros [= <-].
  - destruct (step d e) as [d1|x] eqn:St; simpl; [|discriminate].
    apply IH. destruct (step_inv _ _ _ St) as [[_ ->]|[k [st' [_ [_ ->]]]]];
      [exact ND | now apply NoDup_put].
Qed.

(** Invariants of the entries and relations between the entry of a key
    before and after further rows, for rows that satisfy [Q]. *)
Section Invariant.

Variable Q : event -> Prop.
Variable P : hashable -> S -> Prop.
Variable R : S -> S -> Prop.

Hypothesis P_new : forall k e, Q e -> key e = Ok (Some k) -> P k (new k e).
Hypothesis P_count :
  forall k e st st', Q e -> P k st -> count e st = Ok st' -> P k st'.
Hypothesis R_refl : forall k st, P k st -> R st st.
Hypothesis R_trans : forall a b c, R a b -> R b c -> R a c.
Hypothesis R_count :
  forall k e st st', Q e -> P k st -> count e st = Ok st' -> R st st'.

Local Abbreviation entries_ok := (all_entries P).

Lemma all_entries_nil : entries_ok [].
Proof. intros k st. discriminate. Qed.

Lemma step_all_entries d e d' :
  Q e -> entries_ok d -> step d e = Ok d' -> entries_ok d'.
Proof.
  intros q A St.
  destruct (step_inv _ _ _ St) as [[_ ->]|[k [st' [K [C ->]]]]];
    [exact A|].
  intros k' st L. destruct (hashable_eqb_spec k' k) as [->|N].
  - rewrite lookup_put_same in L. injection L as <-.
    apply (P_count k _ _ _ q) with (2 := C). unfold Loop.entry.
    destruct (lookup k d) eqn:L'; [now apply (A k) | now apply P_new].
  - rewrite lookup_put_other in L by exact N. now apply (A k').
Qed.

Lemma scan_all_entries events : forall d d',
  Forall Q events -> entries_ok d -> scan d events = Ok d' ->
  entries_ok d'.
Proof.
  induction events as [|e events IH]; intros d d' F A; simpl.
  - now intros [= <-].
  - destruct (step d e) as [d1|x] eqn:St; simpl; [|discriminate].
    inversion F; subst. apply IH; [assumption|].
    now apply step_all_entries with (3 := St).
Qed.

Lemma step_related d e d' k st :
  Q e -> entries_ok d -> step d e = Ok d' -> lookup k d = Some st ->
  exists st', lookup k d' = Some st' /\ R st st'.
Proof.
  intros q A St L.
  assert (Rst : R st st) by (apply (R_refl k); now apply A).
  destruct (step_inv _ _ _ St) as [[_ ->]|[k1 [st1 [K [C ->]]]]].
  - exists st. auto.
  - destruct (hashable_eqb_spec k k1) as [->|N].
    + exists st1. rewrite lookup_put_same. split; [reflexivity|].
      unfold Loop.entry in C. rewrite L in C.
      apply (R_count k1 _ _ _ q) with (2 := C). now apply (A k1).
    + exists st. rewrite lookup_put_other by exact N. auto.
Qed.

Lemma scan_related events : forall d d' k st,
  Forall Q events -> entries_ok d -> scan d events = Ok d' ->
  lookup k d = Some st ->
  exists st', lookup k d' = Some st' /\ R st st'.
Proof.
  induction events as [|e events IH]; intros d d' k st F A; simpl.
  - intros [= <-] L. exists st. split; [exact L|].
    apply (R_refl k). now apply A.
  - destruct (step d e) as [d1|x] eqn:St; simpl; [|discriminate].
    intros Sc L. inversion F; subst.
    destruct (step_related _ _ _ _ _ H1 A St L) as [st1 [L1 R1]].
    assert (A1 : entries_ok d1)
      by now apply step_all_entries with (3 := St).
    destruct (IH _ _ _ _ H2 A1 Sc L1) as [st2 [L2 R2]].
    exists st2. split; [exact L2 | now apply R_trans with st1].
Qed.

(** The entries after a prefix of the rows satisfy the invariant and are
    related to the entries after all the rows. *)
Lemma scan_prefix_related prefix rest d' :
  Forall Q (prefix ++ rest) -> scan [] (prefix ++ rest) = Ok d' ->
  exists d, scan [] prefix = Ok d /\
    forall k st, lookup k d = Some st ->
      P k st /\ exists st', lookup k d' = Some st' /\ R st st'.
Proof.
  intros F Sc. rewrite scan_app in Sc. apply Forall_app in F.
  destruct F as [Fp Fr].
  destruct (scan [] prefix) as [d|x] eqn:Sp; simpl in Sc; [|discriminate].
  exists d. split; [reflexivity|]. intros k st L.
  assert (A : entries_ok d)
    by (apply (scan_all_entries prefix [] d Fp all_entries_nil Sp)).
  split; [now apply A|]. now apply (scan_related rest d d' k st Fr A Sc).
Qed.

End Invariant.

End LoopFacts.

(** Whether the loop answers a dictionary. *)
Section LoopSuccess.

Variable S : Type.
Variable key : event -> M (option hashable).
Variable new : hashable -> event -> S.
Variable count : event -> S -> M S.
Variable ok : event -> bool.

Hypothesis count_ok :
  forall e st, (exists st', count e st = Ok st') <-> ok e = true.

Local Abbreviation accepted := (accepts key ok).

Lemma step_ok d e :
  (exists d', Loop.step key new count d e = Ok d') <-> accepted e = true.
Proof.
  unfold accepts. destruct (key e) as [[k|]|y] eqn:K.
  - rewrite (step_key _ _ _ _ _ _ _ K).
    rewrite <- (count_ok e (Loop.entry new d k e)).
    destruct (count e (Loop.entry new d k e)) as [st'|x]; simpl.
    + split; intros _; eauto.
    + split; intros [? H]; discriminate.
  - rewrite (step_no_key _ _ _ _ _ _ K). split; eauto.
  - rewrite (step_bad_key _ _ _ _ _ _ _ K).
    split; [intros [? H]; discriminate | discriminate].
Qed.

Lemma scan_ok events : forall d,
  (exists d', Loop.scan key new count d events = Ok d') <->
  forallb accepted events = true.
Proof.
  induction events as [|e events IH]; intros d; simpl.
  - split; eauto.
  - rewrite andb_true_iff, <- (step_ok d e).
    destruct (Loop.step key new count d e) as [d1|x]; simpl.
    + rewrite <- (IH d1). split; [intros H; split; eauto | tauto].
    + split; [intros [? H]; discriminate | intros [[? H] _]; discriminate].
Qed.

End LoopSuccess.

(** Permutations of the rows. *)
Section LoopPermutation.

Variable S : Type.
Variable key : event -> M (option hashable).
Variable new : hashable -> event -> S.
Variable count : event -> S -> M S.

(** The rows considered and the relation on entries that reordering
    keeps. *)
Variable Q : event -> Prop.
Variable E : S -> S -> Prop.

Hypothesis E_refl : forall st, E st st.
Hypothesis E_trans : forall a b c, E a b -> E b c -> E a c.
Hypothesis new_E :
  forall k e1 e2,
    Q e1 -> Q e2 -> key e1 = Ok (Some k) -> key e2 = Ok (Some k) ->
    E (new k e1) (new k e2).
Hypothesis count_total :
  forall e st st',
    count e st = Ok st' -> forall t, exists t', count e t = Ok t'.
Hypothesis count_E :
  forall e st st' t t',
    E st t -> count e st = Ok st' -> count e t = Ok t' -> E st' t'.
Hypothesis count_comm :
  forall e1 e2 st st1 st12 st2 st21,
    count e1 st = Ok st1 -> count e2 st1 = Ok st12 ->
    count e2 st = Ok st2 -> count e1 st2 = Ok st21 -> E st12 st21.

Local Abbreviation step := (Loop.step key new count).
Local Abbreviation scan := (Loop.scan key new count).
Local Abbreviation entry := (Loop.entry new).
Local Abbreviation same := (same_entries E).

Lemma same_refl d : same d d.
Proof. intros k. destruct (lookup k d); auto. Qed.

Lemma same_trans d1 d2 d3 : same d1 d2 -> same d2 d3 -> same d1 d3.
Proof.
  intros H12 H23 k. specialize (H12 k). specialize (H23 k).
  destruct (lookup k d1), (lookup k d2), (lookup k d3); try tauto.
  now apply E_trans with s0.
Qed.

Lemma same_put d d' k st st' :
  same d d' -> E st st' -> same (Loop.put k st d) (Loop.put k st' d').
Proof.
  intros H Est k'. destruct (hashable_eqb_spec k' k) as [->|N].
  - now rewrite !lookup_put_same.
  - rewrite !lookup_put_other by exact N. apply H.
Qed.

Lemma same_entry d d' k e :
  same d d' -> E (entry d k e) (entry d' k e).
Proof.
  intros H. specialize (H k). unfold Loop.entry.
  destruct (lookup k d), (lookup k d'); try tauto. apply E_refl.
Qed.

Lemma put_put_other d k1 k2 st1 st2 :
  k1 <> k2 ->
  same (Loop.put k2 st2 (Loop.put k1 st1 d))
       (Loop.put k1 st1 (Loop.put k2 st2 d)).
Proof.
  intros N k. destruct (hashable_eqb_spec k k1) as [->|N1].
  - rewrite lookup_put_other, !lookup_put_same by exact N. apply E_refl.
  - destruct (hashable_eqb_spec k k2) as [->|N2].
    + rewrite lookup_put_same, lookup_put_other, lookup_put_same by exact N1.
      apply E_refl.
    + rewrite !lookup_put_other by assumption.
      destruct (lookup k d); auto.
Qed.

Lemma entry_put_other d k1 k2 st e :
  k2 <> k1 -> entry (Loop.put k1 st d) k2 e = entry d k2 e.
Proof. intros N. unfold Loop.entry. now rewrite lookup_put_other. Qed.

Lemma entry_put_same d k st e : entry (Loop.put k st d) k e = st.
Proof. unfold Loop.entry. now rewrite lookup_put_same. Qed.

(** A turn of the loop from related dictionaries. *)
Lemma step_same d d' e d1 :
  same d d' -> step d e = Ok d1 ->
  exists d1', step d' e = Ok d1' /\ same d1 d1'.
Proof.
  intros H St.
  destruct (step_inv _ _ _ _ _ _ _ St) as [[K ->]|[k [st' [K [C ->]]]]].
  - exists d'. split; [now apply step_no_key | exact H].
  - destruct (count_total _ _ _ C (entry d' k e)) as [t' C'].
    exists (Loop.put k t' d'). split.
    + rewrite (step_key _ _ _ _ _ _ _ K), C'. reflexivity.
    + apply same_put; [exact H|].
      apply (count_E _ _ _ _ _ (same_entry d d' k e H) C C').
Qed.

Lemma scan_same events : forall d d' r,
  same d d' -> scan d events = Ok r ->
  exists r', scan d' events = Ok r' /\ same r r'.
Proof.
  induction events as [|e events IH]; intros d d' r H; simpl.
  - intros [= <-]. now exists d'.
  - destruct (step d e) as [d1|x] eqn:St; simpl; [|discriminate].
    intros Sc. destruct (step_same _ _ _ _ H St) as [d1' [St' H1]].
    rewrite St'. simpl. now apply IH with d1.
Qed.

(** Two turns of the loop in either order. *)
Lemma step_swap d e1 e2 d1 d12 :
  Q e1 -> Q e2 -> step d e1 = Ok d1 -> step d1 e2 = Ok d12 ->
  exists d2 d21, step d e2 = Ok d2 /\ step d2 e1 = Ok d21 /\ same d12 d21.
Proof.
  intros q1 q2 St1 St2.
  destruct (step_inv _ _ _ _ _ _ _ St1) as [[K1 ->]|[k1 [st1 [K1 [C1 ->]]]]].
  { exists d12, d12. repeat split; auto using step_no_key, same_refl. }
  destruct (step_inv _ _ _ _ _ _ _ St2) as [[K2 ->]|[k2 [st12 [K2 [C2 ->]]]]].
  { exists d, (Loop.put k1 st1 d).
    repeat split; auto using step_no_key, same_refl. }
  destruct (hashable_eqb_spec k2 k1) as [->|N].
  - rewrite entry_put_same in C2.
    destruct (count_total _ _ _ C2 (entry d k1 e1)) as [u2 D2].
    destruct (count_total _ _ _ C1 u2) as [u21 D1].
    assert (E0 : E (entry d k1 e1) (entry d k1 e2)).
    { unfold Loop.entry. destruct (lookup k1 d); [apply E_refl|].
      now apply new_E. }
    destruct (count_total _ _ _ C2 (entry d k1 e2)) as [st2 C2'].
    destruct (count_total _ _ _ C1 st2) as [st21 C1'].
    exists (Loop.put k1 st2 d), (Loop.put k1 st21 (Loop.put k1 st2 d)).
    split; [rewrite (step_key _ _ _ _ _ _ _ K2), C2'; reflexivity|].
    split; [rewrite (step_key _ _ _ _ _ _ _ K1), entry_put_same, C1';
            reflexivity|].
    assert (E12 : E st12 st21).
    { apply E_trans with u21.
      - exact (count_comm _ _ _ _ _ _ _ C1 C2 D2 D1).
      - apply (count_E _ _ _ _ _ (count_E _ _ _ _ _ E0 D2 C2') D1 C1'). }
    intros k. destruct (hashable_eqb_spec k k1) as [->|N].
    + now rewrite !lookup_put_same.
    + rewrite !lookup_put_other by exact N. destruct (lookup k d); auto.
  - rewrite entry_put_other in C2 by exact N.
    exists (Loop.put k2 st12 d), (Loop.put k1 st1 (Loop.put k2 st12 d)).
    split; [rewrite (step_key _ _ _ _ _ _ _ K2), C2; reflexivity|].
    split.
    + rewrite (step_key _ _ _ _ _ _ _ K1), entry_put_other, C1 by auto.
      reflexivity.
    + apply put_put_other. auto.
Qed.

(** The loop over a permutation of the rows. *)
Lemma scan_Permutation events events' :
  Permutation events events' ->
  Forall Q events ->
  forall d d' r,
    same d d' -> scan d events = Ok r ->
    exists r', scan d' events' = Ok r' /\ same r r'.
Proof.
  induction 1 as [|x l l' HP IH|x y l|l l' l'' HP1 IH1 HP2 IH2];
    intros F d d' r H.
  - simpl. intros [= <-]. now exists d'.
  - simpl. destruct (step d x) as [d1|?] eqn:St; simpl; [|discriminate].
    intros Sc. destruct (step_same _ _ _ _ H St) as [d1' [St' H1]].
    rewrite St'. simpl. inversion F; subst. now apply IH with d1.
  - simpl. destruct (step d y) as [d1|?] eqn:St1; simpl; [|discriminate].
    destruct (step d1 x) as [d12|?] eqn:St2; simpl; [|discriminate].
    intros Sc. inversion F as [|? ? qy F']; subst.
    inversion F' as [|? ? qx F'']; subst.
    destruct (step_swap _ _ _ _ _ qy qx St1 St2) as [d2 [d21 [T1 [T2 H12]]]].
    destruct (step_same _ _ _ _ H T1) as [d2' [T1' H2]].
    destruct (step_same _ _ _ _ H2 T2) as [d21' [T2' H21]].
    rewrite T1'. simpl. rewrite T2'. simpl.
    apply scan_same with d12; [|exact Sc].
    now apply same_trans with d21.
  - intros Sc.
    destruct (IH1 F d d r (same_refl d) Sc) as [r1 [Sc1 H1]].
    assert (F' : Forall Q l').
    { apply Forall_forall. intros e I. rewrite Forall_forall in F.
      apply F. apply Permutation_in with l'; [|exact I].
      now apply Permutation_sym. }
    destruct (IH2 F' d d' r1 H Sc1) as [r2 [Sc2 H2]].
    exists r2. split; [exact Sc2 | now apply same_trans with r1].
Qed.

End LoopPermutation.

(** ** Binary64 sums of non-negative numbers *)

Lemma Zdigits2_log2 (m : positive) :
  Zpos (digits2_pos m) = Z.log2 (Zpos m) + 1.
Proof.
  assert (H : forall p, digits2_pos p = Pos.size p)
    by (induction p; simpl; congruence).
  destruct m; simpl; rewrite ?H; lia.
Qed.

Lemma pos_iter_xO (m d : positive) :
  Zpos (Pos.iter xO m d) = Zpos m * 2 ^ Zpos d.
Proof.
  induction d as [|d IH] using Pos.peano_ind.
  - simpl. lia.
  - rewrite Pos.iter_succ, Pos2Z.inj_succ, Z.pow_succ_r by lia.
    rewrite Pos2Z.inj_xO, IH. lia.
Qed.

Lemma shl_align_le (m : positive) (e e' : Z) :
  e' <= e ->
  shl_align m e e' = (fst (shl_align m e e'), e') /\
  Zpos (fst (shl_align m e e')) = Zpos m * 2 ^ (e - e').
Proof.
  intros L. unfold shl_align. destruct (e' - e) as [|d|d] eqn:D; try lia.
  - assert (e' = e) by lia. subst. simpl. rewrite Z.sub_diag, Z.pow_0_r.
    split; [reflexivity|lia].
  - simpl. rewrite pos_iter_xO. replace (e - e') with (Zpos d) by lia. auto.
Qed.

Lemma shl_align_ge (m : positive) (e e' : Z) :
  e <= e' -> shl_align m e e' = (m, e).
Proof.
  intros L. unfold shl_align. destruct (e' - e) eqn:D; try reflexivity. lia.
Qed.

Lemma iter_pos_iter {A : Type} (f : A -> A) (p : positive) (x : A) :
  iter_pos f p x = Pos.iter f x p.
Proof.
  revert x. induction p as [p IH|p IH|]; intros x; simpl.
  - rewrite !IH, !Pos.iter_swap. reflexivity.
  - rewrite !IH. reflexivity.
  - reflexivity.
Qed.

Lemma shr_1_m (mrs : shr_record) :
  0 <= shr_m mrs -> shr_m (shr_1 mrs) = shr_m mrs / 2.
Proof.
  destruct mrs as [m r s]. unfold shr_m at 1. intros H.
  destruct m as [|[p|p|]|p]; unfold shr_1, shr_m; try lia; try reflexivity.
  - apply Z.div_unique with 1; lia.
  - apply Z.div_unique with 0; lia.
Qed.

Lemma iter_shr_1_m (p : positive) (mrs : shr_record) :
  0 <= shr_m mrs ->
  shr_m (iter_pos shr_1 p mrs) = shr_m mrs / 2 ^ Zpos p.
Proof.
  intros H. rewrite iter_pos_iter.
  induction p as [|p IH] using Pos.peano_ind.
  - simpl. rewrite shr_1_m by exact H. reflexivity.
  - rewrite Pos.iter_succ, shr_1_m, IH.
    + rewrite Pos2Z.inj_succ, Z.pow_succ_r by lia.
      rewrite Z.div_div by lia. f_equal. lia.
    + rewrite IH. apply Z.div_pos; lia.
Qed.

(** The first component of [shr_fexp] on an exact positive mantissa. *)
Lemma shr_fexp_exact (m : positive) (e : Z) :
  let e1 := fexp prec emax (Zpos (digits2_pos m) + e) in
  e <= e1 ->
  exists mrs, shr_fexp prec emax (Zpos m) e loc_Exact = (mrs, e1) /\
              shr_m mrs = Zpos m / 2 ^ (e1 - e).
Proof.
  intros e1 L. unfold shr_fexp, shr. simpl Zdigits2. fold e1.
  destruct (e1 - e) as [|p|p] eqn:D; try lia.
  - assert (e1 = e) by lia. eexists. split; [rewrite <- H; reflexivity|].
    simpl. rewrite Z.div_1_r. reflexivity.
  - eexists. split; [f_equal; lia|]. rewrite iter_shr_1_m; simpl; lia.
Qed.

Lemma fexp_eq (z : Z) : fexp prec emax z = Z.max (z - 53) (-1074).
Proof. reflexivity. Qed.

Lemma log2_div_pow2 (a k : Z) :
  0 < a -> 0 <= k -> 2 ^ k <= a -> Z.log2 a - k <= Z.log2 (a / 2 ^ k).
Proof.
  intros Ha Hk L.
  assert (P : 0 < 2 ^ k) by (apply Z.pow_pos_nonneg; lia).
  assert (Q : 0 < a / 2 ^ k) by (apply Z.div_str_pos; lia).
  apply Z.log2_le_pow2; [exact Q|].
  assert (Lk : k <= Z.log2 a) by (apply Z.log2_le_pow2; lia).
  apply Z.div_le_lower_bound; [exact P|].
  rewrite <- Z.pow_add_r by lia.
  replace (k + (Z.log2 a - k)) with (Z.log2 a) by lia.
  apply Z.log2_spec. exact Ha.
Qed.

Lemma round_nearest_even_bounds (m : Z) (l : location) :
  m <= round_nearest_even m l <= m + 1.
Proof.
  unfold round_nearest_even. destruct l as [|[| |]]; try lia.
  destruct (Z.even m); lia.
Qed.

(** Rounding a positive mantissa [m0] at exponent [e0] that is worth at
    least [mx] at exponent [ex], where the format exponent of [m0] is not
    below [ex]: the result is not below [mx] at [ex] in the order of
    [SFcompare]. *)
Lemma binary_round_aux_lower (m0 mx : positive) (e0 ex : Z) :
  -1074 <= e0 -> e0 <= ex ->
  ex <= fexp prec emax (Zpos (digits2_pos m0) + e0) ->
  Zpos mx * 2 ^ (ex - e0) <= Zpos m0 ->
  match binary_round_aux prec emax false (Zpos m0) e0 loc_Exact with
  | S754_finite false m e => ex < e \/ (e = ex /\ (mx <= m)%positive)
  | S754_infinity false => True
  | _ => False
  end.
Proof.
  intros Hmin He0 Hex Hm.
  set (e1 := fexp prec emax (Zpos (digits2_pos m0) + e0)) in *.
  assert (L0 := Z.log2_spec (Zpos m0) eq_refl).
  assert (D0 := Zdigits2_log2 m0).
  assert (E1 : e1 = Z.max (Z.log2 (Zpos m0) + 1 + e0 - 53) (-1074))
    by (unfold e1; rewrite fexp_eq, D0; reflexivity).
  assert (Lg0 : 0 <= Z.log2 (Zpos m0)) by apply Z.log2_nonneg.
  assert (K1 : 0 <= e1 - e0 <= Z.log2 (Zpos m0)) by lia.
  assert (P1 : 0 < 2 ^ (e1 - e0)) by (apply Z.pow_pos_nonneg; lia).
  assert (B1 : 2 ^ (e1 - e0) <= Zpos m0).
  { apply Z.le_trans with (2 ^ Z.log2 (Zpos m0)); [|apply L0].
    apply Z.pow_le_mono_r; lia. }
  unfold binary_round_aux.
  destruct (shr_fexp_exact m0 e0) as [mrs [S1 M1]]; [fold e1; lia|].
  fold e1 in S1, M1. rewrite S1.
  set (m1 := shr_m mrs) in *.
  assert (Pm1 : 0 < m1) by (rewrite M1; apply Z.div_str_pos; lia).
  assert (Lm1 : Z.log2 (Zpos m0) - (e1 - e0) <= Z.log2 m1)
    by (rewrite M1; apply log2_div_pow2; lia).
  assert (Rb := round_nearest_even_bounds m1 (loc_of_shr_record mrs)).
  set (mr := round_nearest_even m1 (loc_of_shr_record mrs)) in *.
  destruct mr as [|pr|pr] eqn:Emr; try lia.
  assert (Lr : Z.log2 m1 <= Z.log2 (Zpos pr)) by (apply Z.log2_le_mono; lia).
  assert (Dr := Zdigits2_log2 pr).
  assert (Sr := Z.log2_spec (Zpos pr) eq_refl).
  set (e2 := fexp prec emax (Zpos (digits2_pos pr) + e1)).
  assert (E2 : e2 = Z.max (Z.log2 (Zpos pr) + 1 + e1 - 53) (-1074))
    by (unfold e2; rewrite fexp_eq, Dr; reflexivity).
  destruct (shr_fexp_exact pr e1) as [mrs2 [S2 M2]]; [fold e2; lia|].
  fold e2 in S2, M2. rewrite S2.
  assert (P2 : 0 < 2 ^ (e2 - e1)) by (apply Z.pow_pos_nonneg; lia).
  assert (B2 : Z.min (Zpos pr) (2 ^ 52) <= shr_m mrs2).
  { rewrite M2. destruct (Z.eq_dec e2 e1) as [Eq|Ne].
    - rewrite Eq, Z.sub_diag, Z.pow_0_r, Z.div_1_r. lia.
    - assert (e2 - e1 = Z.log2 (Zpos pr) - 52) by lia.
      apply Z.le_trans with (2 ^ 52); [lia|].
      apply Z.div_le_lower_bound; [exact P2|].
      rewrite <- Z.pow_add_r by lia.
      replace (e2 - e1 + 52) with (Z.log2 (Zpos pr)) by lia. apply Sr. }
  assert (T52 : 0 < 2 ^ 52) by (apply Z.pow_pos_nonneg; lia).
  destruct (shr_m mrs2) as [|p2|p2] eqn:Em2; try lia.
  destruct (e2 <=? emax - prec); [|exact I].
  destruct (Z.eq_dec e2 ex) as [Eq|Ne]; [right|left; lia].
  split; [exact Eq|].
  assert (e1 = ex) by lia. assert (e2 = e1) by lia.
  assert (Zpos p2 = Zpos pr).
  { rewrite M2, H0, Z.sub_diag, Z.pow_0_r, Z.div_1_r. reflexivity. }
  assert (Zpos mx <= m1).
  { rewrite M1. apply Z.div_le_lower_bound; [exact P1|]. rewrite H. lia. }
  lia.
Qed.

Lemma SFleb_finite (mx my : positive) (ex ey : Z) :
  SFleb (S754_finite false mx ex) (S754_finite false my ey) = true <->
  ex < ey \/ (ex = ey /\ (mx <= my)%positive).
Proof.
  unfold SFleb, SFcompare. destruct (Z.compare_spec ex ey) as [E|L|G].
  - change (Pos.compare_cont Eq mx my) with (Pos.compare mx my).
    destruct (Pos.compare_spec mx my); split; intros K; try lia;
      try discriminate; try reflexivity; right; split; lia.
  - split; auto.
  - split; [discriminate | lia].
Qed.

Lemma SFleb_refl (x : spec_float) : nonneg_sf x = true -> SFleb x x = true.
Proof.
  destruct x as [s|[|]| |[|] m e]; simpl; try discriminate; try reflexivity.
  intros _. apply SFleb_finite. right. split; lia.
Qed.

Lemma SFleb_nonneg (x y : spec_float) :
  nonneg_sf x = true -> SFleb x y = true -> nonneg_sf y = true.
Proof.
  destruct x as [s|[|]| |[|] m e]; simpl; try discriminate;
    destruct y as [t|[|]| |[|] n f]; simpl; try discriminate; reflexivity.
Qed.

Lemma SFleb_trans (x y z : spec_float) :
  nonneg_sf x = true -> SFleb x y = true -> SFleb y z = true ->
  SFleb x z = true.
Proof.
  intros Nx Hxy Hyz. assert (Ny := SFleb_nonneg _ _ Nx Hxy).
  assert (Nz := SFleb_nonneg _ _ Ny Hyz).
  destruct x as [s|[|]| |[|] m e]; try discriminate;
    destruct y as [t|[|]| |[|] n f]; try discriminate;
    destruct z as [u|[|]| |[|] o g]; try discriminate; try reflexivity.
  apply SFleb_finite in Hxy, Hyz. apply SFleb_finite. lia.
Qed.

Lemma SF64add_lower (x y : spec_float) :
  valid_binary x = true -> valid_binary y = true ->
  nonneg_sf x = true -> nonneg_sf y = true ->
  nonneg_sf (SF64add x y) = true /\ SFleb x (SF64add x y) = true.
Proof.
  intros Vx Vy Nx Ny.
  destruct x as [s|[|]| |[|] mx ex]; try discriminate;
    destruct y as [t|[|]| |[|] my ey]; try discriminate;
    try (split; reflexivity);
    try (destruct s, t; split; reflexivity);
    try (split; [reflexivity | apply SFleb_finite; right; split; lia]).
  unfold SF64add, SFadd. set (ez := Z.min ex ey).
  simpl in Vx, Vy. unfold bounded, canonical_mantissa in Vx, Vy.
  apply andb_true_iff in Vx, Vy. destruct Vx as [Cx _], Vy as [Cy _].
  apply Z.eqb_eq in Cx, Cy. rewrite fexp_eq, Zdigits2_log2 in Cx, Cy.
  destruct (shl_align_le mx ex ez) as [_ Ax]; [unfold ez; lia|].
  destruct (shl_align_le my ey ez) as [_ Ay]; [unfold ez; lia|].
  set (a := fst (shl_align mx ex ez)) in *.
  set (b := fst (shl_align my ey ez)) in *.
  unfold cond_Zopp. change (Zpos a + Zpos b) with (Zpos (a + b)).
  unfold binary_normalize, binary_round.
  assert (Px : 0 < 2 ^ (ex - ez)) by (apply Z.pow_pos_nonneg; unfold ez; lia).
  assert (La : Z.log2 (Zpos a) = ex - ez + Z.log2 (Zpos mx)).
  { rewrite Ax. apply Z.log2_mul_pow2; [reflexivity | unfold ez; lia]. }
  assert (Lab : Z.log2 (Zpos a) <= Z.log2 (Zpos (a + b)))
    by (apply Z.log2_le_mono; lia).
  assert (F : ex <= fexp prec emax (Zpos (digits2_pos (a + b)) + ez)).
  { rewrite fexp_eq, Zdigits2_log2. lia. }
  rewrite shl_align_ge by (unfold ez in *; lia).
  assert (R : match binary_round_aux prec emax false (Zpos (a + b)) ez
                      loc_Exact with
              | S754_finite false m e =>
                  ex < e \/ (e = ex /\ (mx <= m)%positive)
              | S754_infinity false => True
              | _ => False
              end).
  { apply binary_round_aux_lower; [unfold ez; lia | unfold ez; lia | exact F|].
    lia. }
  destruct (binary_round_aux prec emax false (Zpos (a + b)) ez loc_Exact)
    as [u|[|]| |[|] m e]; try contradiction; try (split; reflexivity).
  split; [reflexivity|]. apply SFleb_finite. lia.
Qed.

Lemma leb_zero (x : float) : (0 <=? x)%float = nonneg_sf (Prim2SF x).
Proof.
  rewrite leb_spec. change (Prim2SF 0) with (S754_zero false).
  destruct (Prim2SF x) as [s|[|]| |[|] m e]; reflexivity.
Qed.

(** Adding a non-negative number to a non-negative number: the sum is
    non-negative and not below the first. *)
Lemma float_add_lower (x y : float) :
  (0 <=? x)%float = true -> (0 <=? y)%float = true ->
  (0 <=? x + y)%float = true /\ (x <=? x + y)%float = true.
Proof.
  rewrite !leb_zero, leb_spec, add_spec. intros Nx Ny.
  apply SF64add_lower; auto using Prim2SF_valid.
Qed.

Lemma float_leb_refl (x : float) :
  (0 <=? x)%float = true -> (x <=? x)%float = true.
Proof. rewrite leb_zero, leb_spec. apply SFleb_refl. Qed.

Lemma float_leb_trans (x y z : float) :
  (0 <=? x)%float = true -> (x <=? y)%float = true ->
  (y <=? z)%float = true -> (x <=? z)%float = true.
Proof. rewrite leb_zero, !leb_spec. apply SFleb_trans. Qed.

(** The float of a non-negative integer is non-negative. *)
Lemma shr_m_nonneg (mrs : shr_record) (e n : Z) :
  0 <= shr_m mrs -> 0 <= shr_m (fst (shr mrs e n)).
Proof.
  intros H. unfold shr. destruct n as [|p|p]; simpl; try exact H.
  rewrite iter_shr_1_m by exact H. apply Z.div_pos; lia.
Qed.

Lemma binary_round_aux_nonneg (m e : Z) :
  0 <= m -> nonneg_sf (binary_round_aux prec emax false m e loc_Exact) = true.
Proof.
  intros H. unfold binary_round_aux, shr_fexp.
  assert (H1 := shr_m_nonneg (shr_record_of_loc m loc_Exact) e
                  (fexp prec emax (Zdigits2 m + e) - e) H).
  destruct (shr (shr_record_of_loc m loc_Exact) e _) as [mrs' e'].
  simpl in H1.
  assert (Rb := round_nearest_even_bounds (shr_m mrs')
                  (loc_of_shr_record mrs')).
  set (mr := round_nearest_even (shr_m mrs') (loc_of_shr_record mrs')) in *.
  assert (H2 := shr_m_nonneg (shr_record_of_loc mr loc_Exact) e'
                  (fexp prec emax (Zdigits2 mr + e') - e')).
  destruct (shr (shr_record_of_loc mr loc_Exact) e' _) as [mrs'' e''].
  simpl in H2. destruct (shr_m mrs'') as [|p|p]; try reflexivity.
  - destruct (e'' <=? emax - prec); reflexivity.
  - lia.
Qed.

Lemma binary_round_nonneg (m : positive) (e : Z) :
  nonneg_sf (binary_round prec emax false m e) = true.
Proof.
  unfold binary_round. destruct (shl_align m e _) as [mz ez].
  apply binary_round_aux_nonneg. lia.
Qed.

Lemma binary_normalize_nonneg (z : Z) :
  0 <= z -> nonneg_sf (binary_normalize prec emax z 0 false) = true.
Proof.
  intros H. destruct z as [|p|p]; simpl; [reflexivity| |lia].
  apply binary_round_nonneg.
Qed.

Lemma SF2Prim_nonneg (x : spec_float) :
  nonneg_sf x = true -> (0 <=? SF2Prim x)%float = true.
Proof.
  destruct x as [[|]|[|]| |[|] m e]; try discriminate; try reflexivity.
  intros _. rewrite leb_zero. unfold SF2Prim.
  rewrite Z_ldexp_spec, of_uint63_spec. unfold SFldexp.
  assert (N := binary_normalize_nonneg (Uint63.to_Z (Uint63.of_Z (Zpos m)))
                 (proj1 (Uint63.to_Z_bounded _))).
  destruct (binary_normalize prec emax _ 0 false) as [s|s| |s m' e'];
    try exact N.
  destruct s; [discriminate|]. apply binary_round_nonneg.
Qed.

(** ** The two endpoints as instances of the loop *)

Lemma player_step_loop d e :
  Player.step d e = Loop.step Player.key player_new Player.count d e.
Proof.
  unfold Player.step, Loop.step, Player.key, player_new.
  destruct (truthy (ev_player e)); simpl; [|reflexivity].
  destruct (hash (ev_player e)); reflexivity.
Qed.

Lemma player_scan_loop events : forall d,
  Player.scan d events = Loop.scan Player.key player_new Player.count d events.
Proof.
  induction events as [|e events IH]; intros d; simpl; [reflexivity|].
  rewrite player_step_loop.
  destruct (Loop.step Player.key player_new Player.count d e); simpl; auto.
Qed.

Lemma team_step_loop d e :
  Team.step d e = Loop.step Team.key team_new Team.count d e.
Proof.
  unfold Team.step, Loop.step, Team.key, team_new.
  destruct (truthy (ev_team e)); simpl; [|reflexivity].
  destruct (hash (ev_team e)); reflexivity.
Qed.

Lemma team_scan_loop events : forall d,
  Team.scan d events = Loop.scan Team.key team_new Team.count d events.
Proof.
  induction events as [|e events IH]; intros d; simpl; [reflexivity|].
  rewrite team_step_loop.
  destruct (Loop.step Team.key team_new Team.count d e); simpl; auto.
Qed.

(** The key of a row is the key of its actor, which is true. *)
Lemma actor_key_inv (a : actor) k :
  (if negb (truthy a) then Ok None else k' <- hash a ;; Ok (Some k')) =
    Ok (Some k) ->
  truthy a = true /\ hash a = Ok k.
Proof.
  destruct (truthy a); simpl; [|discriminate].
  destruct (hash a) as [k'|x]; simpl; [|discriminate].
  intros [= ->]. auto.
Qed.

Lemma player_key_inv e k :
  Player.key e = Ok (Some k) ->
  truthy (ev_player e) = true /\ hash (ev_player e) = Ok k.
Proof. apply actor_key_inv. Qed.

Lemma team_key_inv e k :
  Team.key e = Ok (Some k) ->
  truthy (ev_team e) = true /\ hash (ev_team e) = Ok k.
Proof. apply actor_key_inv. Qed.

(** Actors with the same key are the same, and the actor of a key that
    is a string is that string. *)
Lemma hash_inj a b k : hash a = Ok k -> hash b = Ok k -> a = b.
Proof.
  destruct a, b; simpl; try discriminate; try reflexivity;
    intros [= <-]; try discriminate; intros [= ->]; reflexivity.
Qed.

Lemma hash_str a s : hash a = Ok (HStr s) <-> a = AStr s.
Proof.
  split; [|intros ->; reflexivity].
  destruct a; simpl; try discriminate. intros [= ->]. reflexivity.
Qed.

Lemma key_of_hash a k : hash a = Ok k -> key_of a = k.
Proof. unfold key_of. now intros ->. Qed.

Lemma get_player_stats_Success events data :
  Player.get_player_stats events = Success data <->
  exists d, Player.scan [] events = Ok d /\ data = values d.
Proof.
  unfold Player.get_player_stats. destruct (Player.scan [] events) as [d|x].
  - split; [intros [= <-]; now exists d | intros [d' [[= <-] ->]]; reflexivity].
  - split; [discriminate | intros [d' [H _]]; discriminate].
Qed.

Lemma get_team_stats_Success events data :
  Team.get_team_stats events = Success data <->
  exists d, Team.scan [] events = Ok d /\ data = values d.
Proof.
  unfold Team.get_team_stats. destruct (Team.scan [] events) as [d|x].
  - split; [intros [= <-]; now exists d | intros [d' [[= <-] ->]]; reflexivity].
  - split; [discriminate | intros [d' [H _]]; discriminate].
Qed.

(** Case analysis of a loop body: every [match] and [if] of the goal and
    of the hypotheses is split, results of [Ok] are identified. *)
Ltac break_match :=
  match goal with
  | H : context [match ?x with _ => _ end] |- _ => destruct x eqn:?
  | |- context [match ?x with _ => _ end] => destruct x eqn:?
  end.

Ltac ok_inv :=
  repeat match goal with
  | H : Ok _ = Ok _ |- _ => injection H as H; try subst
  | H : Raise _ = Ok _ |- _ => discriminate H
  | H : Ok _ = Raise _ |- _ => discriminate H
  end.

Ltac count_cases :=
  unfold Player.count, Player.on_shot, Player.on_pass, Player.on_duel,
    Player.on_foul, Team.count, Team.on_shot, Team.on_pass, Team.on_duel,
    Team.on_foul, Py.bind in *;
  repeat (break_match; try discriminate; ok_inv); ok_inv; simpl in *.

(** The name and the team of an entry are never assigned again, and the
    name of an entry is its key. *)
Lemma player_count_name e st st' :
  Player.count e st = Ok st' ->
  Player.name st' = Player.name st /\ Player.team st' = Player.team st.
Proof. intros H. count_cases; auto. Qed.

Lemma team_count_name e st st' :
  Team.count e st = Ok st' -> Team.team st' = Team.team st.
Proof. intros H. count_cases; auto. Qed.

Lemma Forall_trivial {A : Type} (l : list A) : Forall (fun _ => True) l.
Proof. induction l; constructor; auto. Qed.

(** An invariant of the entries that holds of a new entry and is kept by
    the [if]/[elif] chain holds of every entry of the result. *)
Lemma player_scan_invariant (P : hashable -> Player.stats -> Prop) :
  (forall k e, Player.key e = Ok (Some k) ->
     P k (Player.new (ev_player e) e)) ->
  (forall k e st st', P k st -> Player.count e st = Ok st' -> P k st') ->
  forall events d k st,
    Player.scan [] events = Ok d -> lookup k d = Some st -> P k st.
Proof.
  intros Hnew Hcount events d k st Sc L. rewrite player_scan_loop in Sc.
  assert (A : all_entries P d).
  { apply (scan_all_entries _ Player.key player_new Player.count
             (fun _ => True) P)
      with (events := events) (d := []).
    - intros k0 e _ K. exact (Hnew k0 e K).
    - intros k0 e s s' _ Ps C. now apply (Hcount k0 e s s').
    - apply Forall_trivial.
    - intros k0 s. discriminate.
    - exact Sc. }
  exact (A k st L).
Qed.

Lemma team_scan_invariant (P : hashable -> Team.stats -> Prop) :
  (forall k e, Team.key e = Ok (Some k) -> P k (Team.new (ev_team e))) ->
  (forall k e st st', P k st -> Team.count e st = Ok st' -> P k st') ->
  forall events d k st,
    Team.scan [] events = Ok d -> lookup k d = Some st -> P k st.
Proof.
  intros Hnew Hcount events d k st Sc L. rewrite team_scan_loop in Sc.
  assert (A : all_entries P d).
  { apply (scan_all_entries _ Team.key team_new Team.count (fun _ => True) P)
      with (events := events) (d := []).
    - intros k0 e _ K. exact (Hnew k0 e K).
    - intros k0 e s s' _ Ps C. now apply (Hcount k0 e s s').
    - apply Forall_trivial.
    - intros k0 s. discriminate.
    - exact Sc. }
  exact (A k st L).
Qed.

Lemma player_scan_NoDup events d :
  Player.scan [] events = Ok d -> NoDup (keys d).
Proof.
  rewrite player_scan_loop. apply scan_NoDup. constructor.
Qed.

Lemma team_scan_NoDup events d :
  Team.scan [] events = Ok d -> NoDup (keys d).
Proof.
  rewrite team_scan_loop. apply scan_NoDup. constructor.
Qed.

(** The entries of the response are the entries of the keys. *)
Lemma player_data_lookup events data st :
  Player.get_player_stats events = Success data -> In st data ->
  exists d k, Player.scan [] events = Ok d /\ lookup k d = Some st.
Proof.
  intros H I. apply get_player_stats_Success in H. destruct H as [d [Sc ->]].
  destruct (values_lookup _ st d (player_scan_NoDup _ _ Sc) I) as [k L].
  now exists d, k.
Qed.

Lemma team_data_lookup events data st :
  Team.get_team_stats events = Success data -> In st data ->
  exists d k, Team.scan [] events = Ok d /\ lookup k d = Some st.
Proof.
  intros H I. apply get_team_stats_Success in H. destruct H as [d [Sc ->]].
  destruct (values_lookup _ st d (team_scan_NoDup _ _ Sc) I) as [k L].
  now exists d, k.
Qed.

Lemma player_name_key events d k st :
  Player.scan [] events = Ok d -> lookup k d = Some st ->
  truthy (Player.name st) = true /\ hash (Player.name st) = Ok k.
Proof.
  apply (player_scan_invariant
           (fun k st => truthy (Player.name st) = true /\
                        hash (Player.name st) = Ok k)).
  - intros k' e K. now apply player_key_inv.
  - intros k' e s s' N C. apply player_count_name in C.
    destruct C as [-> _]. exact N.
Qed.

Lemma team_name_key events d k st :
  Team.scan [] events = Ok d -> lookup k d = Some st ->
  truthy (Team.team st) = true /\ hash (Team.team st) = Ok k.
Proof.
  apply (team_scan_invariant
           (fun k st => truthy (Team.team st) = true /\
                        hash (Team.team st) = Ok k)).
  - intros k' e K. now apply team_key_inv.
  - intros k' e s s' N C. apply team_count_name in C. now rewrite C.
Qed.

(** ** The worked example *)

(** C1. On the example of three events (a pass, a goal-scoring shot of
    expected-goal value 0.73 and a goal, all of player A of team X), the
    player endpoint answers exactly one entry, for A, with one pass
    attempted and completed, one shot, on target, [xg] 0.73, one goal and
    every other counter zero; the team endpoint answers exactly one entry,
    for X, with the same values in the team's fields. *)
Theorem example_three_events :
  Player.get_player_stats example_events =
    Success [ {| Player.name := AStr "A"; Player.team := AStr "X";
                 Player.minutes_played := 0; Player.goals := 1;
                 Player.assists := 0; Player.shots := 1;
                 Player.shots_on_target := 1; Player.passes_completed := 1;
                 Player.passes_attempted := 1; Player.tackles := 0;
                 Player.interceptions := 0; Player.duels_won := 0;
                 Player.duels_lost := 0; Player.yellow_cards := 0;
                 Player.red_cards := 0; Player.xg := 0.73;
                 Player.xa := 0 |} ] /\
  Team.get_team_stats example_events =
    Success [ {| Team.team := AStr "X"; Team.goals := 1; Team.shots := 1;
                 Team.shots_on_target := 1; Team.passes_completed := 1;
                 Team.passes_attempted := 1; Team.tackles := 0;
                 Team.interceptions := 0; Team.duels_won := 0;
                 Team.duels_lost := 0; Team.corners := 0; Team.fouls := 0;
                 Team.yellow_cards := 0; Team.red_cards := 0;
                 Team.xg := 0.73 |} ].
Proof. split; vm_compute; reflexivity. Qed.

(** ** Passes completed and attempted *)

(** C4. In every entry of either response, the passes completed are at
    most the passes attempted. *)
Theorem passes_completed_le_attempted (events : list event) :
  (forall data, Player.get_player_stats events = Success data ->
     Forall (fun st => Player.passes_completed st <= Player.passes_attempted st)
       data) /\
  (forall data, Team.get_team_stats events = Success data ->
     Forall (fun st => Team.passes_completed st <= Team.passes_attempted st)
       data).
Proof.
  split; intros data H; apply Forall_forall; intros st I.
  - destruct (player_data_lookup _ _ _ H I) as [d [k [Sc L]]].
    clear H I. revert events d k st Sc L.
    apply (player_scan_invariant
             (fun _ st =>
                Player.passes_completed st <= Player.passes_attempted st)).
    + intros; simpl; lia.
    + intros k e st st' Le C. count_cases; lia.
  - destruct (team_data_lookup _ _ _ H I) as [d [k [Sc L]]].
    clear H I. revert events d k st Sc L.
    apply (team_scan_invariant
             (fun _ st =>
                Team.passes_completed st <= Team.passes_attempted st)).
    + intros; simpl; lia.
    + intros k e st st' Le C. count_cases; lia.
Qed.

Lemma passes_completed_le_attempted_witness :
  Forall (fun st => Player.passes_completed st <= Player.passes_attempted st)
    [Player.Stats (AStr "A") (AStr "X") 0 1 0 1 1 1 1 0 0 0 0 0 0 0.73 0] /\
  Forall (fun st => Team.passes_completed st <= Team.passes_attempted st)
    [Team.Stats (AStr "X") 1 1 1 1 1 0 0 0 0 0 0 0 0 0.73].
Proof.
  destruct (passes_completed_le_attempted example_events) as [HP HT].
  split; [apply HP | apply HT]; vm_compute; reflexivity.
Defined.

(** ** The first row of an actor *)

Lemma no_rule_type_is rules e s :
  no_rule rules e -> In s rules -> type_is (ev_type e) s = false.
Proof.
  intros N I. specialize (N s I). unfold type_is.
  destruct (ev_type e) as [t|]; [|reflexivity].
  destruct (String.eqb_spec t s); [congruence | reflexivity].
Qed.

Lemma player_count_no_rule e st :
  no_rule player_rules e -> Player.count e st = Ok st.
Proof.
  intros N. unfold Player.count.
  repeat (rewrite (no_rule_type_is player_rules e)
            by (exact N || (simpl; tauto))).
  reflexivity.
Qed.

Lemma team_count_no_rule e st :
  no_rule team_rules e -> Team.count e st = Ok st.
Proof.
  intros N. unfold Team.count.
  repeat (rewrite (no_rule_type_is team_rules e)
            by (exact N || (simpl; tauto))).
  reflexivity.
Qed.

(** A turn of the loop on the first row of an actor. *)
Lemma step_first (S : Type) key new count (d : dict S) e k :
  key e = Ok (Some k) -> mem k d = false ->
  Loop.step key new count d e =
    (st' <- count e (new k e) ;; Ok (add k st' d)).
Proof.
  intros K E. rewrite (step_key _ _ _ _ _ _ _ K).
  unfold Loop.entry, Loop.put. rewrite E.
  unfold mem in E. destruct (lookup k d); [discriminate | reflexivity].
Qed.

(** The loop over rows followed by the first row of an actor. *)
Lemma scan_first (S : Type) key new count (d : dict S) prefix e k :
  Loop.scan key new count [] prefix = Ok d ->
  key e = Ok (Some k) ->
  (forall e', In e' prefix -> key e' <> Ok (Some k)) ->
  Loop.scan key new count [] (prefix ++ [e]) =
    (st' <- count e (new k e) ;; Ok (add k st' d)).
Proof.
  intros Sc K F. rewrite scan_app, Sc. simpl.
  rewrite (step_first S key new count d e k K).
  - destruct (count e (new k e)); reflexivity.
  - apply mem_false_keys. intros I.
    destruct (scan_keys _ _ _ _ _ _ _ _ Sc I) as [[]|[e' [I' K']]].
    exact (F e' I' K').
Qed.

Lemma values_add {V : Type} k (v : V) d :
  values (add k v d) = (values d ++ [v])%list.
Proof. unfold values, add. now rewrite map_app. Qed.

(** C7. When the actor of a row appears for the first time, after the rows
    [prefix], the loop creates the entry of the actor with its identity
    from the row (the name and the team of the player, the name of the
    team) and every counter and sum at zero, and counts the row on that
    entry: the endpoint answers the entries of [prefix] followed by that
    entry.  When the type of the row has no branch in the chain, the entry
    is answered with every counter still at zero. *)
Theorem first_row_creates_entry (prefix : list event) (e : event) :
  (forall data player,
     Player.get_player_stats prefix = Success data ->
     Player.key e = Ok (Some player) ->
     (forall e', In e' prefix -> Player.key e' <> Ok (Some player)) ->
     let created :=
       Player.Stats (ev_player e) (ev_team e) 0 0 0 0 0 0 0 0 0 0 0 0 0 0 0 in
     (forall st', Player.count e created = Ok st' ->
        Player.get_player_stats (prefix ++ [e]) =
          Success (data ++ [st'])) /\
     (no_rule player_rules e ->
      Player.get_player_stats (prefix ++ [e]) =
        Success (data ++ [created]))) /\
  (forall data team,
     Team.get_team_stats prefix = Success data ->
     Team.key e = Ok (Some team) ->
     (forall e', In e' prefix -> Team.key e' <> Ok (Some team)) ->
     let created := Team.Stats (ev_team e) 0 0 0 0 0 0 0 0 0 0 0 0 0 0 in
     (forall st', Team.count e created = Ok st' ->
        Team.get_team_stats (prefix ++ [e]) = Success (data ++ [st'])) /\
     (no_rule team_rules e ->
      Team.get_team_stats (prefix ++ [e]) = Success (data ++ [created]))).
Proof.
  split.
  - intros data k H K F created.
    apply get_player_stats_Success in H. destruct H as [d [Sc ->]].
    rewrite player_scan_loop in Sc.
    assert (A := scan_first _ Player.key player_new Player.count d prefix e
                   k Sc K F).
    rewrite <- player_scan_loop in A. unfold Player.get_player_stats.
    rewrite A. change (player_new k e) with created.
    assert (B : forall st', Player.count e created = Ok st' ->
              match st'0 <- Player.count e created ;; Ok (add k st'0 d) with
              | Ok player_stats => Success (values player_stats)
              | Raise x => Failure x
              end = Success (values d ++ [st'])).
    { intros st' C. rewrite C. simpl. now rewrite values_add. }
    split; [exact B|].
    intros N. apply B. now apply player_count_no_rule.
  - intros data k H K F created.
    apply get_team_stats_Success in H. destruct H as [d [Sc ->]].
    rewrite team_scan_loop in Sc.
    assert (A := scan_first _ Team.key team_new Team.count d prefix e
                   k Sc K F).
    rewrite <- team_scan_loop in A. unfold Team.get_team_stats.
    rewrite A. change (team_new k e) with created.
    assert (B : forall st', Team.count e created = Ok st' ->
              match st'0 <- Team.count e created ;; Ok (add k st'0 d) with
              | Ok team_stats => Success (values team_stats)
              | Raise x => Failure x
              end = Success (values d ++ [st'])).
    { intros st' C. rewrite C. simpl. now rewrite values_add. }
    split; [exact B|].
    intros N. apply B. now apply team_count_no_rule.
Qed.

Lemma no_rule_substitution :
  no_rule player_rules substitution_event /\
  no_rule team_rules substitution_event.
Proof.
  split; intros s I; simpl in I;
    repeat (destruct I as [<-|I]; [discriminate|]); destruct I.
Qed.

Lemma first_row_creates_entry_witness :
  Player.get_player_stats ([yellow_foul] ++ [substitution_event]) =
    Success
      ([Player.Stats (AStr "B") (AStr "Y") 0 0 0 0 0 0 0 0 0 0 0 1 0 0 0] ++
       [Player.Stats (AStr "A") (AStr "X") 0 0 0 0 0 0 0 0 0 0 0 0 0 0 0]) /\
  Team.get_team_stats ([yellow_foul] ++ [substitution_event]) =
    Success
      ([Team.Stats (AStr "Y") 0 0 0 0 0 0 0 0 0 0 1 1 0 0] ++
       [Team.Stats (AStr "X") 0 0 0 0 0 0 0 0 0 0 0 0 0 0]).
Proof.
  destruct (first_row_creates_entry [yellow_foul] substitution_event)
    as [HP HT].
  split.
  - destruct (HP _ (HStr "A") eq_refl eq_refl) as [_ H].
    + intros e' [<-|[]]. discriminate.
    + exact (H (proj1 no_rule_substitution)).
  - destruct (HT _ (HStr "X") eq_refl eq_refl) as [_ H].
    + intros e' [<-|[]]. discriminate.
    + exact (H (proj2 no_rule_substitution)).
Defined.

(** ** Keys of the dictionaries *)

(** C8, on the code: a row without player keeps [nan] in its player cell,
    which is true, so [if not player: continue] does not skip it.  On the
    line-up row of X followed by a pass of A, the player endpoint answers
    an entry named [nan] that no player of a row carries, before the entry
    of A; and a shot without player is counted on that entry.  Likewise a
    row without team makes the team endpoint answer an entry named
    [nan]. *)
Theorem actorless_row_creates_entry :
  Player.get_player_stats [lineup_of_x; pass_of_a] =
    Success
      [Player.Stats numpy_nan (AStr "X") 0 0 0 0 0 0 0 0 0 0 0 0 0 0 0;
       Player.Stats (AStr "A") (AStr "X") 0 0 0 0 0 1 1 0 0 0 0 0 0 0 0] /\
  Player.get_player_stats [lineup_of_x; pass_of_a; shot_of_nobody] =
    Success
      [Player.Stats numpy_nan (AStr "X") 0 0 0 1 0 0 0 0 0 0 0 0 0 0 0;
       Player.Stats (AStr "A") (AStr "X") 0 0 0 0 0 1 1 0 0 0 0 0 0 0 0] /\
  Team.get_team_stats [pass_of_a; row_of_nobody] =
    Success
      [Team.Stats (AStr "X") 0 0 0 1 1 0 0 0 0 0 0 0 0 0;
       Team.Stats numpy_nan 0 0 0 0 0 0 0 0 0 0 0 0 0 0].
Proof. repeat split; vm_compute; reflexivity. Qed.

(** C10. The rows the loop skips are those whose actor is false: missing
    ([None]) or the empty string, both alike, or an empty container; and
    the empty string is never a key of either dictionary nor the name of
    an entry of either response. *)
Theorem empty_name_never_key (events : list event) :
  (forall e, Player.key e = Ok None <->
             ev_player e = ANone \/ ev_player e = AStr "" \/
             ev_player e = AList [] \/ ev_player e = ADict []) /\
  (forall e, Team.key e = Ok None <->
             ev_team e = ANone \/ ev_team e = AStr "" \/
             ev_team e = AList [] \/ ev_team e = ADict []) /\
  (forall player_stats e, ev_player e = AStr "" ->
     Player.step player_stats e = Ok player_stats) /\
  (forall team_stats e, ev_team e = AStr "" ->
     Team.step team_stats e = Ok team_stats) /\
  (forall d, Player.scan [] events = Ok d -> ~ In (HStr "") (keys d)) /\
  (forall d, Team.scan [] events = Ok d -> ~ In (HStr "") (keys d)) /\
  (forall data, Player.get_player_stats events = Success data ->
     Forall (fun st => Player.name st <> AStr "") data) /\
  (forall data, Team.get_team_stats events = Success data ->
     Forall (fun st => Team.team st <> AStr "") data).
Proof.
  assert (skip : forall a : actor,
            (if negb (truthy a) then Ok None
             else k' <- hash a ;; Ok (Some k')) = Ok None <->
            a = ANone \/ a = AStr "" \/ a = AList [] \/ a = ADict []).
  { intros a. destruct a as [|o|s|l|m]; simpl.
    - split; auto.
    - split; [discriminate | intros [H|[H|[H|H]]]; discriminate].
    - destruct (String.eqb_spec s "") as [->|N]; simpl.
      + split; auto.
      + split; [discriminate|].
        intros [H|[H|[H|H]]]; try discriminate. congruence.
    - destruct l; simpl.
      + split; auto.
      + split; [discriminate | intros [H|[H|[H|H]]]; discriminate].
    - destruct m; simpl.
      + split; auto.
      + split; [discriminate | intros [H|[H|[H|H]]]; discriminate]. }
  assert (KP : forall d, Player.scan [] events = Ok d ->
            ~ In (HStr "") (keys d)).
  { intros d Sc I. rewrite player_scan_loop in Sc.
    destruct (scan_keys _ _ _ _ _ _ _ _ Sc I) as [[]|[e [_ K]]].
    apply player_key_inv in K. destruct K as [T H].
    apply hash_str in H. rewrite H in T. discriminate. }
  assert (KT : forall d, Team.scan [] events = Ok d ->
            ~ In (HStr "") (keys d)).
  { intros d Sc I. rewrite team_scan_loop in Sc.
    destruct (scan_keys _ _ _ _ _ _ _ _ Sc I) as [[]|[e [_ K]]].
    apply team_key_inv in K. destruct K as [T H].
    apply hash_str in H. rewrite H in T. discriminate. }
  repeat split; auto.
  - apply skip.
  - apply skip.
  - apply skip.
  - apply skip.
  - intros d e N. unfold Player.step. now rewrite N.
  - intros d e N. unfold Team.step. now rewrite N.
  - intros data H. apply Forall_forall. intros st I E.
    destruct (player_data_lookup _ _ _ H I) as [d [k [Sc L]]].
    destruct (player_name_key _ _ _ _ Sc L) as [T _].
    rewrite E in T. discriminate.
  - intros data H. apply Forall_forall. intros st I E.
    destruct (team_data_lookup _ _ _ H I) as [d [k [Sc L]]].
    destruct (team_name_key _ _ _ _ Sc L) as [T _].
    rewrite E in T. discriminate.
Qed.

Lemma empty_name_never_key_witness :
  Forall (fun st => Player.name st <> AStr "")
    [Player.Stats (AStr "A") (AStr "X") 0 0 0 0 0 1 1 0 0 0 0 0 0 0 0] /\
  Forall (fun st => Team.team st <> AStr "")
    [Team.Stats (AStr "X") 0 0 0 1 1 0 0 0 0 0 0 0 0 0].
Proof.
  destruct (empty_name_never_key nameless_events)
    as [_ [_ [_ [_ [_ [_ [HP HT]]]]]]].
  split; [apply HP | apply HT]; vm_compute; reflexivity.
Defined.

(** ** The duel and pass branches *)

Lemma player_step_key d e k :
  Player.key e = Ok (Some k) ->
  Player.step d e =
    (st' <- Player.count e (Loop.entry player_new d k e) ;;
     Ok (Loop.put k st' d)).
Proof. intros K. rewrite player_step_loop. now apply step_key. Qed.

Lemma team_step_key d e k :
  Team.key e = Ok (Some k) ->
  Team.step d e =
    (st' <- Team.count e (Loop.entry team_new d k e) ;;
     Ok (Loop.put k st' d)).
Proof. intros K. rewrite team_step_loop. now apply step_key. Qed.

(** The loop over rows followed by a row it counts. *)
Lemma player_answers_snoc prefix e d k st' :
  Player.scan [] prefix = Ok d -> Player.key e = Ok (Some k) ->
  Player.count e (Loop.entry player_new d k e) = Ok st' ->
  player_answers (prefix ++ [e]) (Loop.put k st' d).
Proof.
  intros Sc K C.
  assert (A : Player.scan [] (prefix ++ [e]) = Ok (Loop.put k st' d)).
  { rewrite player_scan_loop, scan_app, <- player_scan_loop, Sc. simpl.
    rewrite <- player_step_loop, (player_step_key _ _ _ K), C.
    reflexivity. }
  split; [exact A|]. unfold Player.get_player_stats. now rewrite A.
Qed.

Lemma team_answers_snoc prefix e d k st' :
  Team.scan [] prefix = Ok d -> Team.key e = Ok (Some k) ->
  Team.count e (Loop.entry team_new d k e) = Ok st' ->
  team_answers (prefix ++ [e]) (Loop.put k st' d).
Proof.
  intros Sc K C.
  assert (A : Team.scan [] (prefix ++ [e]) = Ok (Loop.put k st' d)).
  { rewrite team_scan_loop, scan_app, <- team_scan_loop, Sc. simpl.
    rewrite <- team_step_loop, (team_step_key _ _ _ K), C.
    reflexivity. }
  split; [exact A|]. unfold Team.get_team_stats. now rewrite A.
Qed.

(** The two lookups of a sub-object that is missing or a dict, with a
    field that is missing or a dict. *)
Lemma shaped_lookups column field :
  shaped column field = true ->
  get_method (event_get column) = Ok (sub_of column) /\
  get_method (get (sub_of column) field (VDict [])) =
    Ok (inner_of column field).
Proof.
  unfold shaped, inner_of, sub_of, get.
  destruct column as [[| | | | | |sub]|]; simpl; try discriminate.
  - destruct (find field sub) as [[| | | | | |inner]|]; simpl;
      try discriminate; auto.
  - auto.
Qed.

(** C3, on the code.  The duel of a row is read with
    [event.get("duel", {})], which answers [{}] only when the table has no
    duel column at all: then a duel counts as lost, as the claim says.  In
    a table where some row has a duel sub-object, a row without one keeps
    [nan] in the cell, [nan.get] raises [AttributeError], and both
    endpoints fail instead of counting the duel as lost. *)
Theorem duel_without_sub_object_fails :
  Player.get_player_stats [duel_won; duel_bare] = Failure AttributeError /\
  Team.get_team_stats [duel_won; duel_bare] = Failure AttributeError /\
  Player.get_player_stats [duel_no_column] =
    Success
      [Player.Stats (AStr "A") (AStr "X") 0 0 0 0 0 0 0 0 0 0 1 0 0 0 0] /\
  Team.get_team_stats [duel_no_column] =
    Success [Team.Stats (AStr "X") 0 0 0 0 0 0 0 0 1 0 0 0 0 0].
Proof. repeat split; vm_compute; reflexivity. Qed.

Lemma player_count_pass e st pass_event outcome :
  ev_type e = Some "Pass" ->
  get_method (event_get (ev_pass e)) = Ok pass_event ->
  get_method (get pass_event "outcome" (VDict [])) = Ok outcome ->
  Player.count e st =
    let st1 := player_pass_counted (get outcome "name" VNone) st in
    if eq_True (get pass_event "goal_assist" VNone) then
      let st2 := Player.set_assists (Player.assists st1 + 1) st1 in
      match find "statsbomb_xg" pass_event with
      | Some v => x <- float_add (Player.xa st2) v ;; Ok (Player.set_xa x st2)
      | None => Ok st2
      end
    else Ok st1.
Proof.
  intros T P O. unfold Player.count, Player.on_pass. rewrite T. simpl.
  rewrite P. simpl. rewrite O. simpl. unfold player_pass_counted.
  now destruct (eq_str _ "Incomplete").
Qed.

Lemma team_count_pass e st pass_event outcome :
  ev_type e = Some "Pass" ->
  get_method (event_get (ev_pass e)) = Ok pass_event ->
  get_method (get pass_event "outcome" (VDict [])) = Ok outcome ->
  Team.count e st = Ok (team_pass_counted (get outcome "name" VNone) st).
Proof.
  intros T P O. unfold Team.count, Team.on_pass. rewrite T. simpl.
  rewrite P. simpl. rewrite O. simpl. unfold team_pass_counted.
  now destruct (eq_str _ "Incomplete").
Qed.

(** The values equal to [True]: the boolean, and the numbers 1 and 1.0. *)
Lemma eq_True_iff v :
  eq_True v = true <->
  v = VBool true \/ v = VInt 1 \/
  exists f, v = VFloat f /\ (f =? 1)%float = true.
Proof.
  destruct v as [|b|z|f|s|l|m]; simpl;
    try (split; [discriminate|];
         intros [H|[H|[f0 [H _]]]]; discriminate).
  - split; [intros ->; auto|].
    intros [H|[H|[f0 [H _]]]]; try discriminate. now injection H.
  - split; [intros H; apply Z.eqb_eq in H; subst; auto|].
    intros [H|[H|[f0 [H _]]]]; try discriminate. now injection H as ->.
  - split; [intros H; right; right; now exists f|].
    intros [H|[H|[f0 [H E]]]]; try discriminate. now injection H as ->.
Qed.




(** ** Rows the loop bodies accept *)

Lemma number_float_add acc v :
  number v = true <-> exists x, float_add acc v = Ok x.
Proof.
  unfold number, float_add, float_of_int.
  destruct v; simpl; try (split; [discriminate | intros [? H]; discriminate]);
    try (split; eauto).
  - intros H. destruct (binary_normalize prec emax z 0 false); simpl; eauto.
    discriminate.
  - intros [x H].
    destruct (binary_normalize prec emax z 0 false); auto. discriminate.
Qed.

(** The two lookups that open every branch with a sub-object. *)
Lemma nested_bind {A : Type} column field (k : mapping -> mapping -> M A) :
  (sub <- get_method (event_get column) ;;
   inner <- get_method (get sub field (VDict [])) ;; k sub inner) =
  if shaped column field
  then k (sub_of column) (inner_of column field)
  else Raise AttributeError.
Proof.
  unfold shaped, inner_of, sub_of, get.
  destruct column as [[| | | | | |sub]|]; simpl; try reflexivity.
  destruct (find field sub) as [[| | | | | |inner]|]; reflexivity.
Qed.

Lemma xg_number_sub column field :
  shaped column field = true ->
  xg_number column =
    match find "statsbomb_xg" (sub_of column) with
    | Some v => number v
    | None => true
    end.
Proof.
  unfold shaped, xg_number, sub_of.
  destruct column as [[| | | | | |sub]|]; simpl; try discriminate; reflexivity.
Qed.

Lemma goal_assist_sub column field :
  shaped column field = true ->
  goal_assist column = eq_True (get (sub_of column) "goal_assist" VNone).
Proof.
  unfold shaped, goal_assist, sub_of.
  destruct column as [[| | | | | |sub]|]; simpl; try discriminate; reflexivity.
Qed.

Lemma raise_not_ok {A : Type} (x : exn) :
  (exists a : A, Raise x = Ok a) <-> false = true.
Proof. split; [intros [? H]; discriminate | discriminate]. Qed.

Lemma ok_is_ok {A : Type} (a : A) : (exists a', Ok a = Ok a') <-> true = true.
Proof. split; eauto. Qed.

(** Adding a present [statsbomb_xg] to a sum and storing it with [set]. *)
Lemma add_xg_ok {A : Type} (sub : mapping) acc (set : float -> A) (a : A) :
  (exists a',
     match find "statsbomb_xg" sub with
     | Some v => x <- float_add acc v ;; Ok (set x)
     | None => Ok a
     end = Ok a') <->
  match find "statsbomb_xg" sub with
  | Some v => number v
  | None => true
  end = true.
Proof.
  destruct (find "statsbomb_xg" sub) as [v|]; [|apply ok_is_ok].
  rewrite (number_float_add acc v).
  destruct (float_add acc v) as [x|x]; simpl.
  - split; eauto.
  - split; intros [? H]; discriminate.
Qed.

Lemma player_on_shot_ok e st :
  (exists st', Player.on_shot e st = Ok st') <->
  shaped (ev_shot e) "outcome" && xg_number (ev_shot e) = true.
Proof.
  unfold Player.on_shot. rewrite nested_bind.
  destruct (shaped (ev_shot e) "outcome") eqn:Sh; simpl;
    [|apply raise_not_ok].
  rewrite (xg_number_sub _ _ Sh). apply add_xg_ok.
Qed.

Lemma team_on_shot_ok e st :
  (exists st', Team.on_shot e st = Ok st') <->
  shaped (ev_shot e) "outcome" && xg_number (ev_shot e) = true.
Proof.
  unfold Team.on_shot. rewrite nested_bind.
  destruct (shaped (ev_shot e) "outcome") eqn:Sh; simpl;
    [|apply raise_not_ok].
  rewrite (xg_number_sub _ _ Sh). apply add_xg_ok.
Qed.

Lemma player_on_pass_ok e st :
  (exists st', Player.on_pass e st = Ok st') <->
  shaped (ev_pass e) "outcome" &&
  (negb (goal_assist (ev_pass e)) || xg_number (ev_pass e)) = true.
Proof.
  unfold Player.on_pass. rewrite nested_bind.
  destruct (shaped (ev_pass e) "outcome") eqn:Sh; simpl;
    [|apply raise_not_ok].
  rewrite (xg_number_sub _ _ Sh), (goal_assist_sub _ _ Sh).
  destruct (eq_True _); simpl; [apply add_xg_ok | apply ok_is_ok].
Qed.

Lemma team_on_pass_ok e st :
  (exists st', Team.on_pass e st = Ok st') <->
  shaped (ev_pass e) "outcome" = true.
Proof.
  unfold Team.on_pass. rewrite nested_bind.
  destruct (shaped (ev_pass e) "outcome");
    [apply ok_is_ok | apply raise_not_ok].
Qed.

Lemma player_on_duel_ok e st :
  (exists st', Player.on_duel e st = Ok st') <->
  shaped (ev_duel e) "outcome" = true.
Proof.
  unfold Player.on_duel. rewrite nested_bind.
  destruct (shaped (ev_duel e) "outcome"); [|apply raise_not_ok].
  destruct (eq_str _ _); apply ok_is_ok.
Qed.

Lemma team_on_duel_ok e st :
  (exists st', Team.on_duel e st = Ok st') <->
  shaped (ev_duel e) "outcome" = true.
Proof.
  unfold Team.on_duel. rewrite nested_bind.
  destruct (shaped (ev_duel e) "outcome"); [|apply raise_not_ok].
  destruct (eq_str _ _); apply ok_is_ok.
Qed.

Lemma player_on_foul_ok e st :
  (exists st', Player.on_foul e st = Ok st') <->
  shaped (ev_foul_committed e) "card" = true.
Proof.
  unfold Player.on_foul. rewrite nested_bind.
  destruct (shaped (ev_foul_committed e) "card"); [|apply raise_not_ok].
  repeat destruct (eq_str _ _); apply ok_is_ok.
Qed.

Lemma team_on_foul_ok e st :
  (exists st', Team.on_foul e st = Ok st') <->
  shaped (ev_foul_committed e) "card" = true.
Proof.
  unfold Team.on_foul. rewrite nested_bind.
  destruct (shaped (ev_foul_committed e) "card"); [|apply raise_not_ok].
  repeat destruct (eq_str _ _); apply ok_is_ok.
Qed.

Lemma player_count_ok e st :
  (exists st', Player.count e st = Ok st') <-> player_shaped e = true.
Proof.
  unfold Player.count, player_shaped, type_is.
  destruct (ev_type e) as [t|]; [|apply ok_is_ok].
  destruct (String.eqb_spec t "Shot") as [->|_]; [apply player_on_shot_ok|].
  destruct (String.eqb_spec t "Pass") as [->|_]; [apply player_on_pass_ok|].
  destruct (String.eqb_spec t "Goal") as [->|_]; [apply ok_is_ok|].
  destruct (String.eqb_spec t "Tackle") as [->|_]; [apply ok_is_ok|].
  destruct (String.eqb_spec t "Interception") as [->|_]; [apply ok_is_ok|].
  destruct (String.eqb_spec t "Duel") as [->|_]; [apply player_on_duel_ok|].
  destruct (String.eqb_spec t "Foul Committed") as [->|_];
    [apply player_on_foul_ok | apply ok_is_ok].
Qed.

Lemma team_count_ok e st :
  (exists st', Team.count e st = Ok st') <-> team_shaped e = true.
Proof.
  unfold Team.count, team_shaped, type_is.
  destruct (ev_type e) as [t|]; [|apply ok_is_ok].
  destruct (String.eqb_spec t "Shot") as [->|_]; [apply team_on_shot_ok|].
  destruct (String.eqb_spec t "Pass") as [->|_]; [apply team_on_pass_ok|].
  destruct (String.eqb_spec t "Goal") as [->|_]; [apply ok_is_ok|].
  destruct (String.eqb_spec t "Tackle") as [->|_]; [apply ok_is_ok|].
  destruct (String.eqb_spec t "Interception") as [->|_]; [apply ok_is_ok|].
  destruct (String.eqb_spec t "Duel") as [->|_]; [apply team_on_duel_ok|].
  destruct (String.eqb_spec t "Corner") as [->|_]; [apply ok_is_ok|].
  destruct (String.eqb_spec t "Foul Committed") as [->|_];
    [apply team_on_foul_ok | apply ok_is_ok].
Qed.

Lemma get_player_stats_ok events :
  (exists data, Player.get_player_stats events = Success data) <->
  forallb player_accepts events = true.
Proof.
  rewrite <- (scan_ok _ Player.key player_new Player.count player_shaped
                player_count_ok events []).
  rewrite <- player_scan_loop. unfold Player.get_player_stats.
  destruct (Player.scan [] events) as [d|x].
  - split; eauto.
  - split; intros [? H]; discriminate.
Qed.

Lemma get_team_stats_ok events :
  (exists data, Team.get_team_stats events = Success data) <->
  forallb team_accepts events = true.
Proof.
  rewrite <- (scan_ok _ Team.key team_new Team.count team_shaped
                team_count_ok events []).
  rewrite <- team_scan_loop. unfold Team.get_team_stats.
  destruct (Team.scan [] events) as [d|x].
  - split; eauto.
  - split; intros [? H]; discriminate.
Qed.

(** C9, on the code.  The branches read a sub-object with
    [event.get(column, {})] and its fields with [.get(field, {})], so as
    to count a row whose sub-object or field is missing; and in a table
    without shot column a shot is counted, without outcome and without
    [statsbomb_xg].  But in a table where some row has a shot sub-object,
    a shot without one keeps [nan] in the cell: [nan.get] raises
    [AttributeError] and both endpoints answer the failure envelope
    instead of the entries. *)
Theorem missing_sub_object_fails_aggregation :
  Player.get_player_stats [shot_of 0.5; shot_bare] =
    Failure AttributeError /\
  Team.get_team_stats [shot_of 0.5; shot_bare] = Failure AttributeError /\
  Player.get_player_stats [shot_no_column] =
    Success
      [Player.Stats (AStr "A") (AStr "X") 0 0 0 1 0 0 0 0 0 0 0 0 0 0 0] /\
  Team.get_team_stats [shot_no_column] =
    Success [Team.Stats (AStr "X") 0 1 0 0 0 0 0 0 0 0 0 0 0 0].
Proof. repeat split; vm_compute; reflexivity. Qed.

(** ** Reordering the rows *)

(** Whether a row is counted does not depend on the entry. *)
Lemma player_count_total e st st' :
  Player.count e st = Ok st' -> forall t, exists t', Player.count e t = Ok t'.
Proof.
  intros C t. apply player_count_ok. apply (player_count_ok e st). eauto.
Qed.

Lemma team_count_total e st st' :
  Team.count e st = Ok st' -> forall t, exists t', Team.count e t = Ok t'.
Proof.
  intros C t. apply team_count_ok. apply (team_count_ok e st). eauto.
Qed.

(** What a row adds to each counter does not depend on the entry. *)
Lemma player_count_shift e st st' t t' :
  Player.count e st = Ok st' -> Player.count e t = Ok t' ->
  Player.name st' = Player.name st /\ Player.name t' = Player.name t /\
  Player.team st' = Player.team st /\ Player.team t' = Player.team t /\
  Player.minutes_played st' - Player.minutes_played st =
    Player.minutes_played t' - Player.minutes_played t /\
  Player.goals st' - Player.goals st = Player.goals t' - Player.goals t /\
  Player.assists st' - Player.assists st =
    Player.assists t' - Player.assists t /\
  Player.shots st' - Player.shots st = Player.shots t' - Player.shots t /\
  Player.shots_on_target st' - Player.shots_on_target st =
    Player.shots_on_target t' - Player.shots_on_target t /\
  Player.passes_completed st' - Player.passes_completed st =
    Player.passes_completed t' - Player.passes_completed t /\
  Player.passes_attempted st' - Player.passes_attempted st =
    Player.passes_attempted t' - Player.passes_attempted t /\
  Player.tackles st' - Player.tackles st =
    Player.tackles t' - Player.tackles t /\
  Player.interceptions st' - Player.interceptions st =
    Player.interceptions t' - Player.interceptions t /\
  Player.duels_won st' - Player.duels_won st =
    Player.duels_won t' - Player.duels_won t /\
  Player.duels_lost st' - Player.duels_lost st =
    Player.duels_lost t' - Player.duels_lost t /\
  Player.yellow_cards st' - Player.yellow_cards st =
    Player.yellow_cards t' - Player.yellow_cards t /\
  Player.red_cards st' - Player.red_cards st =
    Player.red_cards t' - Player.red_cards t.
Proof.
  intros C1 C2. count_cases; try congruence; repeat split; (reflexivity || lia).
Qed.

Lemma team_count_shift e st st' t t' :
  Team.count e st = Ok st' -> Team.count e t = Ok t' ->
  Team.team st' = Team.team st /\ Team.team t' = Team.team t /\
  Team.goals st' - Team.goals st = Team.goals t' - Team.goals t /\
  Team.shots st' - Team.shots st = Team.shots t' - Team.shots t /\
  Team.shots_on_target st' - Team.shots_on_target st =
    Team.shots_on_target t' - Team.shots_on_target t /\
  Team.passes_completed st' - Team.passes_completed st =
    Team.passes_completed t' - Team.passes_completed t /\
  Team.passes_attempted st' - Team.passes_attempted st =
    Team.passes_attempted t' - Team.passes_attempted t /\
  Team.tackles st' - Team.tackles st = Team.tackles t' - Team.tackles t /\
  Team.interceptions st' - Team.interceptions st =
    Team.interceptions t' - Team.interceptions t /\
  Team.duels_won st' - Team.duels_won st =
    Team.duels_won t' - Team.duels_won t /\
  Team.duels_lost st' - Team.duels_lost st =
    Team.duels_lost t' - Team.duels_lost t /\
  Team.corners st' - Team.corners st = Team.corners t' - Team.corners t /\
  Team.fouls st' - Team.fouls st = Team.fouls t' - Team.fouls t /\
  Team.yellow_cards st' - Team.yellow_cards st =
    Team.yellow_cards t' - Team.yellow_cards t /\
  Team.red_cards st' - Team.red_cards st =
    Team.red_cards t' - Team.red_cards t.
Proof.
  intros C1 C2. count_cases; try congruence; repeat split; (reflexivity || lia).
Qed.

Ltac conjuncts H :=
  lazymatch type of H with
  | _ /\ _ => let H' := fresh H in destruct H as [H' H]; conjuncts H
  | _ => idtac
  end.

Ltac shift_with L C1 C2 :=
  let H := fresh "Sh" in
  assert (H := L _ _ _ _ _ C1 C2); conjuncts H.

Lemma player_count_same e st st' t t' :
  player_same_counts st t ->
  Player.count e st = Ok st' -> Player.count e t = Ok t' ->
  player_same_counts st' t'.
Proof.
  unfold player_same_counts. intros H C1 C2.
  shift_with player_count_shift C1 C2.
  conjuncts H. repeat split; (congruence || lia).
Qed.

Lemma team_count_same e st st' t t' :
  team_same_counts st t ->
  Team.count e st = Ok st' -> Team.count e t = Ok t' ->
  team_same_counts st' t'.
Proof.
  unfold team_same_counts. intros H C1 C2.
  shift_with team_count_shift C1 C2.
  conjuncts H. repeat split; (congruence || lia).
Qed.

Lemma player_count_comm e1 e2 st st1 st12 st2 st21 :
  Player.count e1 st = Ok st1 -> Player.count e2 st1 = Ok st12 ->
  Player.count e2 st = Ok st2 -> Player.count e1 st2 = Ok st21 ->
  player_same_counts st12 st21 /\ Player.team st12 = Player.team st21.
Proof.
  unfold player_same_counts. intros C1 C2 D2 D1.
  shift_with player_count_shift C1 D1. shift_with player_count_shift C2 D2.
  repeat split; (congruence || lia).
Qed.

Lemma team_count_comm e1 e2 st st1 st12 st2 st21 :
  Team.count e1 st = Ok st1 -> Team.count e2 st1 = Ok st12 ->
  Team.count e2 st = Ok st2 -> Team.count e1 st2 = Ok st21 ->
  team_same_counts st12 st21.
Proof.
  unfold team_same_counts. intros C1 C2 D2 D1.
  shift_with team_count_shift C1 D1. shift_with team_count_shift C2 D2.
  repeat split; (congruence || lia).
Qed.

Lemma player_same_counts_refl st : player_same_counts st st.
Proof. unfold player_same_counts. repeat split. Qed.

Lemma player_same_counts_trans a b c :
  player_same_counts a b -> player_same_counts b c -> player_same_counts a c.
Proof.
  unfold player_same_counts. intros H1 H2.
  conjuncts H1. conjuncts H2.
  repeat split; congruence.
Qed.

Lemma team_same_counts_refl st : team_same_counts st st.
Proof. unfold team_same_counts. repeat split. Qed.

Lemma team_same_counts_trans a b c :
  team_same_counts a b -> team_same_counts b c -> team_same_counts a c.
Proof.
  unfold team_same_counts. intros H1 H2.
  conjuncts H1. conjuncts H2.
  repeat split; congruence.
Qed.


(** ** Counters and sums along the rows *)

Lemma player_count_counters e st st' :
  player_counters_nonneg st -> Player.count e st = Ok st' ->
  player_counters_nonneg st' /\ player_counters_le st st'.
Proof.
  unfold player_counters_nonneg, player_counters_le. intros N C.
  conjuncts N. count_cases; repeat split; lia.
Qed.

Lemma team_count_counters e st st' :
  team_counters_nonneg st -> Team.count e st = Ok st' ->
  team_counters_nonneg st' /\ team_counters_le st st'.
Proof.
  unfold team_counters_nonneg, team_counters_le. intros N C.
  conjuncts N. count_cases; repeat split; lia.
Qed.

Lemma float_add_nonneg_value column sub v acc x :
  nonneg_xg column = true ->
  get_method (event_get column) = Ok sub ->
  find "statsbomb_xg" sub = Some v ->
  float_add acc v = Ok x ->
  (0 <=? acc)%float = true ->
  (0 <=? x)%float = true /\ (acc <=? x)%float = true.
Proof.
  unfold nonneg_xg. intros N G F A Pacc.
  destruct column as [[| | | | | |sub']|]; simpl in G; try discriminate;
    injection G as <-; [|discriminate].
  rewrite F in N. destruct v as [|b|z|f|s|l|d]; try discriminate; simpl in A.
  - injection A as <-. apply float_add_lower; [exact Pacc | now destruct b].
  - unfold float_of_int, Py.bind in A. apply Z.leb_le in N.
    assert (Nz := SF2Prim_nonneg _ (binary_normalize_nonneg z N)).
    destruct (binary_normalize prec emax z 0 false) as [s0|s0| |s0 m e];
      cbv beta iota in A; try discriminate; injection A as <-;
      apply float_add_lower; assumption.
  - injection A as <-. now apply float_add_lower.
Qed.

Lemma player_sums_le_refl st : player_sums_nonneg st -> player_sums_le st st.
Proof. intros [H1 H2]. split; now apply float_leb_refl. Qed.

Lemma player_on_shot_sums e st st' :
  nonneg_xg (ev_shot e) = true -> player_sums_nonneg st ->
  Player.on_shot e st = Ok st' ->
  player_sums_nonneg st' /\ player_sums_le st st'.
Proof.
  intros N [Pg Pa] C. unfold Player.on_shot, Py.bind in C.
  destruct (get_method (event_get (ev_shot e))) as [shot|] eqn:G;
    [|discriminate].
  destruct (get_method (get shot "outcome" (VDict []))) as [outcome|];
    [|discriminate].
  cbv zeta in C.
  match type of C with
  | context [find _ _] =>
      match type of C with
      | context [Player.set_xg _ ?s] => set (st1 := s) in C
      end
  end.
  assert (S1 : Player.xg st1 = Player.xg st /\ Player.xa st1 = Player.xa st)
    by (unfold st1; destruct (in_strs _ _); auto).
  destruct S1 as [Sg Sa]. clearbody st1.
  unfold player_sums_nonneg, player_sums_le.
  destruct (find "statsbomb_xg" shot) as [v|] eqn:F.
  - destruct (float_add _ v) as [x|] eqn:A; [|discriminate].
    injection C as <-. rewrite Sg in A.
    destruct (float_add_nonneg_value _ _ _ _ _ N G F A Pg) as [H1 H2].
    simpl. rewrite Sa. auto using float_leb_refl.
  - injection C as <-. rewrite Sg, Sa. auto using float_leb_refl.
Qed.

Lemma player_on_pass_sums e st st' :
  nonneg_xg (ev_pass e) = true -> player_sums_nonneg st ->
  Player.on_pass e st = Ok st' ->
  player_sums_nonneg st' /\ player_sums_le st st'.
Proof.
  intros N [Pg Pa] C. unfold Player.on_pass, Py.bind in C.
  destruct (get_method (event_get (ev_pass e))) as [pass_event|] eqn:G;
    [|discriminate].
  destruct (get_method (get pass_event "outcome" (VDict []))) as [outcome|];
    [|discriminate].
  cbv zeta in C.
  match type of C with
  | context [Player.set_xa _ ?s] => set (st2 := s) in C
  end.
  match type of C with
  | context [if eq_True _ then _ else Ok ?s] => set (st1 := s) in C
  end.
  assert (S1 : Player.xg st1 = Player.xg st /\ Player.xa st1 = Player.xa st)
    by (unfold st1; destruct (negb _); auto).
  assert (S2 : Player.xg st2 = Player.xg st /\ Player.xa st2 = Player.xa st)
    by (unfold st2; destruct (negb _); auto).
  destruct S1 as [Sg1 Sa1], S2 as [Sg2 Sa2]. clearbody st1 st2.
  unfold player_sums_nonneg, player_sums_le.
  destruct (eq_True _).
  - destruct (find "statsbomb_xg" pass_event) as [v|] eqn:F.
    + destruct (float_add _ v) as [x|] eqn:A; [|discriminate].
      injection C as <-. rewrite Sa2 in A.
      destruct (float_add_nonneg_value _ _ _ _ _ N G F A Pa) as [H1 H2].
      simpl. rewrite Sg2. auto using float_leb_refl.
    + injection C as <-. rewrite Sg2, Sa2. auto using float_leb_refl.
  - injection C as <-. rewrite Sg1, Sa1. auto using float_leb_refl.
Qed.

Lemma player_on_duel_sums e st st' :
  Player.on_duel e st = Ok st' ->
  Player.xg st' = Player.xg st /\ Player.xa st' = Player.xa st.
Proof. intros C. count_cases; auto. Qed.

Lemma player_on_foul_sums e st st' :
  Player.on_foul e st = Ok st' ->
  Player.xg st' = Player.xg st /\ Player.xa st' = Player.xa st.
Proof. intros C. count_cases; auto. Qed.

Lemma player_same_sums st st' :
  player_sums_nonneg st ->
  Player.xg st' = Player.xg st /\ Player.xa st' = Player.xa st ->
  player_sums_nonneg st' /\ player_sums_le st st'.
Proof.
  unfold player_sums_nonneg, player_sums_le. intros [Pg Pa] [-> ->].
  auto using float_leb_refl.
Qed.

Lemma player_count_sums e st st' :
  player_adds_nonneg e = true -> player_sums_nonneg st ->
  Player.count e st = Ok st' ->
  player_sums_nonneg st' /\ player_sums_le st st'.
Proof.
  unfold Player.count, player_adds_nonneg, type_is.
  destruct (ev_type e) as [t|];
    [|intros _ P [= <-]; apply player_same_sums; auto].
  destruct (String.eqb_spec t "Shot") as [->|_];
    [intros N P; now apply player_on_shot_sums|].
  destruct (String.eqb_spec t "Pass") as [->|_];
    [intros N P; now apply player_on_pass_sums|].
  intros _ P.
  destruct (String.eqb_spec t "Goal") as [->|_];
    [intros [= <-]; apply player_same_sums; auto|].
  destruct (String.eqb_spec t "Tackle") as [->|_];
    [intros [= <-]; apply player_same_sums; auto|].
  destruct (String.eqb_spec t "Interception") as [->|_];
    [intros [= <-]; apply player_same_sums; auto|].
  destruct (String.eqb_spec t "Duel") as [->|_];
    [intros C; apply player_same_sums; [exact P|];
     now apply player_on_duel_sums with e|].
  destruct (String.eqb_spec t "Foul Committed") as [->|_];
    [intros C; apply player_same_sums; [exact P|];
     now apply player_on_foul_sums with e|].
  intros [= <-]; apply player_same_sums; auto.
Qed.

Lemma team_same_sums st st' :
  team_sums_nonneg st -> Team.xg st' = Team.xg st ->
  team_sums_nonneg st' /\ team_sums_le st st'.
Proof.
  unfold team_sums_nonneg, team_sums_le. intros P ->.
  auto using float_leb_refl.
Qed.

Lemma team_on_shot_sums e st st' :
  nonneg_xg (ev_shot e) = true -> team_sums_nonneg st ->
  Team.on_shot e st = Ok st' ->
  team_sums_nonneg st' /\ team_sums_le st st'.
Proof.
  intros N Pg C. unfold Team.on_shot, Py.bind in C.
  destruct (get_method (event_get (ev_shot e))) as [shot|] eqn:G;
    [|discriminate].
  destruct (get_method (get shot "outcome" (VDict []))) as [outcome|];
    [|discriminate].
  cbv zeta in C.
  match type of C with
  | context [Team.set_xg _ ?s] => set (st1 := s) in C
  end.
  assert (Sg : Team.xg st1 = Team.xg st)
    by (unfold st1; destruct (in_strs _ _); auto).
  clearbody st1. unfold team_sums_nonneg, team_sums_le in *.
  destruct (find "statsbomb_xg" shot) as [v|] eqn:F.
  - destruct (float_add _ v) as [x|] eqn:A; [|discriminate].
    injection C as <-. rewrite Sg in A.
    destruct (float_add_nonneg_value _ _ _ _ _ N G F A Pg) as [H1 H2].
    simpl. auto.
  - injection C as <-. rewrite Sg. auto using float_leb_refl.
Qed.

Lemma team_count_xg e st st' :
  type_is (ev_type e) "Shot" = false -> Team.count e st = Ok st' ->
  Team.xg st' = Team.xg st.
Proof.
  intros T C. unfold Team.count in C. rewrite T in C. count_cases; auto.
Qed.

Lemma team_count_sums e st st' :
  team_adds_nonneg e = true -> team_sums_nonneg st ->
  Team.count e st = Ok st' ->
  team_sums_nonneg st' /\ team_sums_le st st'.
Proof.
  unfold team_adds_nonneg. intros N P C.
  destruct (type_is (ev_type e) "Shot") eqn:T.
  - unfold Team.count in C. rewrite T in C.
    now apply team_on_shot_sums with e.
  - apply team_same_sums; [exact P|]. now apply team_count_xg with e.
Qed.

Lemma forallb_Forall {A : Type} (f : A -> bool) (l : list A) :
  forallb f l = true -> Forall (fun x => f x = true) l.
Proof. intros H. apply Forall_forall. now apply forallb_forall. Qed.

(** C5, as the code has it.  After every prefix of the rows every counter
    of every entry, player or team, is at least zero and at most its value
    after the whole sequence.  The same holds of the sums [xg] and [xa]
    when every [statsbomb_xg] added along the rows is a number not below
    zero. *)
Theorem counters_never_decrease (prefix rest : list event) :
  (forall d', Player.scan [] (prefix ++ rest) = Ok d' ->
     exists d, Player.scan [] prefix = Ok d /\
       forall k st, lookup k d = Some st ->
         player_counters_nonneg st /\
         exists st', lookup k d' = Some st' /\ player_counters_le st st') /\
  (forall d', Team.scan [] (prefix ++ rest) = Ok d' ->
     exists d, Team.scan [] prefix = Ok d /\
       forall k st, lookup k d = Some st ->
         team_counters_nonneg st /\
         exists st', lookup k d' = Some st' /\ team_counters_le st st') /\
  (forall d', Player.scan [] (prefix ++ rest) = Ok d' ->
     forallb player_adds_nonneg (prefix ++ rest) = true ->
     exists d, Player.scan [] prefix = Ok d /\
       forall k st, lookup k d = Some st ->
         player_sums_nonneg st /\
         exists st', lookup k d' = Some st' /\ player_sums_le st st') /\
  (forall d', Team.scan [] (prefix ++ rest) = Ok d' ->
     forallb team_adds_nonneg (prefix ++ rest) = true ->
     exists d, Team.scan [] prefix = Ok d /\
       forall k st, lookup k d = Some st ->
         team_sums_nonneg st /\
         exists st', lookup k d' = Some st' /\ team_sums_le st st').
Proof.
  split; [|split; [|split]].
  - intros d' Sc. rewrite !player_scan_loop in *.
    apply (scan_prefix_related _ Player.key player_new Player.count
             (fun _ => True) (fun _ => player_counters_nonneg)
             player_counters_le) with (rest := rest);
      auto using Forall_trivial.
    + intros. unfold player_counters_nonneg. simpl. lia.
    + intros k e st st' _ N C. now apply (player_count_counters e st st').
    + intros k st N. unfold player_counters_le. lia.
    + unfold player_counters_le. intros a b c H1 H2. lia.
    + intros k e st st' _ N C. now apply (player_count_counters e st st').
  - intros d' Sc. rewrite !team_scan_loop in *.
    apply (scan_prefix_related _ Team.key team_new Team.count
             (fun _ => True) (fun _ => team_counters_nonneg)
             team_counters_le) with (rest := rest);
      auto using Forall_trivial.
    + intros. unfold team_counters_nonneg. simpl. lia.
    + intros k e st st' _ N C. now apply (team_count_counters e st st').
    + intros k st N. unfold team_counters_le. lia.
    + unfold team_counters_le. intros a b c H1 H2. lia.
    + intros k e st st' _ N C. now apply (team_count_counters e st st').
  - intros d' Sc F. apply forallb_Forall in F. rewrite !player_scan_loop in *.
    destruct (scan_prefix_related _ Player.key player_new Player.count
                (fun e => player_adds_nonneg e = true)
                (fun _ => player_sums_nonneg)
                (fun a b => player_sums_nonneg a /\ player_sums_le a b))
      with (prefix := prefix) (rest := rest) (d' := d') as [d [Sp H]];
      auto.
    + intros. split; reflexivity.
    + intros k e st st' q N C. now apply (player_count_sums e st st').
    + intros k st N. split; [exact N | now apply player_sums_le_refl].
    + intros a b c [[Na1 Na2] [H1 H2]] [_ [H3 H4]].
      split; [now split|].
      split; [now apply float_leb_trans with (2 := H1)
             | now apply float_leb_trans with (2 := H2)].
    + intros k e st st' q N C. split; [exact N|].
      now apply (player_count_sums e st st').
    + exists d. split; [exact Sp|]. intros k st L.
      destruct (H k st L) as [N [st' [L' [_ Le]]]]. eauto.
  - intros d' Sc F. apply forallb_Forall in F. rewrite !team_scan_loop in *.
    destruct (scan_prefix_related _ Team.key team_new Team.count
                (fun e => team_adds_nonneg e = true)
                (fun _ => team_sums_nonneg)
                (fun a b => team_sums_nonneg a /\ team_sums_le a b))
      with (prefix := prefix) (rest := rest) (d' := d') as [d [Sp H]];
      auto.
    + intros. reflexivity.
    + intros k e st st' q N C. now apply (team_count_sums e st st').
    + intros k st N. split; [exact N | now apply float_leb_refl].
    + intros a b c [Na H1] [_ H2].
      split; [exact Na | now apply float_leb_trans with (2 := H1)].
    + intros k e st st' q N C. split; [exact N|].
      now apply (team_count_sums e st st').
    + exists d. split; [exact Sp|]. intros k st L.
      destruct (H k st L) as [N [st' [L' [_ Le]]]]. eauto.
Qed.

Lemma counters_never_decrease_witness :
  player_counters_le
    (Player.Stats (AStr "A") (AStr "X") 0 0 0 1 1 1 1 0 0 0 0 0 0 0.73 0)
    (Player.Stats (AStr "A") (AStr "X") 0 1 0 1 1 1 1 0 0 0 0 0 0 0.73 0) /\
  player_sums_le
    (Player.Stats (AStr "A") (AStr "X") 0 0 0 1 1 1 1 0 0 0 0 0 0 0.73 0)
    (Player.Stats (AStr "A") (AStr "X") 0 1 0 1 1 1 1 0 0 0 0 0 0 0.73 0).
Proof.
  destruct (counters_never_decrease (firstn 2 example_events)
              (skipn 2 example_events)) as [HC [_ [HS _]]].
  split.
  - destruct (HC _ eq_refl) as [d [Sp H]]. injection Sp as <-.
    destruct (H (HStr "A") _ eq_refl) as [_ [st' [L Le]]]. injection L as <-.
    exact Le.
  - destruct (HS _ eq_refl eq_refl) as [d [Sp H]]. injection Sp as <-.
    destruct (H (HStr "A") _ eq_refl) as [_ [st' [L Le]]]. injection L as <-.
    exact Le.
Defined.

(** C5, as stated, fails on the sums: a negative [statsbomb_xg] makes [xg]
    negative, and makes it decrease when it follows other shots. *)
Lemma negative_xg_breaks_bounds :
  Player.get_player_stats [shot_of (-0.5)] =
    Success [Player.Stats (AStr "A") (AStr "X") 0 0 0 1 0 0 0 0 0 0 0 0 0
               (-0.5) 0] /\
  Team.get_team_stats [shot_of (-0.5)] =
    Success [Team.Stats (AStr "X") 0 1 0 0 0 0 0 0 0 0 0 0 0 (-0.5)] /\
  (0 <=? -0.5)%float = false /\
  Player.get_player_stats [shot_of 0.5] =
    Success [Player.Stats (AStr "A") (AStr "X") 0 0 0 1 0 0 0 0 0 0 0 0 0
               0.5 0] /\
  Player.get_player_stats [shot_of 0.5; shot_of (-0.5)] =
    Success [Player.Stats (AStr "A") (AStr "X") 0 0 0 2 0 0 0 0 0 0 0 0 0
               0 0] /\
  Team.get_team_stats [shot_of 0.5] =
    Success [Team.Stats (AStr "X") 0 1 0 0 0 0 0 0 0 0 0 0 0 0.5] /\
  Team.get_team_stats [shot_of 0.5; shot_of (-0.5)] =
    Success [Team.Stats (AStr "X") 0 2 0 0 0 0 0 0 0 0 0 0 0 0] /\
  (0.5 <=? 0)%float = false.
Proof. repeat split; vm_compute; reflexivity. Qed.



(** * Properties of the other functions *)

(** ** The order of positive binary64 numbers *)

Lemma ltb_zero (x : float) : (0 <? x)%float = pos_sf (Prim2SF x).
Proof.
  rewrite ltb_spec. change (Prim2SF 0) with (S754_zero false).
  destruct (Prim2SF x) as [s|[|]| |[|] m e]; reflexivity.
Qed.

Lemma pos_nonneg_sf (x : spec_float) : pos_sf x = true -> nonneg_sf x = true.
Proof. destruct x as [s|[|]| |[|] m e]; simpl; congruence. Qed.

Lemma float_pos_nonneg (x : float) :
  (0 <? x)%float = true -> (0 <=? x)%float = true.
Proof. rewrite ltb_zero, leb_zero. apply pos_nonneg_sf. Qed.

Lemma SFltb_finite (mx my : positive) (ex ey : Z) :
  SFltb (S754_finite false mx ex) (S754_finite false my ey) = true <->
  ex < ey \/ (ex = ey /\ (mx < my)%positive).
Proof.
  unfold SFltb, SFcompare. destruct (Z.compare_spec ex ey) as [E|L|G].
  - change (Pos.compare_cont Eq mx my) with (Pos.compare mx my).
    destruct (Pos.compare_spec mx my); split; intros K; try lia;
      try discriminate; try reflexivity; right; split; lia.
  - split; auto.
  - split; [discriminate | lia].
Qed.

Lemma SFltb_SFleb (x y : spec_float) : SFltb x y = true -> SFleb x y = true.
Proof.
  unfold SFltb, SFleb. destruct (SFcompare x y) as [[| |]|]; congruence.
Qed.

Lemma SFltb_false_SFleb (x y : spec_float) :
  pos_sf x = true -> pos_sf y = true ->
  SFltb x y = false -> SFleb y x = true.
Proof.
  destruct x as [s|[|]| |[|] m e]; try discriminate;
    destruct y as [t|[|]| |[|] n f]; try discriminate; try reflexivity.
  intros _ _ H. apply SFleb_finite.
  assert (N : ~ (e < f \/ (e = f /\ (m < n)%positive))).
  { intros K. apply SFltb_finite in K. congruence. }
  lia.
Qed.

Lemma SFleb_antisym (x y : spec_float) :
  pos_sf x = true -> pos_sf y = true ->
  SFleb x y = true -> SFleb y x = true -> x = y.
Proof.
  destruct x as [s|[|]| |[|] m e]; try discriminate;
    destruct y as [t|[|]| |[|] n f]; try discriminate; try reflexivity.
  intros _ _ H1 H2. apply SFleb_finite in H1, H2.
  assert (e = f) by lia. assert (m = n) by lia. congruence.
Qed.

Lemma float_ltb_leb (x y : float) :
  (x <? y)%float = true -> (x <=? y)%float = true.
Proof. rewrite ltb_spec, leb_spec. apply SFltb_SFleb. Qed.

Lemma float_ltb_false_leb (x y : float) :
  (0 <? x)%float = true -> (0 <? y)%float = true ->
  (x <? y)%float = false -> (y <=? x)%float = true.
Proof. rewrite !ltb_zero, ltb_spec, leb_spec. apply SFltb_false_SFleb. Qed.

Lemma float_leb_antisym (x y : float) :
  (0 <? x)%float = true -> (0 <? y)%float = true ->
  (x <=? y)%float = true -> (y <=? x)%float = true -> x = y.
Proof.
  rewrite !ltb_zero, !leb_spec. intros Px Py H1 H2.
  apply Prim2SF_inj. now apply SFleb_antisym.
Qed.

(** ** Ratings of a player *)

Lemma ratings_of_pos matches :
  Forall (fun r => (0 <? r)%float = true) (Ratings.ratings_of matches).
Proof.
  induction matches as [|m matches IH]; simpl; [constructor|].
  destruct (Ratings.rating m) as [r|]; [|exact IH].
  destruct (0 <? r)%float eqn:P; [constructor|]; assumption.
Qed.

Lemma ratings_of_In matches r :
  In r (Ratings.ratings_of matches) <->
  exists m, In m matches /\ Ratings.rating m = Some r /\
            (0 <? r)%float = true.
Proof.
  induction matches as [|m matches IH]; simpl.
  - split; [tauto | intros [? [[] _]]].
  - destruct (Ratings.rating m) as [r0|] eqn:R.
    + destruct (0 <? r0)%float eqn:P; simpl; rewrite IH; split.
      * intros [<-|[m' [I H]]]; eauto.
      * intros [m' [[<-|I] [R' P']]]; [left; congruence | eauto].
      * intros [m' [I H]]; eauto.
      * intros [m' [[<-|I] [R' P']]]; [congruence | eauto].
    + rewrite IH. split.
      * intros [m' [I H]]; eauto.
      * intros [m' [[<-|I] [R' P']]]; [congruence | eauto].
Qed.

Lemma ratings_of_filter matches :
  Ratings.ratings_of (filter Ratings.rated matches) =
  Ratings.ratings_of matches.
Proof.
  induction matches as [|m matches IH]; simpl; [reflexivity|].
  unfold Ratings.rated at 1. destruct (Ratings.rating m) as [r|] eqn:R.
  - destruct (0 <? r)%float eqn:P; simpl; [|exact IH].
    rewrite R, P, IH. reflexivity.
  - exact IH.
Qed.

Lemma ratings_of_app a b :
  Ratings.ratings_of (a ++ b) =
  (Ratings.ratings_of a ++ Ratings.ratings_of b)%list.
Proof.
  induction a as [|m a IH]; simpl; [reflexivity|].
  destruct (Ratings.rating m) as [r|]; [|exact IH].
  destruct (0 <? r)%float; simpl; rewrite IH; reflexivity.
Qed.

Lemma ratings_of_Permutation a b :
  Permutation a b ->
  Permutation (Ratings.ratings_of a) (Ratings.ratings_of b).
Proof.
  induction 1 as [|m a b HP IH|m1 m2 a|a b c H1 IH1 H2 IH2]; simpl.
  - constructor.
  - destruct (Ratings.rating m) as [r|]; [|exact IH].
    destruct (0 <? r)%float; [now constructor | exact IH].
  - destruct (Ratings.rating m1) as [r1|], (Ratings.rating m2) as [r2|];
      try reflexivity;
      try (destruct (0 <? r1)%float); try (destruct (0 <? r2)%float);
      try reflexivity.
    apply perm_swap.
  - now transitivity (Ratings.ratings_of b).
Qed.

Lemma py_max_greatest rest : forall first,
  Forall (fun r => (0 <? r)%float = true) (first :: rest) ->
  greatest (Ratings.py_max first rest) (first :: rest).
Proof.
  unfold Ratings.py_max.
  induction rest as [|y rest IH]; intros first F; simpl.
  - inversion F; subst. split; [now left|].
    intros x [<-|[]]. apply float_leb_refl. now apply float_pos_nonneg.
  - inversion F as [|? ? Pf F']; subst. inversion F' as [|? ? Py F'']; subst.
    destruct (first <? y)%float eqn:L.
    + destruct (IH y F') as [I G]. split; [simpl in *; tauto|].
      intros x [<-|H]; [|now apply G].
      apply float_leb_trans with y;
        [now apply float_pos_nonneg | now apply float_ltb_leb|].
      apply G. now left.
    + destruct (IH first (Forall_cons _ Pf F'')) as [I G].
      split; [simpl in *; tauto|].
      intros x [<-|[<-|H]]; [apply G; now left| |apply G; now right].
      apply float_leb_trans with first;
        [now apply float_pos_nonneg | now apply float_ltb_false_leb|].
      apply G. now left.
Qed.

Lemma py_min_least rest : forall first,
  Forall (fun r => (0 <? r)%float = true) (first :: rest) ->
  least (Ratings.py_min first rest) (first :: rest).
Proof.
  unfold Ratings.py_min.
  induction rest as [|y rest IH]; intros first F; simpl.
  - inversion F; subst. split; [now left|].
    intros x [<-|[]]. apply float_leb_refl. now apply float_pos_nonneg.
  - inversion F as [|? ? Pf F']; subst. inversion F' as [|? ? Py F'']; subst.
    destruct (y <? first)%float eqn:L.
    + destruct (IH y F') as [I G]. split; [simpl in *; tauto|].
      assert (Pm : (0 <? fold_left
                     (fun minitem item =>
                        if (item <? minitem)%float then item else minitem)
                     rest y)%float = true).
      { rewrite Forall_forall in F'. apply F'. exact I. }
      intros x [<-|H]; [|now apply G].
      apply float_leb_trans with y;
        [now apply float_pos_nonneg | apply G; now left
        | now apply float_ltb_leb].
    + destruct (IH first (Forall_cons _ Pf F'')) as [I G].
      assert (Pm : (0 <? fold_left
                     (fun minitem item =>
                        if (item <? minitem)%float then item else minitem)
                     rest first)%float = true).
      { assert (F1 := Forall_cons _ Pf F''). rewrite Forall_forall in F1.
        apply F1. exact I. }
      split; [simpl in *; tauto|].
      intros x [<-|[<-|H]]; [apply G; now left| |apply G; now right].
      apply float_leb_trans with first;
        [now apply float_pos_nonneg | apply G; now left
        | now apply float_ltb_false_leb].
Qed.

Lemma greatest_unique l m m' :
  Forall (fun r => (0 <? r)%float = true) l ->
  greatest m l -> greatest m' l -> m = m'.
Proof.
  intros F [I G] [I' G']. rewrite Forall_forall in F.
  apply float_leb_antisym; auto.
Qed.

Lemma least_unique l m m' :
  Forall (fun r => (0 <? r)%float = true) l ->
  least m l -> least m' l -> m = m'.
Proof.
  intros F [I G] [I' G']. rewrite Forall_forall in F.
  apply float_leb_antisym; auto.
Qed.

(** The result by the ratings that count. *)
Lemma calculate_by_ratings matches :
  Ratings.calculate_player_stats matches =
  match Ratings.ratings_of matches with
  | first :: rest =>
      Ratings.Stats (Ratings.py_max first rest) (Ratings.py_min first rest)
        0 0
  | [] => Ratings.Stats 0 0 0 0
  end.
Proof.
  destruct matches as [|m matches]; [reflexivity|].
  unfold Ratings.calculate_player_stats.
  destruct (Ratings.ratings_of (m :: matches)); reflexivity.
Qed.

(** X1. The ratings [calculate_player_stats] reports are ordered: the worst
    is not below zero and the best is not below the worst, whatever the
    matches. *)
Theorem ratings_ordered (matches : list Ratings.match_stat) :
  let s := Ratings.calculate_player_stats matches in
  (0 <=? Ratings.worst_rating s)%float = true /\
  (Ratings.worst_rating s <=? Ratings.best_rating s)%float = true.
Proof.
  cbv zeta. rewrite calculate_by_ratings.
  assert (F := ratings_of_pos matches).
  destruct (Ratings.ratings_of matches) as [|first rest]; simpl;
    [split; reflexivity|].
  destruct (py_max_greatest rest first F) as [IM GM].
  destruct (py_min_least rest first F) as [Im Gm].
  rewrite Forall_forall in F. split.
  - apply float_pos_nonneg. now apply F.
  - apply float_leb_trans with first.
    + apply float_pos_nonneg. now apply F.
    + apply Gm. now left.
    + apply GM. now left.
Qed.

(** X2. Every positive rating of a match lies between the worst and the
    best rating reported, and when there is one, the best and the worst
    reported are each the rating of some match. *)
Theorem ratings_enclose (matches : list Ratings.match_stat)
    (m : Ratings.match_stat) (r : float) :
  In m matches -> Ratings.rating m = Some r -> (0 <? r)%float = true ->
  let s := Ratings.calculate_player_stats matches in
  (Ratings.worst_rating s <=? r)%float = true /\
  (r <=? Ratings.best_rating s)%float = true /\
  (exists m1, In m1 matches /\
              Ratings.rating m1 = Some (Ratings.best_rating s)) /\
  (exists m2, In m2 matches /\
              Ratings.rating m2 = Some (Ratings.worst_rating s)).
Proof.
  intros I R P. cbv zeta. rewrite calculate_by_ratings.
  assert (F := ratings_of_pos matches).
  assert (Ir : In r (Ratings.ratings_of matches))
    by (apply ratings_of_In; eauto).
  destruct (Ratings.ratings_of matches) as [|first rest] eqn:E;
    [destruct Ir|]. simpl.
  destruct (py_max_greatest rest first F) as [IM GM].
  destruct (py_min_least rest first F) as [Im Gm].
  rewrite <- E in IM, Im. apply ratings_of_In in IM, Im.
  destruct IM as [m1 [I1 [R1 _]]]. destruct Im as [m2 [I2 [R2 _]]].
  repeat split; eauto.
Qed.

Lemma ratings_enclose_witness :
  (6.5 <=? 7)%float = true /\ (7 <=? 8.25)%float = true.
Proof.
  destruct (ratings_enclose rated_matches
              (Ratings.MatchStat 5 (Some 7%float)) 7%float)
    as [H1 [H2 _]]; [simpl; tauto | reflexivity | reflexivity|].
  split; [exact H1 | exact H2].
Defined.

Lemma ratings_of_nil matches :
  Ratings.ratings_of matches = [] <->
  forall m, In m matches -> Ratings.rated m = false.
Proof.
  split.
  - intros E m I. unfold Ratings.rated.
    destruct (Ratings.rating m) as [r|] eqn:R; [|reflexivity].
    destruct (0 <? r)%float eqn:P; [|reflexivity].
    assert (Ir : In r (Ratings.ratings_of matches))
      by (apply ratings_of_In; eauto).
    rewrite E in Ir. destruct Ir.
  - intros H. destruct (Ratings.ratings_of matches) as [|r l] eqn:E;
      [reflexivity|].
    assert (Ir : In r (Ratings.ratings_of matches)) by (rewrite E; now left).
    apply ratings_of_In in Ir. destruct Ir as [m [I [R P]]].
    specialize (H m I). unfold Ratings.rated in H. rewrite R in H. congruence.
Qed.

(** X3. The best rating reported is zero exactly when no match has a
    positive rating, and so is the worst; the result is then the one of a
    player without matches. *)
Theorem ratings_zero_iff_unrated (matches : list Ratings.match_stat) :
  let s := Ratings.calculate_player_stats matches in
  let unrated := forall m, In m matches -> Ratings.rated m = false in
  (Ratings.best_rating s = 0%float <-> unrated) /\
  (Ratings.worst_rating s = 0%float <-> unrated) /\
  (unrated -> s = Ratings.calculate_player_stats []).
Proof.
  cbv zeta. rewrite <- ratings_of_nil, calculate_by_ratings.
  assert (F := ratings_of_pos matches).
  destruct (Ratings.ratings_of matches) as [|first rest]; simpl.
  - repeat split; auto.
  - destruct (py_max_greatest rest first F) as [IM _].
    destruct (py_min_least rest first F) as [Im _].
    rewrite Forall_forall in F. apply F in IM, Im.
    repeat split; try discriminate; intros E; rewrite E in *; discriminate.
Qed.

Lemma ratings_zero_iff_unrated_witness :
  Ratings.calculate_player_stats
    [Ratings.MatchStat 3 None; Ratings.MatchStat 4 (Some 0%float)] =
  Ratings.Stats 0 0 0 0.
Proof.
  destruct (ratings_zero_iff_unrated
              [Ratings.MatchStat 3 None; Ratings.MatchStat 4 (Some 0%float)])
    as [_ [_ H]].
  apply H. intros m [<-|[<-|[]]]; reflexivity.
Defined.

(** X4. Matches without rating or with a rating that is not positive (zero,
    negative, not a number) do not count: the result is the one of the
    matches with a positive rating alone. *)
Theorem unrated_matches_ignored (matches : list Ratings.match_stat) :
  Ratings.calculate_player_stats (filter Ratings.rated matches) =
  Ratings.calculate_player_stats matches.
Proof. rewrite !calculate_by_ratings, ratings_of_filter. reflexivity. Qed.

(** X5. The result does not depend on the order of the matches. *)
Theorem ratings_order_independent (matches matches' : list Ratings.match_stat) :
  Permutation matches matches' ->
  Ratings.calculate_player_stats matches =
  Ratings.calculate_player_stats matches'.
Proof.
  intros HP. rewrite !calculate_by_ratings.
  assert (F := ratings_of_pos matches). assert (F' := ratings_of_pos matches').
  apply ratings_of_Permutation in HP.
  destruct (Ratings.ratings_of matches) as [|a l],
           (Ratings.ratings_of matches') as [|b l']; [reflexivity| | |].
  - now apply Permutation_nil_cons in HP.
  - apply Permutation_sym in HP. now apply Permutation_nil_cons in HP.
  - assert (S : forall x, In x (a :: l) <-> In x (b :: l')).
    { intros x. split; apply Permutation_in;
        [exact HP | now apply Permutation_sym]. }
    destruct (py_max_greatest l a F) as [IM GM].
    destruct (py_max_greatest l' b F') as [IM' GM'].
    destruct (py_min_least l a F) as [Im Gm].
    destruct (py_min_least l' b F') as [Im' Gm'].
    f_equal.
    + apply (greatest_unique (a :: l)); [exact F | now split|].
      split; [now apply S | intros x I; apply GM'; now apply S].
    + apply (least_unique (a :: l)); [exact F | now split|].
      split; [now apply S | intros x I; apply Gm'; now apply S].
Qed.

Lemma ratings_order_independent_witness :
  Ratings.calculate_player_stats (rev rated_matches) =
  Ratings.Stats 8.25 6.5 0 0.
Proof.
  rewrite <- (ratings_order_independent rated_matches (rev rated_matches)
                (Permutation_rev rated_matches)).
  reflexivity.
Defined.

(** X6. Further matches never lower the best rating reported, and never
    raise the worst once a match has a positive rating. *)
Theorem ratings_further_matches (matches more : list Ratings.match_stat) :
  let s := Ratings.calculate_player_stats matches in
  let s' := Ratings.calculate_player_stats (matches ++ more) in
  (Ratings.best_rating s <=? Ratings.best_rating s')%float = true /\
  ((exists m, In m matches /\ Ratings.rated m = true) ->
   (Ratings.worst_rating s' <=? Ratings.worst_rating s)%float = true).
Proof.
  cbv zeta. rewrite !calculate_by_ratings, ratings_of_app.
  assert (F := ratings_of_pos matches).
  assert (F' := ratings_of_pos (matches ++ more)).
  rewrite ratings_of_app in F'.
  destruct (Ratings.ratings_of matches) as [|a l] eqn:E.
  - split.
    + simpl app.
      destruct (Ratings.ratings_of more) as [|b l']; [reflexivity|]. simpl.
      destruct (py_max_greatest l' b F') as [IM _].
      rewrite Forall_forall in F'. apply float_pos_nonneg. now apply F'.
    + intros [m [I R]].
      rewrite (proj1 (ratings_of_nil matches) E m I) in R. discriminate.
  - simpl app in *. simpl.
    destruct (py_max_greatest l a F) as [IM GM].
    destruct (py_max_greatest _ a F') as [IM' GM'].
    destruct (py_min_least l a F) as [Im Gm].
    destruct (py_min_least _ a F') as [Im' Gm'].
    split.
    + apply GM'. change (a :: l ++ Ratings.ratings_of more)%list
        with ((a :: l) ++ Ratings.ratings_of more)%list.
      apply in_or_app. now left.
    + intros _. apply Gm'.
      change (a :: l ++ Ratings.ratings_of more)%list
        with ((a :: l) ++ Ratings.ratings_of more)%list.
      apply in_or_app. now left.
Qed.

Lemma ratings_further_matches_witness :
  (6.5 <=? 8.25)%float = true /\ (6.5 <=? 6.5)%float = true.
Proof.
  destruct (ratings_further_matches (firstn 1 rated_matches)
              (skipn 1 rated_matches)) as [H1 H2].
  split; [exact H1|]. apply H2.
  exists (Ratings.MatchStat 1 (Some 6.5%float)).
  split; [now left | reflexivity].
Defined.

(** ** The recent seasons of a competition *)

Lemma unique_from_In seen l x :
  In x (Updater.unique_from seen l) <-> In x l /\ ~ In x seen.
Proof.
  revert seen. induction l as [|y l IH]; intros seen; simpl; [tauto|].
  destruct (existsb (Z.eqb y) seen) eqn:E.
  - rewrite IH. apply existsb_exists in E. destruct E as [z [Iz Ez]].
    apply Z.eqb_eq in Ez. subst z. split; [tauto|].
    intros [[<-|I] N]; tauto.
  - assert (Ny : ~ In y seen).
    { intros I. assert (existsb (Z.eqb y) seen = true); [|congruence].
      apply existsb_exists. exists y. split; [exact I | apply Z.eqb_refl]. }
    simpl. rewrite IH. simpl. split.
    + intros [<-|[I N]]; [tauto|]. split; [tauto|]. intros K. apply N. tauto.
    + intros [[<-|I] N]; [tauto|].
      destruct (Z.eq_dec y x) as [->|D]; [tauto|]. right. split; [exact I|].
      intros [K|K]; tauto.
Qed.

Lemma unique_from_NoDup seen l : NoDup (Updater.unique_from seen l).
Proof.
  revert seen. induction l as [|y l IH]; intros seen; simpl; [constructor|].
  destruct (existsb (Z.eqb y) seen); [apply IH|].
  constructor; [|apply IH]. rewrite unique_from_In. simpl. tauto.
Qed.

Lemma unique_In l x : In x (Updater.unique l) <-> In x l.
Proof. unfold Updater.unique. rewrite unique_from_In. simpl. tauto. Qed.

Lemma insert_desc_In x y l :
  In y (Updater.insert_desc x l) <-> y = x \/ In y l.
Proof.
  induction l as [|z l IH]; simpl; [intuition|].
  destruct (x <? z); simpl; [rewrite IH|]; intuition.
Qed.

Lemma sorted_reverse_In l x : In x (Updater.sorted_reverse l) <-> In x l.
Proof.
  induction l as [|y l IH]; simpl; [tauto|].
  rewrite insert_desc_In, IH. intuition.
Qed.

Lemma insert_desc_sorted x l :
  ~ In x l -> StronglySorted Z.gt l ->
  StronglySorted Z.gt (Updater.insert_desc x l).
Proof.
  intros N S. induction S as [|y l S IH F]; simpl.
  - repeat constructor.
  - destruct (x <? y) eqn:L.
    + apply Z.ltb_lt in L. constructor.
      * apply IH. simpl in N. tauto.
      * apply Forall_forall. intros z Iz. apply insert_desc_In in Iz.
        rewrite Forall_forall in F. destruct Iz as [->|Iz]; [lia | auto].
    + apply Z.ltb_ge in L. simpl in N.
      constructor; [now constructor|].
      assert (x > y) by lia. constructor; [assumption|].
      rewrite Forall_forall in *. intros z Iz. specialize (F z Iz). lia.
Qed.

Lemma sorted_reverse_sorted l :
  NoDup l -> StronglySorted Z.gt (Updater.sorted_reverse l).
Proof.
  induction 1 as [|x l N ND IH]; simpl; [constructor|].
  apply insert_desc_sorted; [|exact IH]. now rewrite sorted_reverse_In.
Qed.

Lemma sorted_reverse_length l :
  List.length (Updater.sorted_reverse l) = List.length l.
Proof.
  assert (H : forall x l,
            List.length (Updater.insert_desc x l) = S (List.length l)).
  { intros x l0. induction l0 as [|y l0 IH]; simpl; [reflexivity|].
    destruct (x <? y); simpl; [rewrite IH|]; reflexivity. }
  induction l as [|x l IH]; simpl; [reflexivity|]. now rewrite H, IH.
Qed.

Lemma firstn_In {A : Type} (n : nat) (l : list A) (x : A) :
  In x (firstn n l) -> In x l.
Proof.
  intros I. rewrite <- (firstn_skipn n l). apply in_or_app. now left.
Qed.

Lemma StronglySorted_firstn {A : Type} (R : A -> A -> Prop) n l :
  StronglySorted R l -> StronglySorted R (firstn n l).
Proof.
  intros S. revert n. induction S as [|x l S IH F]; intros [|n]; simpl;
    try constructor; [apply IH|].
  rewrite Forall_forall in *. intros y Iy. apply F.
  now apply (firstn_In n l).
Qed.

Lemma StronglySorted_app_gt a b :
  StronglySorted Z.gt (a ++ b) ->
  forall x y, In x a -> In y b -> x > y.
Proof.
  induction a as [|z a IH]; simpl; intros S x y Ix Iy; [destruct Ix|].
  inversion S as [|? ? S' F]; subst. destruct Ix as [<-|Ix].
  - rewrite Forall_forall in F. apply F. apply in_or_app. now right.
  - now apply IH.
Qed.

(** Strictly decreasing lists with the same items are equal. *)
Lemma StronglySorted_gt_ext l1 : forall l2,
  StronglySorted Z.gt l1 -> StronglySorted Z.gt l2 ->
  (forall x, In x l1 <-> In x l2) -> l1 = l2.
Proof.
  induction l1 as [|a l1 IH]; intros [|b l2] S1 S2 E.
  - reflexivity.
  - exfalso. apply (E b). now left.
  - exfalso. apply (E a). now left.
  - inversion S1 as [|? ? S1' F1]; subst. inversion S2 as [|? ? S2' F2]; subst.
    rewrite Forall_forall in F1, F2.
    assert (a = b).
    { destruct (proj1 (E a) (or_introl eq_refl)) as [->|Ia]; [reflexivity|].
      destruct (proj2 (E b) (or_introl eq_refl)) as [->|Ib]; [reflexivity|].
      specialize (F1 b Ib). specialize (F2 a Ia). lia. }
    subst b. f_equal. apply IH; auto.
    intros x. split; intros I.
    + destruct (proj1 (E x) (or_intror I)) as [<-|K]; [|exact K].
      specialize (F1 a I). lia.
    + destruct (proj2 (E x) (or_intror I)) as [<-|K]; [|exact K].
      specialize (F2 a I). lia.
Qed.

Lemma slice_to_firstn l n :
  exists k, Updater.slice_to l n = firstn k l /\
            (0 <= n -> k = Z.to_nat n).
Proof.
  unfold Updater.slice_to. destruct (0 <=? n) eqn:E.
  - eexists. split; [reflexivity | auto].
  - apply Z.leb_gt in E. eexists. split; [reflexivity | lia].
Qed.

Lemma recent_seasons_firstn column n :
  exists k,
    Updater.get_recent_seasons (Some column) n =
      firstn k (Updater.sorted_reverse (Updater.unique column)) /\
    (0 <= n -> k = Z.to_nat n).
Proof. apply slice_to_firstn. Qed.

Lemma sorted_unique column :
  StronglySorted Z.gt (Updater.sorted_reverse (Updater.unique column)).
Proof. apply sorted_reverse_sorted. apply unique_from_NoDup. Qed.

Lemma sorted_unique_In column x :
  In x (Updater.sorted_reverse (Updater.unique column)) <-> In x column.
Proof. now rewrite sorted_reverse_In, unique_In. Qed.

(** X7. The seasons [get_recent_seasons] answers are strictly decreasing,
    so each appears once, and each is the season of some match of the
    competition. *)
Theorem recent_seasons_sorted (column : list Z) (num_seasons : Z) :
  let recent := Updater.get_recent_seasons (Some column) num_seasons in
  StronglySorted Z.gt recent /\ NoDup recent /\
  forall s, In s recent -> In s column.
Proof.
  cbv zeta. destruct (recent_seasons_firstn column num_seasons) as [k [-> _]].
  assert (S := StronglySorted_firstn Z.gt k _ (sorted_unique column)).
  split; [exact S|]. split.
  - induction S as [|x l S IH F]; constructor; [|exact IH].
    intros I. rewrite Forall_forall in F. specialize (F x I). lia.
  - intros s I. apply firstn_In in I.
    exact (proj1 (sorted_unique_In column s) I).
Qed.

Lemma recent_seasons_sorted_witness :
  StronglySorted Z.gt [106; 90] /\ In 106 season_column.
Proof.
  destruct (recent_seasons_sorted season_column 2) as [S [_ I]].
  split; [exact S | apply I; simpl; auto].
Defined.

(** X8. For a number of seasons that is not negative, [get_recent_seasons]
    answers that many seasons, or all the distinct seasons of the matches
    when there are fewer. *)
Theorem recent_seasons_length (column : list Z) (num_seasons : Z) :
  0 <= num_seasons ->
  List.length (Updater.get_recent_seasons (Some column) num_seasons) =
  Nat.min (Z.to_nat num_seasons) (List.length (nodup Z.eq_dec column)).
Proof.
  intros N. destruct (recent_seasons_firstn column num_seasons) as [k [-> K]].
  rewrite (K N), length_firstn, sorted_reverse_length. f_equal.
  apply Permutation_length. apply NoDup_Permutation.
  - apply unique_from_NoDup.
  - apply NoDup_nodup.
  - intros x. rewrite unique_In, nodup_In. reflexivity.
Qed.

Lemma recent_seasons_length_witness :
  List.length (Updater.get_recent_seasons (Some season_column) 2) = 2%nat.
Proof.
  rewrite (recent_seasons_length season_column 2); [reflexivity | lia].
Defined.

(** X9. For a number of seasons that is not negative, the seasons answered
    are the most recent ones: a season of a match that is not answered is
    older than every season answered. *)
Theorem recent_seasons_most_recent (column : list Z) (num_seasons : Z)
    (s t : Z) :
  0 <= num_seasons ->
  let recent := Updater.get_recent_seasons (Some column) num_seasons in
  In s column -> ~ In s recent -> In t recent -> s < t.
Proof.
  intros N. cbv zeta.
  destruct (recent_seasons_firstn column num_seasons) as [k [-> _]].
  intros Is Ns It.
  set (l := Updater.sorted_reverse (Updater.unique column)) in *.
  assert (S : StronglySorted Z.gt (firstn k l ++ skipn k l))
    by (rewrite firstn_skipn; apply sorted_unique).
  assert (Il : In s (firstn k l ++ skipn k l))
    by (rewrite firstn_skipn; now apply sorted_unique_In).
  apply in_app_or in Il. destruct Il as [Il|Il]; [contradiction|].
  assert (G := StronglySorted_app_gt _ _ S t s It Il). lia.
Qed.

Lemma recent_seasons_most_recent_witness : 42 < 90.
Proof.
  apply (recent_seasons_most_recent season_column 2 42 90); [lia| | |].
  - simpl. tauto.
  - simpl. intros [H|[H|[]]]; discriminate.
  - simpl. tauto.
Defined.

(** X10. The seasons answered depend only on which seasons the matches
    have, not on their order nor on how many matches a season has. *)
Theorem recent_seasons_by_set (column column' : list Z) (num_seasons : Z) :
  (forall s, In s column <-> In s column') ->
  Updater.get_recent_seasons (Some column) num_seasons =
  Updater.get_recent_seasons (Some column') num_seasons.
Proof.
  intros E. unfold Updater.get_recent_seasons.
  replace (Updater.sorted_reverse (Updater.unique column'))
    with (Updater.sorted_reverse (Updater.unique column)); [reflexivity|].
  apply StronglySorted_gt_ext; try apply sorted_unique.
  intros x. now rewrite !sorted_unique_In.
Qed.

Lemma recent_seasons_by_set_witness :
  Updater.get_recent_seasons (Some [27; 42; 90; 106]) 2 = [106; 90].
Proof.
  rewrite <- (recent_seasons_by_set season_column [27; 42; 90; 106] 2);
    [reflexivity|].
  intros s. simpl. intuition.
Defined.

(** ** The events of a match *)

(** X12. Processing is idempotent: a processed event is its own processed
    event, so the endpoint answers its own data unchanged. *)
Theorem processed_event_idempotent (events : list mapping) :
  (forall event,
     Events.processed_event (Events.processed_event event) =
     Events.processed_event event) /\
  Events.get_match_events (map Events.processed_event events) =
  Events.get_match_events events.
Proof.
  assert (H : forall event,
            Events.processed_event (Events.processed_event event) =
            Events.processed_event event) by (intros event; reflexivity).
  split; [exact H|]. unfold Events.get_match_events. f_equal.
  rewrite map_map. apply map_ext. exact H.
Qed.

(** ** The update of the database *)

Section UpdateDatabaseFacts.

Variable match_row : Type.
Variable get_matches_for_teams : Z -> Z -> list match_row.
Variable newer : match_row -> bool.
Variable competitions : list Z.
Variable seasons : Z -> option (list Z).

Local Abbreviation seasons_loop :=
  (Updater.seasons_loop match_row get_matches_for_teams newer).
Local Abbreviation competitions_loop :=
  (Updater.competitions_loop match_row get_matches_for_teams newer
     competitions seasons).

Lemma seasons_loop_raises comp_id recent_seasons processed :
  seasons_loop comp_id recent_seasons processed =
  (processed,
   match recent_seasons with
   | [] => None
   | _ => Some AttributeError
   end).
Proof. destruct recent_seasons; reflexivity. Qed.

Lemma competitions_loop_raises comp_ids processed :
  fst (competitions_loop comp_ids processed) = processed /\
  (snd (competitions_loop comp_ids processed) = None \/
   snd (competitions_loop comp_ids processed) = Some AttributeError) /\
  (snd (competitions_loop comp_ids processed) = Some AttributeError <->
   exists comp_id, In comp_id comp_ids /\ In comp_id competitions /\
     Updater.get_recent_seasons (seasons comp_id) 2 <> []).
Proof.
  induction comp_ids as [|c comp_ids IH]; simpl.
  - split; [reflexivity|]. split; [now left|].
    split; [discriminate | intros [? [[] _]]].
  - destruct (existsb (Z.eqb c) competitions) eqn:E; simpl.
    + assert (Ic : In c competitions).
      { apply existsb_exists in E. destruct E as [z [Iz Ez]].
        apply Z.eqb_eq in Ez. now subst z. }
      rewrite seasons_loop_raises.
      destruct (Updater.get_recent_seasons (seasons c) 2) as [|s l] eqn:R.
      * destruct IH as [H1 [H2 H3]]. split; [exact H1|]. split; [exact H2|].
        rewrite H3. split.
        -- intros [k [I H]]. exists k. tauto.
        -- intros [k [[<-|I] [I' H]]]; [congruence|]. exists k. tauto.
      * simpl. split; [reflexivity|]. split; [now right|].
        split; [|reflexivity]. intros _. exists c.
        split; [now left|]. split; [exact Ic|]. rewrite R. discriminate.
    + assert (Nc : ~ In c competitions).
      { intros I. assert (existsb (Z.eqb c) competitions = true);
          [|congruence].
        apply existsb_exists. exists c. split; [exact I | apply Z.eqb_refl]. }
      destruct IH as [H1 [H2 H3]]. split; [exact H1|]. split; [exact H2|].
      rewrite H3. split.
      * intros [k [I H]]. exists k. tauto.
      * intros [k [[<-|I] [I' H]]]; [contradiction|]. exists k. tauto.
Qed.

End UpdateDatabaseFacts.

(** X13. As the class is written, [update_database] hands no match to
    [process_match_data]: the method [get_matches_for_teams] it calls is not
    defined, so it raises [AttributeError] at the first season of a
    configured competition that was retrieved, and otherwise returns having
    done nothing; this whatever the undefined method would answer. *)
Theorem update_database_processes_nothing (match_row : Type)
    (get_matches_for_teams : Z -> Z -> list match_row)
    (newer : match_row -> bool) (competitions : list Z)
    (seasons : Z -> option (list Z)) :
  let run := Updater.update_database match_row get_matches_for_teams newer
               competitions seasons in
  fst run = [] /\
  (snd run = None \/ snd run = Some AttributeError) /\
  (snd run = Some AttributeError <->
   exists comp_id, In comp_id Updater.comp_ids /\ In comp_id competitions /\
     Updater.get_recent_seasons (seasons comp_id) 2 <> []).
Proof.
  cbv zeta. unfold Updater.update_database.
  destruct competitions as [|c cs] eqn:E.
  - simpl. split; [reflexivity|]. split; [now left|].
    split; [discriminate | intros [? [_ [[] _]]]].
  - rewrite <- E.
    apply (competitions_loop_raises match_row get_matches_for_teams newer
             competitions seasons Updater.comp_ids []).
Qed.

Lemma update_database_processes_nothing_witness :
  Updater.update_database Z (fun _ _ => [1; 2]) (fun _ => true) [11; 37]
    (fun _ => Some season_column) =
  ([], Some AttributeError).
Proof.
  destruct (update_database_processes_nothing Z (fun _ _ => [1; 2])
              (fun _ => true) [11; 37] (fun _ => Some season_column))
    as [H1 [_ H3]].
  apply injective_projections; [exact H1|]. apply H3.
  exists 11. split; [simpl; tauto|]. split; [simpl; tauto | discriminate].
Defined.

(** * Further properties of the two aggregations *)

(** ** Counters as numbers of rows *)

Section LoopTally.

Variable S : Type.
Variable key : event -> M (option hashable).
Variable new : hashable -> event -> S.
Variable count : event -> S -> M S.

Variable f : S -> Z.
Variable ind : event -> bool.

Hypothesis f_new : forall k e, f (new k e) = 0.
Hypothesis f_count :
  forall e st st',
    count e st = Ok st' -> f st' = f st + (if ind e then 1 else 0).

Lemma tally_cons k e events :
  tally key k ind (e :: events) =
  (if of_actor key k e && ind e then 1 else 0) + tally key k ind events.
Proof.
  unfold tally. cbn [filter].
  destruct (of_actor key k e && ind e); cbn [List.length];
    rewrite ?Nat2Z.inj_succ; lia.
Qed.

Lemma scan_tally events : forall d d' k st',
  Loop.scan key new count d events = Ok d' -> lookup k d' = Some st' ->
  f st' =
  match lookup k d with
  | Some st => f st
  | None => 0
  end + tally key k ind events.
Proof.
  induction events as [|e events IH]; intros d d' k st'; simpl.
  - intros [= <-] L. rewrite L. unfold tally. simpl. lia.
  - destruct (Loop.step key new count d e) as [d1|x] eqn:St; simpl;
      [|discriminate].
    intros Sc L. rewrite (IH _ _ _ _ Sc L), tally_cons. unfold of_actor.
    destruct (step_inv _ _ _ _ _ _ _ St) as [[K ->]|[k1 [st1 [K [C ->]]]]].
    + rewrite K. simpl. lia.
    + rewrite K. destruct (hashable_eqb_spec k1 k) as [->|N].
      * rewrite lookup_put_same, (f_count _ _ _ C). unfold Loop.entry.
        destruct (lookup k d); [|rewrite f_new]; simpl; lia.
      * rewrite lookup_put_other by congruence. simpl. lia.
Qed.

End LoopTally.

Ltac indicators :=
  unfold is_assist, is_shot_on_target, is_pass_completed, is_duel_won,
    is_duel_lost, is_yellow_card, is_red_card, is_shot, is_pass, is_goal,
    is_tackle, is_interception, is_duel, is_corner, is_foul, name_of.

Ltac counted_done :=
  simpl; repeat split; (apply Forall_nil || lia).

Ltac counted :=
  repeat (break_match; simpl in *; try discriminate; ok_inv);
  try discriminate; ok_inv; counted_done.

(** The card branch: a name is not both that of a yellow and of a red
    card. *)
Ltac card_counted column :=
  destruct (shaped column "card"); [|discriminate];
  unfold eq_str;
  destruct (get (inner_of column "card") "name" VNone) as [| | | |s| |];
  try (intros [= <-]; counted_done);
  destruct (String.eqb_spec s "Yellow Card") as [->|_];
  [simpl; intros [= <-]; counted_done|];
  destruct (String.eqb_spec s "Red Card") as [->|_];
  intros [= <-]; counted_done.

Lemma player_counters_new k e :
  Forall (fun p : counter Player.stats => fst p (Player.new k e) = 0)
    player_counters.
Proof. repeat constructor. Qed.

Lemma team_counters_new k :
  Forall (fun p : counter Team.stats => fst p (Team.new k) = 0)
    team_counters.
Proof. repeat constructor. Qed.

(** One turn of the chain adds one to the counters the row counts for. *)
Lemma player_count_adds_one e st st' :
  Player.count e st = Ok st' ->
  Forall (fun p : counter Player.stats =>
            fst p st' = fst p st + (if snd p e then 1 else 0))
    player_counters.
Proof.
  unfold player_counters, Player.count. rewrite !Forall_cons_iff.
  cbn [fst snd]. indicators.
  destruct (ev_type e) as [t|]; simpl type_is;
    [|intros [= <-]; counted_done].
  destruct (String.eqb_spec t "Shot") as [->|_].
  { unfold Player.on_shot. rewrite nested_bind. simpl. intros H.
    unfold Py.bind in H. counted. }
  destruct (String.eqb_spec t "Pass") as [->|_].
  { unfold Player.on_pass. rewrite nested_bind. simpl.
    destruct (shaped (ev_pass e) "outcome") eqn:Sh; [|discriminate].
    rewrite (goal_assist_sub _ _ Sh). intros H.
    unfold Py.bind in H. counted. }
  destruct (String.eqb_spec t "Goal") as [->|_].
  { simpl. intros [= <-]. counted_done. }
  destruct (String.eqb_spec t "Tackle") as [->|_].
  { simpl. intros [= <-]. counted_done. }
  destruct (String.eqb_spec t "Interception") as [->|_].
  { simpl. intros [= <-]. counted_done. }
  destruct (String.eqb_spec t "Duel") as [->|_].
  { unfold Player.on_duel. rewrite nested_bind. simpl. intros H. counted. }
  destruct (String.eqb_spec t "Foul Committed") as [->|_].
  { unfold Player.on_foul. rewrite nested_bind. simpl.
    card_counted (ev_foul_committed e). }
  intros [= <-]. counted_done.
Qed.

Lemma team_count_adds_one e st st' :
  Team.count e st = Ok st' ->
  Forall (fun p : counter Team.stats =>
            fst p st' = fst p st + (if snd p e then 1 else 0))
    team_counters.
Proof.
  unfold team_counters, Team.count. rewrite !Forall_cons_iff.
  cbn [fst snd]. indicators.
  destruct (ev_type e) as [t|]; simpl type_is;
    [|intros [= <-]; counted_done].
  destruct (String.eqb_spec t "Shot") as [->|_].
  { unfold Team.on_shot. rewrite nested_bind. simpl. intros H.
    unfold Py.bind in H. counted. }
  destruct (String.eqb_spec t "Pass") as [->|_].
  { unfold Team.on_pass. rewrite nested_bind. simpl. intros H. counted. }
  destruct (String.eqb_spec t "Goal") as [->|_].
  { simpl. intros [= <-]. counted_done. }
  destruct (String.eqb_spec t "Tackle") as [->|_].
  { simpl. intros [= <-]. counted_done. }
  destruct (String.eqb_spec t "Interception") as [->|_].
  { simpl. intros [= <-]. counted_done. }
  destruct (String.eqb_spec t "Duel") as [->|_].
  { unfold Team.on_duel. rewrite nested_bind. simpl. intros H. counted. }
  destruct (String.eqb_spec t "Corner") as [->|_].
  { simpl. intros [= <-]. counted_done. }
  destruct (String.eqb_spec t "Foul Committed") as [->|_].
  { unfold Team.on_foul. rewrite nested_bind. simpl.
    card_counted (ev_foul_committed e). }
  intros [= <-]. counted_done.
Qed.

(** X14.  Every counter of an entry of the player response is the number
    of rows of that player that count for it: [goals] the rows of type
    Goal, [shots_on_target] the shots whose outcome is named Goal, Saved
    or Post, [passes_completed] the passes whose outcome is not named
    Incomplete, [assists] the passes marked as goal assist, [duels_won]
    and [duels_lost] the duels with and without an outcome named Won,
    [yellow_cards] and [red_cards] the fouls with a card of that name, and
    so on for the counters of [player_counters]. *)
Theorem player_counters_count_rows events data st :
  Player.get_player_stats events = Success data -> In st data ->
  Forall (fun p : counter Player.stats =>
            fst p st =
            tally Player.key (key_of (Player.name st)) (snd p) events)
    player_counters.
Proof.
  intros H I. destruct (player_data_lookup _ _ _ H I) as [d [k [Sc L]]].
  rewrite (key_of_hash _ _ (proj2 (player_name_key _ _ _ _ Sc L))).
  rewrite player_scan_loop in Sc.
  apply Forall_forall. intros [f ind] Ip. cbn [fst snd].
  rewrite (scan_tally _ Player.key player_new Player.count f ind)
    with (1 := fun (k : hashable) e =>
                 proj1 (Forall_forall _ _)
                   (player_counters_new (ev_player e) e) _ Ip)
         (3 := Sc) (4 := L).
  - reflexivity.
  - intros e s s' C.
    exact (proj1 (Forall_forall _ _) (player_count_adds_one e s s' C) _ Ip).
Qed.

Lemma player_counters_count_rows_witness :
  Forall (fun p : counter Player.stats =>
            fst p (Player.Stats (AStr "A") (AStr "X") 0 0 1 0 0 1 2 0 0 1 1
                     0 0 0 0.25) =
            tally Player.key (HStr "A") (snd p) passage_of_play)
    player_counters.
Proof.
  eapply (player_counters_count_rows passage_of_play _
            (Player.Stats (AStr "A") (AStr "X") 0 0 1 0 0 1 2 0 0 1 1 0 0 0
               0.25)).
  - vm_compute. reflexivity.
  - simpl. auto.
Defined.

(** X15.  Every counter of an entry of the team response is the number of
    rows of that team that count for it; [corners] the rows of type
    Corner and [fouls] the rows of type Foul Committed. *)
Theorem team_counters_count_rows events data st :
  Team.get_team_stats events = Success data -> In st data ->
  Forall (fun p : counter Team.stats =>
            fst p st =
            tally Team.key (key_of (Team.team st)) (snd p) events)
    team_counters.
Proof.
  intros H I. destruct (team_data_lookup _ _ _ H I) as [d [k [Sc L]]].
  rewrite (key_of_hash _ _ (proj2 (team_name_key _ _ _ _ Sc L))).
  rewrite team_scan_loop in Sc.
  apply Forall_forall. intros [f ind] Ip. cbn [fst snd].
  rewrite (scan_tally _ Team.key team_new Team.count f ind)
    with (1 := fun (k : hashable) (e : event) =>
                 proj1 (Forall_forall _ _)
                   (team_counters_new (ev_team e)) _ Ip)
         (3 := Sc) (4 := L).
  - reflexivity.
  - intros e s s' C.
    exact (proj1 (Forall_forall _ _) (team_count_adds_one e s s' C) _ Ip).
Qed.

Lemma team_counters_count_rows_witness :
  Forall (fun p : counter Team.stats =>
            fst p (Team.Stats (AStr "Y") 0 0 0 0 0 0 0 0 0 1 2 2 0 0) =
            tally Team.key (HStr "Y") (snd p) passage_of_play)
    team_counters.
Proof.
  eapply (team_counters_count_rows passage_of_play _
            (Team.Stats (AStr "Y") 0 0 0 0 0 0 0 0 0 1 2 2 0 0)).
  - vm_compute. reflexivity.
  - simpl. auto.
Defined.

(** ** The order and the number of the entries *)

Section LoopOrder.

Variable S : Type.
Variable key : event -> M (option hashable).
Variable new : hashable -> event -> S.
Variable count : event -> S -> M S.

(** The name of an entry and the actor cell of a row. *)
Variable name : S -> actor.
Variable cell : event -> actor.

Hypothesis name_new : forall k e, name (new k e) = cell e.
Hypothesis name_count :
  forall e st st', count e st = Ok st' -> name st' = name st.

Lemma names_store k v (d : dict S) old :
  lookup k d = Some old -> name v = name old ->
  map name (values (store k v d)) = map name (values d).
Proof.
  unfold values. induction d as [|[k1 w] d IH]; simpl; [discriminate|].
  destruct (hashable_eqb k k1); simpl.
  - intros [= ->] ->. reflexivity.
  - intros L E. now rewrite (IH L E).
Qed.

(** The names of the entries in the order in which the loop adds them. *)
Lemma scan_first_actors events : forall d d' seen,
  (forall x, In x seen <-> In x (keys d)) ->
  Loop.scan key new count d events = Ok d' ->
  map name (values d') =
  (map name (values d) ++ first_actors key cell seen events)%list.
Proof.
  induction events as [|e events IH]; intros d d' seen E; simpl.
  - intros [= <-]. now rewrite app_nil_r.
  - destruct (Loop.step key new count d e) as [d1|x] eqn:St; simpl;
      [|discriminate].
    intros Sc.
    destruct (step_inv _ _ _ _ _ _ _ St) as [[K ->]|[k1 [st1 [K [C ->]]]]];
      rewrite K.
    + now apply IH.
    + apply name_count in C. unfold Loop.entry in C.
      unfold Loop.put in Sc. destruct (mem k1 d) eqn:M.
      * assert (X : existsb (hashable_eqb k1) seen = true).
        { apply existsb_exists. exists k1. split; [|apply hashable_eqb_refl].
          apply E. now apply mem_keys. }
        rewrite X. unfold mem in M.
        destruct (lookup k1 d) as [old|] eqn:L; [|discriminate].
        rewrite (IH _ _ seen) with (2 := Sc).
        -- now rewrite (names_store _ _ _ _ L C).
        -- now rewrite keys_store.
      * assert (X : existsb (hashable_eqb k1) seen = false).
        { destruct (existsb (hashable_eqb k1) seen) eqn:X; [|reflexivity].
          apply existsb_exists in X. destruct X as [z [Iz Ez]].
          apply hashable_eqb_eq in Ez. subst z. apply E in Iz.
          apply mem_keys in Iz. congruence. }
        rewrite X. unfold mem in M.
        destruct (lookup k1 d) as [old|] eqn:L; [discriminate|].
        rewrite (IH _ _ (k1 :: seen)) with (2 := Sc).
        -- rewrite values_add, map_app, <- app_assoc. simpl.
           now rewrite C, name_new.
        -- intros x. rewrite keys_add, in_app_iff. simpl.
           rewrite (E x). intuition.
Qed.

End LoopOrder.

(** The actors in order of first appearance, when the key of a row is the
    key of its cell: each actor of a row with a key, once. *)
Section FirstActors.

Variable key : event -> M (option hashable).
Variable cell : event -> actor.

Hypothesis key_cell :
  forall e k, key e = Ok (Some k) -> hash (cell e) = Ok k.

Lemma first_actors_In events : forall seen a,
  In a (first_actors key cell seen events) <->
  exists e k, In e events /\ key e = Ok (Some k) /\ ~ In k seen /\
              cell e = a.
Proof.
  induction events as [|e events IH]; intros seen a; simpl.
  - split; [tauto | intros [e [k [[] _]]]].
  - assert (skip : (forall k, key e <> Ok (Some k)) \/
                   (exists k1, key e = Ok (Some k1) /\ In k1 seen) ->
              (In a (first_actors key cell seen events) <->
               exists e0 k, (e = e0 \/ In e0 events) /\
                 key e0 = Ok (Some k) /\ ~ In k seen /\ cell e0 = a)).
    { intros N. rewrite IH. split.
      - intros [e0 [k [I H]]]. exists e0, k. auto.
      - intros [e0 [k [[<-|I] [K [Ns C]]]]]; [|now exists e0, k].
        exfalso. destruct N as [N|[k1 [K1 I1]]]; [exact (N k K)|].
        congruence. }
    destruct (key e) as [[k1|]|x] eqn:K;
      [|apply skip; left; discriminate|apply skip; left; discriminate].
    destruct (existsb (hashable_eqb k1) seen) eqn:X.
    + apply skip. right. exists k1. split; [reflexivity|].
      apply existsb_exists in X. destruct X as [z [Iz Ez]].
      apply hashable_eqb_eq in Ez. now subst z.
    + assert (N1 : ~ In k1 seen).
      { intros I1. enough (existsb (hashable_eqb k1) seen = true)
          by congruence.
        apply existsb_exists. exists k1. split; [exact I1|].
        apply hashable_eqb_refl. }
      simpl. rewrite IH. split.
      * intros [<-|[e0 [k [I [K0 [N C]]]]]].
        -- exists e, k1. auto.
        -- exists e0, k. simpl in N. tauto.
      * intros [e0 [k [[<-|I] [K0 [N C]]]]]; [now left|].
        destruct (hashable_eq_dec k1 k) as [->|D].
        -- left. rewrite <- C.
           apply (hash_inj _ _ k); now apply key_cell.
        -- right. exists e0, k. simpl. tauto.
Qed.

Lemma first_actors_NoDup events : forall seen,
  NoDup (first_actors key cell seen events).
Proof.
  induction events as [|e events IH]; intros seen; simpl; [constructor|].
  destruct (key e) as [[k1|]|x] eqn:K; try apply IH.
  destruct (existsb (hashable_eqb k1) seen); [apply IH|].
  constructor; [|apply IH]. rewrite first_actors_In.
  intros [e0 [k [_ [K0 [N C]]]]]. apply N. left.
  apply key_cell in K, K0. rewrite C in K0. congruence.
Qed.

End FirstActors.

Lemma player_names_first_actors events data :
  Player.get_player_stats events = Success data ->
  map Player.name data = first_actors Player.key ev_player [] events.
Proof.
  intros H. apply get_player_stats_Success in H. destruct H as [d [Sc ->]].
  rewrite player_scan_loop in Sc.
  apply (scan_first_actors _ Player.key player_new Player.count Player.name
           ev_player) with (3 := fun x => iff_refl _) (4 := Sc).
  - reflexivity.
  - intros e st st' C. now apply player_count_name in C.
Qed.

Lemma team_names_first_actors events data :
  Team.get_team_stats events = Success data ->
  map Team.team data = first_actors Team.key ev_team [] events.
Proof.
  intros H. apply get_team_stats_Success in H. destruct H as [d [Sc ->]].
  rewrite team_scan_loop in Sc.
  apply (scan_first_actors _ Team.key team_new Team.count Team.team
           ev_team) with (3 := fun x => iff_refl _) (4 := Sc).
  - reflexivity.
  - intros e st st' C. now apply team_count_name in C.
Qed.

(** X16.  The entries of a response come in the order in which their
    actors first appear in the rows: the names of the entries of the
    player response are the player cells of the rows the loop does not
    skip, in order of first appearance, and likewise the teams of the team
    response.  The [nan] of the rows without player is one of them. *)
Theorem entries_in_order_of_first_appearance events :
  (forall data, Player.get_player_stats events = Success data ->
     map Player.name data = first_actors Player.key ev_player [] events) /\
  (forall data, Team.get_team_stats events = Success data ->
     map Team.team data = first_actors Team.key ev_team [] events).
Proof.
  split; intros data H.
  - now apply player_names_first_actors.
  - now apply team_names_first_actors.
Qed.

(** A row of a response that is answered has a key or is skipped. *)
Lemma player_answered_key events data e :
  Player.get_player_stats events = Success data -> In e events ->
  truthy (ev_player e) = true -> exists k, Player.key e = Ok (Some k).
Proof.
  intros H I T.
  assert (A : forallb player_accepts events = true)
    by (apply get_player_stats_ok; now exists data).
  rewrite forallb_forall in A. specialize (A e I).
  unfold player_accepts, accepts, Player.key in *. rewrite T in *.
  simpl in *. destruct (hash (ev_player e)) as [k|x]; simpl in *;
    [now exists k | discriminate].
Qed.

Lemma team_answered_key events data e :
  Team.get_team_stats events = Success data -> In e events ->
  truthy (ev_team e) = true -> exists k, Team.key e = Ok (Some k).
Proof.
  intros H I T.
  assert (A : forallb team_accepts events = true)
    by (apply get_team_stats_ok; now exists data).
  rewrite forallb_forall in A. specialize (A e I).
  unfold team_accepts, accepts, Team.key in *. rewrite T in *.
  simpl in *. destruct (hash (ev_team e)) as [k|x]; simpl in *;
    [now exists k | discriminate].
Qed.

(** X17.  A response has exactly one entry per actor: no two entries of
    the player response have the same name, and every row the loop does
    not skip (its player cell is true: a name that is not empty, or the
    [nan] of a row without player) has an entry of that name; likewise for
    the teams of the team response. *)
Theorem one_entry_per_actor events :
  (forall data, Player.get_player_stats events = Success data ->
     NoDup (map Player.name data) /\
     forall e, In e events -> truthy (ev_player e) = true ->
       exists st, In st data /\ Player.name st = ev_player e) /\
  (forall data, Team.get_team_stats events = Success data ->
     NoDup (map Team.team data) /\
     forall e, In e events -> truthy (ev_team e) = true ->
       exists st, In st data /\ Team.team st = ev_team e).
Proof.
  split; intros data H.
  - rewrite (player_names_first_actors _ _ H).
    split; [apply first_actors_NoDup; intros e k K;
            now apply player_key_inv in K|].
    intros e I T. destruct (player_answered_key _ _ _ H I T) as [k K].
    assert (Ik : In (ev_player e) (map Player.name data)).
    { rewrite (player_names_first_actors _ _ H). apply first_actors_In.
      - intros e0 k0 K0. now apply player_key_inv in K0.
      - exists e, k. auto. }
    apply in_map_iff in Ik. destruct Ik as [st [E Is]]. now exists st.
  - rewrite (team_names_first_actors _ _ H).
    split; [apply first_actors_NoDup; intros e k K;
            now apply team_key_inv in K|].
    intros e I T. destruct (team_answered_key _ _ _ H I T) as [k K].
    assert (Ik : In (ev_team e) (map Team.team data)).
    { rewrite (team_names_first_actors _ _ H). apply first_actors_In.
      - intros e0 k0 K0. now apply team_key_inv in K0.
      - exists e, k. auto. }
    apply in_map_iff in Ik. destruct Ik as [st [E Is]]. now exists st.
Qed.

Lemma entries_in_order_of_first_appearance_witness :
  first_actors Player.key ev_player [] (lineup_of_x :: passage_of_play) =
    [numpy_nan; AStr "A"; AStr "B"] /\
  first_actors Team.key ev_team [] passage_of_play = [AStr "X"; AStr "Y"].
Proof.
  destruct (entries_in_order_of_first_appearance
              (lineup_of_x :: passage_of_play)) as [HP _].
  destruct (entries_in_order_of_first_appearance passage_of_play)
    as [_ HT].
  split.
  - rewrite <- (HP _ eq_refl). reflexivity.
  - rewrite <- (HT _ eq_refl). reflexivity.
Defined.

Lemma one_entry_per_actor_witness :
  exists data st,
    Player.get_player_stats passage_of_play = Success data /\
    In st data /\ Player.name st = AStr "B".
Proof.
  destruct (one_entry_per_actor passage_of_play) as [HP _].
  destruct (HP _ eq_refl) as [_ C].
  destruct (C yellow_foul) as [st [I N]];
    [simpl; auto | reflexivity |].
  eexists. exists st. split; [reflexivity | split; [exact I | exact N]].
Defined.

(** ** The exception of a response *)

Lemma float_add_raise acc acc' v x :
  float_add acc v = Raise x -> float_add acc' v = Raise x.
Proof.
  unfold float_add, Py.bind. destruct v; try discriminate; auto.
  destruct (float_of_int z); [discriminate | auto].
Qed.

Lemma add_xg_raise {A : Type} (sub : mapping) acc acc' (set set' : float -> A)
    (a a' : A) x :
  match find "statsbomb_xg" sub with
  | Some v => y <- float_add acc v ;; Ok (set y)
  | None => Ok a
  end = Raise x ->
  match find "statsbomb_xg" sub with
  | Some v => y <- float_add acc' v ;; Ok (set' y)
  | None => Ok a'
  end = Raise x.
Proof.
  destruct (find "statsbomb_xg" sub) as [v|]; [|discriminate].
  destruct (float_add acc v) as [y|y] eqn:F; simpl; [discriminate|].
  intros [= <-]. now rewrite (float_add_raise _ acc' _ _ F).
Qed.

(** The exception of a row does not depend on the entry it is counted
    on. *)
Lemma player_count_raise e st x :
  Player.count e st = Raise x -> forall t, Player.count e t = Raise x.
Proof.
  intros H t. revert H. unfold Player.count.
  destruct (type_is (ev_type e) "Shot").
  { unfold Player.on_shot. rewrite !nested_bind.
    destruct (shaped (ev_shot e) "outcome"); [|auto]. apply add_xg_raise. }
  destruct (type_is (ev_type e) "Pass").
  { unfold Player.on_pass. rewrite !nested_bind.
    destruct (shaped (ev_pass e) "outcome"); [|auto].
    destruct (eq_True (get (sub_of (ev_pass e)) "goal_assist" VNone));
      [|discriminate].
    apply add_xg_raise. }
  destruct (type_is (ev_type e) "Goal"); [discriminate|].
  destruct (type_is (ev_type e) "Tackle"); [discriminate|].
  destruct (type_is (ev_type e) "Interception"); [discriminate|].
  destruct (type_is (ev_type e) "Duel").
  { unfold Player.on_duel. rewrite !nested_bind.
    destruct (shaped (ev_duel e) "outcome"); [|auto].
    destruct (eq_str _ _); discriminate. }
  destruct (type_is (ev_type e) "Foul Committed"); [|discriminate].
  unfold Player.on_foul. rewrite !nested_bind.
  destruct (shaped (ev_foul_committed e) "card"); [|auto].
  repeat (destruct (eq_str _ _); try discriminate).
Qed.

Lemma team_count_raise e st x :
  Team.count e st = Raise x -> forall t, Team.count e t = Raise x.
Proof.
  intros H t. revert H. unfold Team.count.
  destruct (type_is (ev_type e) "Shot").
  { unfold Team.on_shot. rewrite !nested_bind.
    destruct (shaped (ev_shot e) "outcome"); [|auto]. apply add_xg_raise. }
  destruct (type_is (ev_type e) "Pass").
  { unfold Team.on_pass. rewrite !nested_bind.
    destruct (shaped (ev_pass e) "outcome"); [|auto]. discriminate. }
  destruct (type_is (ev_type e) "Goal"); [discriminate|].
  destruct (type_is (ev_type e) "Tackle"); [discriminate|].
  destruct (type_is (ev_type e) "Interception"); [discriminate|].
  destruct (type_is (ev_type e) "Duel").
  { unfold Team.on_duel. rewrite !nested_bind.
    destruct (shaped (ev_duel e) "outcome"); [|auto].
    destruct (eq_str _ _); discriminate. }
  destruct (type_is (ev_type e) "Corner"); [discriminate|].
  destruct (type_is (ev_type e) "Foul Committed"); [|discriminate].
  unfold Team.on_foul. rewrite !nested_bind.
  destruct (shaped (ev_foul_committed e) "card"); [|auto].
  repeat (destruct (eq_str _ _); try discriminate).
Qed.

Section LoopFailure.

Variable S : Type.
Variable key : event -> M (option hashable).
Variable new : hashable -> event -> S.
Variable count : event -> S -> M S.

Hypothesis count_raise :
  forall e st x, count e st = Raise x -> forall t, count e t = Raise x.

Lemma step_raise d e x :
  Loop.step key new count d e = Raise x ->
  forall d', Loop.step key new count d' e = Raise x.
Proof.
  intros H d'. destruct (key e) as [[k|]|z] eqn:K.
  - rewrite (step_key _ _ _ _ d' _ _ K).
    rewrite (step_key _ _ _ _ d _ _ K) in H.
    destruct (count e (Loop.entry new d k e)) as [st'|y] eqn:C; simpl in H;
      [discriminate|].
    injection H as ->.
    now rewrite (count_raise _ _ _ C (Loop.entry new d' k e)).
  - rewrite (step_no_key _ _ _ _ _ _ K) in H. discriminate.
  - rewrite (step_bad_key _ _ _ _ _ _ _ K) in H.
    now rewrite (step_bad_key _ _ _ _ _ _ _ K).
Qed.

(** The loop stops at the first row it cannot count, with the exception
    of that row. *)
Lemma scan_first_raise prefix bad rest x d d1 :
  Loop.scan key new count d prefix = Ok d1 ->
  Loop.step key new count [] bad = Raise x ->
  Loop.scan key new count d (prefix ++ bad :: rest) = Raise x.
Proof.
  intros P B. rewrite scan_app, P. simpl.
  now rewrite (step_raise _ _ _ B d1).
Qed.

Lemma scan_raise_inv events : forall d x,
  Loop.scan key new count d events = Raise x ->
  exists prefix bad rest d1,
    events = (prefix ++ bad :: rest)%list /\
    Loop.scan key new count d prefix = Ok d1 /\
    Loop.step key new count [] bad = Raise x.
Proof.
  induction events as [|e events IH]; intros d x; simpl; [discriminate|].
  destruct (Loop.step key new count d e) as [d1|y] eqn:St; simpl.
  - intros Sc. destruct (IH d1 x Sc) as [p [b [r [d2 [-> [P B]]]]]].
    exists (e :: p), b, r, d2. simpl. rewrite St. simpl. auto.
  - intros [= ->]. exists [], e, events, d. repeat split.
    apply (step_raise _ _ _ St).
Qed.

End LoopFailure.

Lemma player_single_failure bad x :
  Player.get_player_stats [bad] = Failure x <->
  Loop.step Player.key player_new Player.count [] bad = Raise x.
Proof.
  unfold Player.get_player_stats. simpl. rewrite player_step_loop.
  destruct (Loop.step Player.key player_new Player.count [] bad); simpl.
  - split; discriminate.
  - split; intros [= ->]; reflexivity.
Qed.

Lemma team_single_failure bad x :
  Team.get_team_stats [bad] = Failure x <->
  Loop.step Team.key team_new Team.count [] bad = Raise x.
Proof.
  unfold Team.get_team_stats. simpl. rewrite team_step_loop.
  destruct (Loop.step Team.key team_new Team.count [] bad); simpl.
  - split; discriminate.
  - split; intros [= ->]; reflexivity.
Qed.

(** X18.  A response reports the exception of the first row its loop
    cannot count: the player endpoint fails with [x] exactly when the rows
    are rows the loop accepts, followed by a row on which the endpoint
    fails with [x] by itself, followed by any rows; likewise the team
    endpoint.  The rows after that row are not looked at, and the entries
    counted before it are lost. *)
Theorem first_bad_row_reported events x :
  (Player.get_player_stats events = Failure x <->
   exists prefix bad rest,
     events = (prefix ++ bad :: rest)%list /\
     forallb player_accepts prefix = true /\
     Player.get_player_stats [bad] = Failure x) /\
  (Team.get_team_stats events = Failure x <->
   exists prefix bad rest,
     events = (prefix ++ bad :: rest)%list /\
     forallb team_accepts prefix = true /\
     Team.get_team_stats [bad] = Failure x).
Proof.
  split; split.
  - unfold Player.get_player_stats at 1. rewrite player_scan_loop.
    destruct (Loop.scan _ _ _ [] events) as [d|y] eqn:Sc; [discriminate|].
    intros [= ->].
    destruct (scan_raise_inv _ _ _ _ player_count_raise _ _ _ Sc)
      as [p [b [r [d1 [-> [P B]]]]]].
    exists p, b, r. split; [reflexivity|]. split.
    + apply (scan_ok _ Player.key player_new Player.count player_shaped
               player_count_ok p []). now exists d1.
    + now apply player_single_failure.
  - intros [p [b [r [-> [A B]]]]]. apply player_single_failure in B.
    destruct (proj2 (scan_ok _ Player.key player_new Player.count
                       player_shaped player_count_ok p []) A) as [d1 P].
    unfold Player.get_player_stats. rewrite player_scan_loop.
    now rewrite (scan_first_raise _ _ _ _ player_count_raise p b r x [] d1
                   P B).
  - unfold Team.get_team_stats at 1. rewrite team_scan_loop.
    destruct (Loop.scan _ _ _ [] events) as [d|y] eqn:Sc; [discriminate|].
    intros [= ->].
    destruct (scan_raise_inv _ _ _ _ team_count_raise _ _ _ Sc)
      as [p [b [r [d1 [-> [P B]]]]]].
    exists p, b, r. split; [reflexivity|]. split.
    + apply (scan_ok _ Team.key team_new Team.count team_shaped
               team_count_ok p []). now exists d1.
    + now apply team_single_failure.
  - intros [p [b [r [-> [A B]]]]]. apply team_single_failure in B.
    destruct (proj2 (scan_ok _ Team.key team_new Team.count
                       team_shaped team_count_ok p []) A) as [d1 P].
    unfold Team.get_team_stats. rewrite team_scan_loop.
    now rewrite (scan_first_raise _ _ _ _ team_count_raise p b r x [] d1
                   P B).
Qed.

Lemma first_bad_row_reported_witness :
  Player.get_player_stats
    (passage_of_play ++ null_shot :: [string_outcome_shot]) =
  Failure AttributeError.
Proof.
  apply (first_bad_row_reported
           (passage_of_play ++ null_shot :: [string_outcome_shot])
           AttributeError).
  exists passage_of_play, null_shot, [string_outcome_shot].
  repeat split.
Defined.

(** ** Counters that bound each other *)

(** X19.  In every entry of the player response the shots on target are
    at most the shots and the assists at most the passes attempted; in
    every entry of the team response the shots on target are at most the
    shots, and the yellow and red cards together at most the fouls. *)
Theorem counters_bound_counters (events : list event) :
  (forall data, Player.get_player_stats events = Success data ->
     Forall player_bounds data) /\
  (forall data, Team.get_team_stats events = Success data ->
     Forall team_bounds data).
Proof.
  split; intros data H; apply Forall_forall; intros st I.
  - destruct (player_data_lookup _ _ _ H I) as [d [k [Sc L]]].
    clear H I. revert events d k st Sc L.
    apply (player_scan_invariant (fun _ st => player_bounds st));
      unfold player_bounds.
    + intros; simpl; lia.
    + intros k e st st' Le C. count_cases; lia.
  - destruct (team_data_lookup _ _ _ H I) as [d [k [Sc L]]].
    clear H I. revert events d k st Sc L.
    apply (team_scan_invariant (fun _ st => team_bounds st));
      unfold team_bounds.
    + intros; simpl; lia.
    + intros k e st st' Le C. count_cases; lia.
Qed.

Lemma counters_bound_counters_witness :
  Forall player_bounds
    [Player.Stats (AStr "A") (AStr "X") 0 0 1 0 0 1 2 0 0 1 1 0 0 0 0.25;
     Player.Stats (AStr "B") (AStr "Y") 0 0 0 0 0 0 0 0 0 0 0 2 0 0 0] /\
  Forall team_bounds
    [Team.Stats (AStr "X") 0 0 0 1 2 0 0 1 1 0 0 0 0 0;
     Team.Stats (AStr "Y") 0 0 0 0 0 0 0 0 0 1 2 2 0 0].
Proof.
  destruct (counters_bound_counters passage_of_play) as [HP HT].
  split; [apply HP | apply HT]; vm_compute; reflexivity.
Defined.

(** X20.  The loop of the player endpoint never assigns [minutes_played]:
    it is 0 in every entry of every response. *)
Theorem minutes_played_never_counted events data :
  Player.get_player_stats events = Success data ->
  Forall (fun st => Player.minutes_played st = 0) data.
Proof.
  intros H. apply Forall_forall. intros st I.
  destruct (player_data_lookup _ _ _ H I) as [d [k [Sc L]]].
  clear H I. revert events d k st Sc L.
  apply (player_scan_invariant (fun _ st => Player.minutes_played st = 0)).
  - reflexivity.
  - intros k e st st' Le C. count_cases; lia.
Qed.

Lemma minutes_played_never_counted_witness :
  Forall (fun st => Player.minutes_played st = 0)
    [Player.Stats (AStr "A") (AStr "X") 0 0 1 0 0 1 2 0 0 1 1 0 0 0 0.25;
     Player.Stats (AStr "B") (AStr "Y") 0 0 0 0 0 0 0 0 0 0 0 2 0 0 0].
Proof.
  apply (minutes_played_never_counted passage_of_play).
  vm_compute. reflexivity.
Defined.

(** ** Totals over the entries *)

Section LoopTotal.

Variable S : Type.
Variable key : event -> M (option hashable).
Variable new : hashable -> event -> S.
Variable count : event -> S -> M S.

Variable f : S -> Z.
Variable ind : event -> bool.

Hypothesis f_new : forall k e, f (new k e) = 0.
Hypothesis f_count :
  forall e st st',
    count e st = Ok st' -> f st' = f st + (if ind e then 1 else 0).

Lemma total_store k v (d : dict S) old :
  lookup k d = Some old ->
  total f (values (store k v d)) = total f (values d) - f old + f v.
Proof.
  unfold values, total.
  induction d as [|[k1 w] d IH]; simpl; [discriminate|].
  destruct (hashable_eqb k k1); simpl.
  - intros [= ->]. lia.
  - intros L. rewrite (IH L). lia.
Qed.

Lemma total_add k v (d : dict S) :
  total f (values (add k v d)) = total f (values d) + f v.
Proof.
  unfold add, values, total. rewrite map_app, fold_right_app. simpl.
  induction (map snd d) as [|w l IH]; simpl; lia.
Qed.

Lemma rows_cons ok e events :
  rows ok (e :: events) = (if ok e then 1 else 0) + rows ok events.
Proof.
  unfold rows. cbn [filter].
  destruct (ok e); cbn [List.length]; rewrite ?Nat2Z.inj_succ; lia.
Qed.

Lemma total_put k st' (d : dict S) e :
  total f (values (Loop.put k st' d)) =
  total f (values d) + (f st' - f (Loop.entry new d k e)).
Proof.
  unfold Loop.put, Loop.entry, mem.
  destruct (lookup k d) as [old|] eqn:L.
  - rewrite (total_store _ _ _ _ L). lia.
  - rewrite total_add, f_new. lia.
Qed.

Lemma scan_total events : forall d d',
  Loop.scan key new count d events = Ok d' ->
  total f (values d') =
  total f (values d) + rows (fun e => has_actor key e && ind e) events.
Proof.
  induction events as [|e events IH]; intros d d'; simpl.
  - intros [= <-]. unfold rows. simpl. lia.
  - destruct (Loop.step key new count d e) as [d1|x] eqn:St; simpl;
      [|discriminate].
    intros Sc. rewrite (IH _ _ Sc), rows_cons. unfold has_actor.
    destruct (step_inv _ _ _ _ _ _ _ St) as [[K ->]|[k1 [st1 [K [C ->]]]]];
      rewrite K; simpl; [lia|].
    rewrite (total_put _ _ _ e), (f_count _ _ _ C). lia.
Qed.

End LoopTotal.

Lemma player_total events data p :
  In p player_counters ->
  Player.get_player_stats events = Success data ->
  total (fst p) data =
  rows (fun e => has_actor Player.key e && snd p e) events.
Proof.
  intros Ip H. apply get_player_stats_Success in H.
  destruct H as [d [Sc ->]]. rewrite player_scan_loop in Sc.
  rewrite (scan_total _ Player.key player_new Player.count (fst p) (snd p))
    with (3 := Sc).
  - reflexivity.
  - intros k e.
    exact (proj1 (Forall_forall _ _)
             (player_counters_new (ev_player e) e) _ Ip).
  - intros e s s' C.
    exact (proj1 (Forall_forall _ _) (player_count_adds_one e s s' C) _ Ip).
Qed.

Lemma team_total events data p :
  In p team_counters ->
  Team.get_team_stats events = Success data ->
  total (fst p) data =
  rows (fun e => has_actor Team.key e && snd p e) events.
Proof.
  intros Ip H. apply get_team_stats_Success in H.
  destruct H as [d [Sc ->]]. rewrite team_scan_loop in Sc.
  rewrite (scan_total _ Team.key team_new Team.count (fst p) (snd p))
    with (3 := Sc).
  - reflexivity.
  - intros k e.
    exact (proj1 (Forall_forall _ _) (team_counters_new (ev_team e)) _ Ip).
  - intros e s s' C.
    exact (proj1 (Forall_forall _ _) (team_count_adds_one e s s' C) _ Ip).
Qed.

Lemma rows_ext ok ok' events :
  (forall e, In e events -> ok e = ok' e) ->
  rows ok events = rows ok' events.
Proof.
  intros H. unfold rows. now rewrite (filter_ext_in _ _ _ H).
Qed.

(** X21.  Summed over the entries of a response, a counter is the number
    of the rows that count for it among those the loop does not skip, whose
    actor cell is true: no such row is counted twice or left out.  A row
    whose player cell is [None] or the empty string counts for no player;
    a row without player, whose cell is [nan], counts for the entry named
    [nan]. *)
Theorem totals_count_rows events :
  (forall data, Player.get_player_stats events = Success data ->
     Forall (fun p : counter Player.stats =>
               total (fst p) data =
               rows (fun e => truthy (ev_player e) && snd p e) events)
       player_counters) /\
  (forall data, Team.get_team_stats events = Success data ->
     Forall (fun p : counter Team.stats =>
               total (fst p) data =
               rows (fun e => truthy (ev_team e) && snd p e) events)
       team_counters).
Proof.
  split; intros data H; apply Forall_forall; intros p Ip.
  - rewrite (player_total _ _ _ Ip H). apply rows_ext. intros e I.
    unfold has_actor. destruct (truthy (ev_player e)) eqn:T.
    + destruct (player_answered_key _ _ _ H I T) as [k K]. now rewrite K.
    + unfold Player.key. now rewrite T.
  - rewrite (team_total _ _ _ Ip H). apply rows_ext. intros e I.
    unfold has_actor. destruct (truthy (ev_team e)) eqn:T.
    + destruct (team_answered_key _ _ _ H I T) as [k K]. now rewrite K.
    + unfold Team.key. now rewrite T.
Qed.

Lemma totals_count_rows_witness :
  Forall (fun p : counter Player.stats =>
            total (fst p)
              [Player.Stats numpy_nan (AStr "X") 0 0 0 1 0 0 0 0 0 0 0 0 0 0 0;
               Player.Stats (AStr "A") (AStr "X") 0 0 0 0 0 1 1 0 0 0 0 0 0
                 0 0] =
            rows (fun e => truthy (ev_player e) && snd p e)
              [lineup_of_x; pass_of_a; shot_of_nobody])
    player_counters.
Proof.
  destruct (totals_count_rows [lineup_of_x; pass_of_a; shot_of_nobody])
    as [HP _].
  apply HP. vm_compute. reflexivity.
Defined.

Lemma shared_counters_In :
  Forall (fun t => In (fst (fst t), snd t) player_counters /\
                   In (snd (fst t), snd t) team_counters)
    shared_counters.
Proof.
  unfold shared_counters.
  repeat (apply Forall_cons;
          [split; simpl; repeat (first [left; reflexivity | right])|]).
  apply Forall_nil.
Qed.

(** X22.  When every row has a player exactly when it has a team, the two
    responses agree on the totals of the counters they share: summed over
    the players and summed over the teams, the goals, shots, shots on
    target, passes, tackles, interceptions, duels and cards are the
    same. *)
Theorem responses_agree_on_totals events players teams :
  (forall e, In e events ->
     has_actor Player.key e = has_actor Team.key e) ->
  Player.get_player_stats events = Success players ->
  Team.get_team_stats events = Success teams ->
  Forall (fun t => total (fst (fst t)) players = total (snd (fst t)) teams)
    shared_counters.
Proof.
  intros A HP HT. apply Forall_forall. intros [[pf tf] ind] I.
  destruct (proj1 (Forall_forall _ _) shared_counters_In _ I) as [Ip It].
  cbn [fst snd] in *.
  pose proof (player_total events players (pf, ind) Ip HP) as P.
  pose proof (team_total events teams (tf, ind) It HT) as T.
  cbn [fst snd] in P, T. rewrite P, T.
  apply rows_ext. intros e Ie. now rewrite (A e Ie).
Qed.

Lemma responses_agree_on_totals_witness :
  Forall (fun t =>
            total (fst (fst t))
              [Player.Stats (AStr "A") (AStr "X") 0 0 1 0 0 1 2 0 0 1 1 0 0
                 0 0.25;
               Player.Stats (AStr "B") (AStr "Y") 0 0 0 0 0 0 0 0 0 0 0 2 0
                 0 0] =
            total (snd (fst t))
              [Team.Stats (AStr "X") 0 0 0 1 2 0 0 1 1 0 0 0 0 0;
               Team.Stats (AStr "Y") 0 0 0 0 0 0 0 0 0 1 2 2 0 0])
    shared_counters.
Proof.
  apply (responses_agree_on_totals passage_of_play).
  - intros e I. simpl in I.
    repeat (destruct I as [<-|I]; [reflexivity|]). destruct I.
  - vm_compute. reflexivity.
  - vm_compute. reflexivity.
Defined.

(** ** The sums as running sums *)

Section LoopSum.

Variable S : Type.
Variable key : event -> M (option hashable).
Variable new : hashable -> event -> S.
Variable count : event -> S -> M S.

Variable f : S -> float.
Variable addend : event -> option value.

Hypothesis f_new : forall k e, f (new k e) = 0%float.
Hypothesis f_count :
  forall e st st',
    count e st = Ok st' ->
    match addend e with
    | Some v => float_add (f st) v = Ok (f st')
    | None => f st' = f st
    end.

Lemma scan_sum events : forall d d' k st',
  Loop.scan key new count d events = Ok d' -> lookup k d' = Some st' ->
  py_sum
    match lookup k d with
    | Some st => f st
    | None => 0%float
    end (addends key k addend events) = Ok (f st').
Proof.
  induction events as [|e events IH]; intros d d' k st'; simpl.
  - intros [= <-] L. now rewrite L.
  - destruct (Loop.step key new count d e) as [d1|x] eqn:St; simpl;
      [|discriminate].
    intros Sc L. specialize (IH _ _ _ _ Sc L). unfold of_actor.
    destruct (step_inv _ _ _ _ _ _ _ St) as [[K ->]|[k1 [st1 [K [C ->]]]]];
      rewrite K; [exact IH|].
    destruct (hashable_eqb_spec k1 k) as [->|N].
    + rewrite lookup_put_same in IH. pose proof (f_count _ _ _ C) as A.
      assert (E : f (Loop.entry new d k e) =
                  match lookup k d with
                  | Some st => f st
                  | None => 0%float
                  end).
      { unfold Loop.entry. destruct (lookup k d); [reflexivity|].
        apply f_new. }
      rewrite E in A. destruct (addend e) as [v|].
      * simpl. rewrite A. exact IH.
      * now rewrite <- A.
    + rewrite lookup_put_other in IH by congruence. exact IH.
Qed.

End LoopSum.

Ltac summed :=
  repeat (break_match; simpl in *; try discriminate; ok_inv);
  try discriminate; ok_inv; simpl; auto.

Lemma player_count_adds_xg e st st' :
  Player.count e st = Ok st' ->
  match shot_xg e with
  | Some v => float_add (Player.xg st) v = Ok (Player.xg st')
  | None => Player.xg st' = Player.xg st
  end.
Proof.
  unfold shot_xg, is_shot, Player.count.
  destruct (type_is (ev_type e) "Shot").
  { unfold Player.on_shot. rewrite nested_bind.
    destruct (shaped (ev_shot e) "outcome"); [|discriminate].
    destruct (in_strs _ _); simpl;
      (destruct (find "statsbomb_xg" (sub_of (ev_shot e))) as [v|];
       [|intros [= <-]; reflexivity]);
      (destruct (float_add (Player.xg st) v) as [y|y]; simpl;
       [|discriminate]); intros [= <-]; reflexivity. }
  intros H. count_cases; reflexivity.
Qed.

Lemma player_count_adds_xa e st st' :
  Player.count e st = Ok st' ->
  match assist_xg e with
  | Some v => float_add (Player.xa st) v = Ok (Player.xa st')
  | None => Player.xa st' = Player.xa st
  end.
Proof.
  unfold assist_xg, is_assist, is_pass, Player.count.
  destruct (ev_type e) as [t|]; simpl type_is;
    [|intros [= <-]; reflexivity].
  destruct (String.eqb_spec t "Shot") as [->|_].
  { simpl. intros H. unfold Player.on_shot, Py.bind in H. summed. }
  destruct (String.eqb_spec t "Pass") as [->|_].
  { unfold Player.on_pass. rewrite nested_bind. simpl.
    destruct (shaped (ev_pass e) "outcome") eqn:Sh; [|discriminate].
    rewrite (goal_assist_sub _ _ Sh).
    destruct (eq_True _); simpl;
      [|destruct (negb _); intros [= <-]; reflexivity].
    destruct (find "statsbomb_xg" (sub_of (ev_pass e))) as [v|];
      [|destruct (negb _); intros [= <-]; reflexivity].
    destruct (negb _); simpl;
      (destruct (float_add (Player.xa st) v) as [y|y]; simpl;
       [|discriminate]); intros [= <-]; reflexivity. }
  intros H.
  assert (A : Player.xa st' = Player.xa st) by (count_cases; reflexivity).
  exact A.
Qed.

Lemma team_count_adds_xg e st st' :
  Team.count e st = Ok st' ->
  match shot_xg e with
  | Some v => float_add (Team.xg st) v = Ok (Team.xg st')
  | None => Team.xg st' = Team.xg st
  end.
Proof.
  unfold shot_xg, is_shot, Team.count.
  destruct (type_is (ev_type e) "Shot").
  { unfold Team.on_shot. rewrite nested_bind.
    destruct (shaped (ev_shot e) "outcome"); [|discriminate].
    destruct (in_strs _ _); simpl;
      (destruct (find "statsbomb_xg" (sub_of (ev_shot e))) as [v|];
       [|intros [= <-]; reflexivity]);
      (destruct (float_add (Team.xg st) v) as [y|y]; simpl;
       [|discriminate]); intros [= <-]; reflexivity. }
  intros H. count_cases; reflexivity.
Qed.

(** X23.  The sums of an entry are running sums in the order of the rows:
    [xg] of an entry of the player response is 0.0 to which the
    [statsbomb_xg] of the shots of that player that have one were added
    one after the other, [xa] likewise from the [statsbomb_xg] of the
    passes of that player marked as goal assist, and [xg] of an entry of
    the team response from the shots of that team. *)
Theorem sums_are_running_sums events :
  (forall data st, Player.get_player_stats events = Success data ->
     In st data ->
     py_sum 0
       (addends Player.key (key_of (Player.name st)) shot_xg events) =
       Ok (Player.xg st) /\
     py_sum 0
       (addends Player.key (key_of (Player.name st)) assist_xg events) =
       Ok (Player.xa st)) /\
  (forall data st, Team.get_team_stats events = Success data ->
     In st data ->
     py_sum 0 (addends Team.key (key_of (Team.team st)) shot_xg events) =
       Ok (Team.xg st)).
Proof.
  split; intros data st H I.
  - destruct (player_data_lookup _ _ _ H I) as [d [k [Sc L]]].
    rewrite (key_of_hash _ _ (proj2 (player_name_key _ _ _ _ Sc L))).
    rewrite player_scan_loop in Sc. split.
    + exact (scan_sum _ Player.key player_new Player.count Player.xg shot_xg
               (fun _ _ => eq_refl) player_count_adds_xg events [] d k st Sc
               L).
    + exact (scan_sum _ Player.key player_new Player.count Player.xa
               assist_xg (fun _ _ => eq_refl) player_count_adds_xa events []
               d k st Sc L).
  - destruct (team_data_lookup _ _ _ H I) as [d [k [Sc L]]].
    rewrite (key_of_hash _ _ (proj2 (team_name_key _ _ _ _ Sc L))).
    rewrite team_scan_loop in Sc.
    exact (scan_sum _ Team.key team_new Team.count Team.xg shot_xg
             (fun _ _ => eq_refl) team_count_adds_xg events [] d k st Sc L).
Qed.

Lemma sums_are_running_sums_witness :
  py_sum 0 (addends Player.key (HStr "A") shot_xg shots_up) =
  Ok 0.6000000000000001%float.
Proof.
  destruct (sums_are_running_sums shots_up) as [HP _].
  destruct (HP _ (Player.Stats (AStr "A") (AStr "X") 0 0 0 3 0 0 0 0 0 0 0
                    0 0 0.6000000000000001 0) eq_refl) as [HX _].
  - simpl. auto.
  - exact HX.
Defined.
